(** * Koa application core: composer, context factory, finalizer, error sink

    A shallow embedding of [lib/application.js] (the file under
    [src/examples/index.js] after the usage example) and of the
    collaborators it calls, with the properties of the specification
    stated over it.

    Conventions.
    - JavaScript strings are modelled by [string], read as the UTF-8
      encoding of the text, so [Buffer.byteLength s] is [String.length s].
    - Numbers are modelled by [Z] (integral values only).
    - A promise-returning function is modelled by a state transformer
      that returns how the promise settles ([Resolved] or [Rejected]):
      the continuation of a middleware is run to completion when it is
      called and its outcome is handed back, which is what a middleware
      observes when it awaits (or synchronously calls) [next()]. *)

From Stdlib Require Import ZArith String Ascii List Lia Bool.
From Stdlib Require Import Decimal DecimalString DecimalFacts DecimalPos DecimalZ.
From stdpp Require Import gmap strings list.

Set Warnings "-register-all".

Local Open Scope Z_scope.

(* ===================================================================== *)
(** * Part I: the model *)
(* ===================================================================== *)

(** ** JavaScript values *)

(** Plain data values, as they can be assigned to [ctx.body], thrown, or
    stored in the fields of an error.  The fields of [VObj] are listed
    in property enumeration order. *)
Inductive value : Type :=
| VUndefined
| VNull
| VBool (b : bool)
| VNum (n : Z)
| VStr (s : string)
| VArr (items : list value)
| VObj (fields : list (string * value)).

(** ** Text: numbers, quoting, JSON *)

(** [String(n)] for an integral number: decimal digits, with a minus
    sign for a negative one. *)
Definition string_of_Z (n : Z) : string :=
  NilZero.string_of_int (Z.to_int n).

(** [Buffer.byteLength(s)]. *)
Definition byteLength (s : string) : Z := Z.of_nat (String.length s).

Definition dquote : ascii := "034"%char.
Definition backslash : ascii := "092"%char.

Definition hex_char (d : nat) : ascii :=
  match String.get d "0123456789abcdef" with
  | Some c => c
  | None => "0"%char
  end.

(** [QuoteJSONString], one character at a time: the quote and the
    backslash are escaped, control characters get their short escape or
    [\u00xx], everything else is copied. *)
Definition escape_char (c : ascii) : string :=
  if Ascii.eqb c dquote then String backslash (String dquote "")
  else if Ascii.eqb c backslash then String backslash (String backslash "")
  else if Ascii.eqb c "008"%char then String backslash "b"
  else if Ascii.eqb c "012"%char then String backslash "f"
  else if Ascii.eqb c "010"%char then String backslash "n"
  else if Ascii.eqb c "013"%char then String backslash "r"
  else if Ascii.eqb c "009"%char then String backslash "t"
  else if (nat_of_ascii c <? 32)%nat then
    String backslash
      (String "u" (String "0" (String "0"
         (String (hex_char (nat_of_ascii c / 16))
            (String (hex_char (nat_of_ascii c mod 16)) "")))))
  else String c "".

Fixpoint escape (s : string) : string :=
  match s with
  | EmptyString => EmptyString
  | String c s' => escape_char c +:+ escape s'
  end.

Definition quote (s : string) : string :=
  String dquote (escape s +:+ String dquote "").

(** [Number.isSafeInteger]: the integers a number holds exactly. *)
Definition safe_integer (n : Z) : bool :=
  (- (2 ^ 53 - 1) <=? n) && (n <=? 2 ^ 53 - 1).

(** [ToBoolean] on these values. *)
Definition truthy (v : value) : bool :=
  match v with
  | VUndefined | VNull => false
  | VBool b => b
  | VNum n => negb (n =? 0)
  | VStr s => negb (String.eqb s "")
  | VArr _ | VObj _ => true
  end.

(** [JSON.stringify(v)]: [None] stands for the result [undefined].  In
    an array [undefined] is written [null]; in an object a field whose
    value is [undefined] is left out. *)
Fixpoint stringify (v : value) : option string :=
  match v with
  | VUndefined => None
  | VNull => Some "null"
  | VBool b => Some (if b then "true" else "false")
  | VNum n => Some (string_of_Z n)
  | VStr s => Some (quote s)
  | VArr items =>
      Some ("[" +:+
            String.concat ","
              (map (fun x => match stringify x with
                             | Some t => t
                             | None => "null"
                             end) items)
            +:+ "]")
  | VObj fields =>
      Some ("{" +:+
            String.concat ","
              (omap (fun kx => match stringify (snd kx) with
                               | Some t => Some (quote (fst kx) +:+ ":" +:+ t)
                               | None => None
                               end) fields)
            +:+ "}")
  end.

Definition JSON_stringify (v : value) : option string := stringify v.

(** *** [JSON.parse]

    The parser covers the texts [JSON.stringify] writes for the values
    above: numbers without fraction or exponent, and [\u] escapes of
    the basic plane other than surrogates.  On any other text it
    answers [None]. *)

Definition is_ws (c : ascii) : bool :=
  Ascii.eqb c " "%char || Ascii.eqb c "009"%char ||
  Ascii.eqb c "010"%char || Ascii.eqb c "013"%char.

Fixpoint skip_ws (s : string) : string :=
  match s with
  | String c s' => if is_ws c then skip_ws s' else s
  | EmptyString => s
  end.

Fixpoint strip_prefix (p s : string) : option string :=
  match p with
  | EmptyString => Some s
  | String c p' =>
      match s with
      | String d s' => if Ascii.eqb c d then strip_prefix p' s' else None
      | EmptyString => None
      end
  end.

Definition digit_of (c : ascii) : option (uint -> uint) :=
  if Ascii.eqb c "0"%char then Some D0
  else if Ascii.eqb c "1"%char then Some D1
  else if Ascii.eqb c "2"%char then Some D2
  else if Ascii.eqb c "3"%char then Some D3
  else if Ascii.eqb c "4"%char then Some D4
  else if Ascii.eqb c "5"%char then Some D5
  else if Ascii.eqb c "6"%char then Some D6
  else if Ascii.eqb c "7"%char then Some D7
  else if Ascii.eqb c "8"%char then Some D8
  else if Ascii.eqb c "9"%char then Some D9
  else None.

Fixpoint parse_digits (s : string) : uint * string :=
  match s with
  | String c s' =>
      match digit_of c with
      | Some d => let '(u, r) := parse_digits s' in (d u, r)
      | None => (Nil, s)
      end
  | EmptyString => (Nil, s)
  end.

(** After the digits of an integer: a fraction or an exponent is not
    covered. *)
Definition starts_fraction (s : string) : bool :=
  match s with
  | String c _ => Ascii.eqb c "."%char || Ascii.eqb c "e"%char || Ascii.eqb c "E"%char
  | EmptyString => false
  end.

Definition parse_number (s : string) : option (value * string) :=
  let '(negative, s1) :=
    match s with
    | String c s' => if Ascii.eqb c "-"%char then (true, s') else (false, s)
    | EmptyString => (false, s)
    end in
  let '(u, r) := parse_digits s1 in
  if uint_beq (unorm u) u && negb (starts_fraction r) then
    Some (VNum (Z.of_int (if negative then Neg u else Pos u)), r)
  else None.

Definition hex_val (c : ascii) : option N :=
  let n := N_of_ascii c in
  if (48 <=? n)%N && (n <=? 57)%N then Some (n - 48)%N
  else if (97 <=? n)%N && (n <=? 102)%N then Some (n - 87)%N
  else if (65 <=? n)%N && (n <=? 70)%N then Some (n - 55)%N
  else None.

(** The UTF-8 bytes of a code point of the basic plane. *)
Definition utf8 (cp : N) : option string :=
  if (cp <? 128)%N then Some (String (ascii_of_N cp) "")
  else if (cp <? 2048)%N then
    Some (String (ascii_of_N (192 + cp / 64))
            (String (ascii_of_N (128 + cp mod 64)) ""))
  else if (55296 <=? cp)%N && (cp <=? 57343)%N then None
  else
    Some (String (ascii_of_N (224 + cp / 4096))
            (String (ascii_of_N (128 + (cp / 64) mod 64))
               (String (ascii_of_N (128 + cp mod 64)) ""))).

(** The characters of a string literal after its opening quote, up to
    the closing quote. *)
Fixpoint parse_chars (s : string) : option (string * string) :=
  match s with
  | EmptyString => None
  | String c s1 =>
      if Ascii.eqb c dquote then Some (EmptyString, s1)
      else if Ascii.eqb c backslash then
        match s1 with
        | EmptyString => None
        | String e s2 =>
            let simple (x : ascii) :=
              match parse_chars s2 with
              | Some (t, r) => Some (String x t, r)
              | None => None
              end in
            if Ascii.eqb e dquote then simple dquote
            else if Ascii.eqb e backslash then simple backslash
            else if Ascii.eqb e "/"%char then simple "/"%char
            else if Ascii.eqb e "b"%char then simple "008"%char
            else if Ascii.eqb e "f"%char then simple "012"%char
            else if Ascii.eqb e "n"%char then simple "010"%char
            else if Ascii.eqb e "r"%char then simple "013"%char
            else if Ascii.eqb e "t"%char then simple "009"%char
            else if Ascii.eqb e "u"%char then
              match s2 with
              | String h1 (String h2 (String h3 (String h4 s3))) =>
                  match hex_val h1, hex_val h2, hex_val h3, hex_val h4 with
                  | Some a, Some b, Some c', Some d =>
                      match utf8 (((a * 16 + b) * 16 + c') * 16 + d)%N,
                            parse_chars s3 with
                      | Some bytes, Some (t, r) => Some (bytes +:+ t, r)
                      | _, _ => None
                      end
                  | _, _, _, _ => None
                  end
              | _ => None
              end
            else None
        end
      else if (nat_of_ascii c <? 32)%nat then None
      else
        match parse_chars s1 with
        | Some (t, r) => Some (String c t, r)
        | None => None
        end
  end.

(** Defining a property of the object being built: a key already there
    keeps its place and takes the new value. *)
Fixpoint obj_set (k : string) (v : value) (fs : list (string * value))
    : list (string * value) :=
  match fs with
  | [] => [(k, v)]
  | (k', v') :: fs' =>
      if String.eqb k k' then (k, v) :: fs' else (k', v') :: obj_set k v fs'
  end.

Fixpoint parse_value (fuel : nat) (s : string) : option (value * string) :=
  match fuel with
  | O => None
  | S fuel =>
      match skip_ws s with
      | EmptyString => None
      | String c s1 =>
          if Ascii.eqb c "n"%char then
            option_map (pair VNull) (strip_prefix "ull" s1)
          else if Ascii.eqb c "t"%char then
            option_map (pair (VBool true)) (strip_prefix "rue" s1)
          else if Ascii.eqb c "f"%char then
            option_map (pair (VBool false)) (strip_prefix "alse" s1)
          else if Ascii.eqb c dquote then
            match parse_chars s1 with
            | Some (t, r) => Some (VStr t, r)
            | None => None
            end
          else if Ascii.eqb c "["%char then
            match skip_ws s1 with
            | String d r =>
                if Ascii.eqb d "]"%char then Some (VArr [], r)
                else parse_elements fuel [] s1
            | EmptyString => None
            end
          else if Ascii.eqb c "{"%char then
            match skip_ws s1 with
            | String d r =>
                if Ascii.eqb d "}"%char then Some (VObj [], r)
                else parse_members fuel [] s1
            | EmptyString => None
            end
          else parse_number (String c s1)
      end
  end
with parse_elements (fuel : nat) (acc : list value) (s : string)
    : option (value * string) :=
  match fuel with
  | O => None
  | S fuel =>
      match parse_value fuel s with
      | Some (v, r) =>
          match skip_ws r with
          | String d r' =>
              if Ascii.eqb d ","%char then parse_elements fuel (acc ++ [v]) r'
              else if Ascii.eqb d "]"%char then Some (VArr (acc ++ [v]), r')
              else None
          | EmptyString => None
          end
      | None => None
      end
  end
with parse_members (fuel : nat) (acc : list (string * value)) (s : string)
    : option (value * string) :=
  match fuel with
  | O => None
  | S fuel =>
      match skip_ws s with
      | String q s1 =>
          if Ascii.eqb q dquote then
            match parse_chars s1 with
            | Some (k, r) =>
                match skip_ws r with
                | String d r1 =>
                    if Ascii.eqb d ":"%char then
                      match parse_value fuel r1 with
                      | Some (v, r2) =>
                          match skip_ws r2 with
                          | String e r3 =>
                              if Ascii.eqb e ","%char then
                                parse_members fuel (obj_set k v acc) r3
                              else if Ascii.eqb e "}"%char then
                                Some (VObj (obj_set k v acc), r3)
                              else None
                          | EmptyString => None
                          end
                      | None => None
                      end
                    else None
                | EmptyString => None
                end
            | None => None
            end
          else None
      | EmptyString => None
      end
  end.

(** [JSON.parse(s)]: one value, then nothing but white space. *)
Definition JSON_parse (s : string) : option value :=
  match parse_value (String.length s) s with
  | Some (v, r) =>
      match skip_ws r with
      | EmptyString => Some v
      | String _ _ => None
      end
  | None => None
  end.

(** How [JSON.stringify] writes an array element and an object field. *)
Definition ser_item (x : value) : string :=
  match stringify x with
  | Some t => t
  | None => "null"
  end.

Definition ser_member (kx : string * value) : option string :=
  match stringify (snd kx) with
  | Some t => Some (quote (fst kx) +:+ ":" +:+ t)
  | None => None
  end.

(** The values of the JSON data model: no [undefined] anywhere, numbers
    that are safe integers, and objects whose keys are distinct. *)
Fixpoint json_data (v : value) : bool :=
  match v with
  | VUndefined => false
  | VNull | VBool _ | VStr _ => true
  | VNum n => safe_integer n
  | VArr items => forallb json_data items
  | VObj fields =>
      forallb (fun kx => json_data (snd kx)) fields &&
      bool_decide (NoDup (map fst fields))
  end.

(** *** Reading back what [JSON.stringify] writes *)

(** What can follow a value inside a text: nothing, or a separator. *)
Definition closes (rest : string) : bool :=
  match rest with
  | EmptyString => true
  | String c _ =>
      Ascii.eqb c ","%char || Ascii.eqb c "]"%char || Ascii.eqb c "}"%char
  end.

(** A character a value can start with. *)
Definition starts_value (c : ascii) : bool :=
  negb (is_ws c) && negb (Ascii.eqb c "]"%char) && negb (Ascii.eqb c "}"%char).

(** The text of [v] followed by a separator is read back as [v]. *)
Definition roundtrips (v : value) : Prop :=
  forall fuel rest, (String.length (ser_item v) <= fuel)%nat ->
    closes rest = true ->
    parse_value fuel (ser_item v +:+ rest) = Some (v, rest).

(** An [Error] instance: the fields [onerror] reads. *)
Record Error : Type := mkError {
  err_name : string;
  err_message : string;
  err_stack : option string;
  err_status : value;
  err_expose : value
}.

(** Anything that can be thrown or passed to an error handler:
    [ThrownError e] is an [instanceof Error], [ThrownValue v] is not. *)
Inductive thrown : Type :=
| ThrownValue (v : value)
| ThrownError (e : Error).

(** How a pipeline run can fail: the composition-protocol error raised
    by [dispatch i], or a failure raised by a middleware. *)
Inductive failure : Type :=
| MultipleCalls (i : Z)
| Raised (t : thrown).

(** How a promise settles. *)
Inductive result : Type :=
| Resolved
| Rejected (f : failure).

(** ** Middleware composer *)

Section Compose.
(** The context shared by the middleware of one run. *)
Context {St : Type}.

(** The body of a middleware [(ctx, next) => ...], as the sequence of
    its effects: code acting on the context, code branching on it,
    calls of the continuation (whose outcome the middleware may
    propagate, ignore or intercept), and its own completion. *)
Inductive middleware : Type :=
| Return
| Throw (f : failure)
| Act (f : St -> St) (k : middleware)
| Read (k : St -> middleware)
| Next (k : result -> middleware).

(** The state of one run of a composed handler: the last dispatched
    index, the context, and two ghost logs: every call of [dispatch]
    with its argument, and the positions whose function was invoked. *)
Record run : Type := mkRun {
  index : Z;
  ctx : St;
  attempts : list Z;
  invoked : list Z
}.

Definition M : Type := run -> result * run.

Definition set_index (i : Z) (r : run) : run :=
  mkRun i (ctx r) (attempts r) (invoked r).
Definition set_ctx (c : St) (r : run) : run :=
  mkRun (index r) c (attempts r) (invoked r).
Definition log_attempt (i : Z) (r : run) : run :=
  mkRun (index r) (ctx r) (attempts r ++ [i]) (invoked r).
Definition log_invoked (i : Z) (r : run) : run :=
  mkRun (index r) (ctx r) (attempts r) (invoked r ++ [i]).

(** Running the body of a middleware with continuation [next]. *)
Fixpoint exec (m : middleware) (next : M) (r : run) : result * run :=
  match m with
  | Return => (Resolved, r)
  | Throw f => (Rejected f, r)
  | Act f k => exec k next (set_ctx (f (ctx r)) r)
  | Read k => exec (k (ctx r)) next r
  | Next k => let '(o, r') := next r in exec (k o) next r'
  end.

(** Modelled from the spec: the composer (package [koa-compose]) is
    required by [application.js] but is not under [src/]; this follows
    section 4.1.  [dispatch_past i] is [dispatch i] for an [i] beyond
    the sequence length: neither a middleware nor the fallback exists
    there, so it is the trivial completion. *)
Definition dispatch_past (i : Z) (r : run) : result * run :=
  let r := log_attempt i r in
  if i <=? index r then (Rejected (MultipleCalls i), r)
  else (Resolved, set_index i r).

(** Modelled from the spec: [dispatch rest fallback i] is [dispatch(i)]
    of section 4.1, where [rest] holds the middleware from position
    [i] on.  It fails if [i] is less than or equal to the last
    dispatched index; otherwise it records [i], picks the middleware
    at position [i] (or the fallback when [i] is the sequence length,
    or the trivial completion), and invokes it with the continuation
    [dispatch(i+1)]; a failure of the function is the result. *)
Fixpoint dispatch (rest : list middleware) (fallback : option middleware)
    (i : Z) (r : run) : result * run :=
  let r := log_attempt i r in
  if i <=? index r then (Rejected (MultipleCalls i), r)
  else
    let r := set_index i r in
    match rest with
    | fn :: rest' =>
        exec fn (dispatch rest' fallback (i + 1)) (log_invoked i r)
    | [] =>
        match fallback with
        | Some fn => exec fn (dispatch_past (i + 1)) (log_invoked i r)
        | None => (Resolved, r)
        end
    end.

(** Modelled from the spec: the composed handler [H(context, fallback?)].
    Each invocation starts a run of its own with the dispatch index at
    [-1] and dispatches position [0]. *)
Definition compose (mws : list middleware) (c : St)
    (fallback : option middleware) : result * run :=
  dispatch mws fallback 0 (mkRun (-1) c [] []).

(** A middleware that never swallows a failure of its continuation:
    wherever it calls [next], a rejection is re-raised as it is. *)
Inductive propagates : middleware -> Prop :=
| propagates_Return : propagates Return
| propagates_Throw f : propagates (Throw f)
| propagates_Act f k : propagates k -> propagates (Act f k)
| propagates_Read k : (forall s, propagates (k s)) -> propagates (Read k)
| propagates_Next k :
    (forall f, k (Rejected f) = Throw f) ->
    propagates (k Resolved) ->
    propagates (Next k).
End Compose.

Arguments middleware : clear implicits.
Arguments run : clear implicits.
Arguments M : clear implicits.

(** The middleware of the ordering property: it appends its index to the
    shared log, awaits its continuation, and appends its index again:
    [async (log, next) => { log.push(i); await next(); log.push(i) }]. *)
Definition logger (i : nat) : middleware (list nat) :=
  Act (fun log => log ++ [i])
    (Next (fun o =>
       match o with
       | Resolved => Act (fun log => log ++ [i]) Return
       | Rejected f => Throw f
       end)).

Definition loggers (n : nat) : list (middleware (list nat)) :=
  map logger (seq 0 n).

(** A middleware that calls its continuation twice and lets the second
    outcome pass: [(ctx, next) => { next(); next() }], or the same with
    the second call awaited inside [try { } catch { }]. *)
Definition calls_twice {St} : middleware St :=
  Next (fun _ => Next (fun _ => Return)).

(** A middleware that awaits its continuation twice without intercepting:
    [async (ctx, next) => { await next(); await next() }]. *)
Definition awaits_twice {St} : middleware St :=
  Next (fun o =>
    match o with
    | Resolved =>
        Next (fun o' => match o' with Resolved => Return | Rejected f => Throw f end)
    | Rejected f => Throw f
    end).

(** *** Invariants of a run *)

Section RunInvariants.
Context {St : Type}.
Implicit Types (r : run St) (c : M St).

(** The positions invoked so far are distinct and none is above the
    last dispatched index. *)
Definition once_inv r : Prop :=
  NoDup (invoked r) /\ Forall (fun j => j <= index r) (invoked r).

(** A computation that keeps [once_inv] and never lowers the index. *)
Definition keeps_once c : Prop :=
  forall r o r', c r = (o, r') ->
    once_inv r -> once_inv r' /\ index r <= index r'.

(** [i] was dispatched at least twice. *)
Definition called_twice (i : Z) (l : list Z) : Prop :=
  (2 <= count_occ Z.eq_dec l i)%nat.

(** No dispatched index is above the last dispatched index. *)
Definition attempts_inv r : Prop :=
  Forall (fun a => a <= index r) (attempts r).

(** After a computation either no index was dispatched twice, or the
    last dispatch was the only repeated one and its refusal is the
    outcome. *)
Definition first_refusal (o : result) r' : Prop :=
  NoDup (attempts r') \/
  exists i l, o = Rejected (MultipleCalls i) /\
              attempts r' = l ++ [i] /\ NoDup l /\ i ∈ l.

Definition faithful c : Prop :=
  forall r o r', c r = (o, r') -> attempts_inv r ->
    attempts_inv r' /\ index r <= index r' /\
    (NoDup (attempts r) -> first_refusal o r').

(** [dispatch i] logs [i] first; every later dispatch is one of a
    higher index, made through the continuation of an invoked
    middleware (the one just below that index). *)
Definition traced (i : Z) c : Prop :=
  forall r o r', c r = (o, r') ->
    exists new inv',
      attempts r' = attempts r ++ i :: new /\
      invoked r' = invoked r ++ inv' /\
      Forall (fun a => i < a /\ a - 1 ∈ invoked r') new.

End RunInvariants.

(** ** Objects, prototypes and the context factory *)

(** Objects live in a heap and are handled by reference: the address of
    an object is its position in the heap, and a new object is added at
    the end. *)
Abbreviation loc := nat.

(** What a property of an object can hold. *)
Inductive oval : Type :=
| OUndefined
| ONull
| OBool (b : bool)
| ONum (n : Z)
| OStr (s : string)
| ORef (l : loc).

(** An object: its prototype ([None] for [null]) and its own data
    properties. *)
Record object : Type := mkObject {
  proto : option loc;
  props : gmap string oval
}.

Abbreviation heap := (list object).

(** [o[k]]: the own property if there is one, else the prototype chain.
    In a heap built by [Object.create] and object literals a prototype
    is older than the object, so the chain from any object is shorter
    than the heap. *)
Fixpoint get_from (fuel : nat) (h : heap) (l : loc) (k : string) : oval :=
  match fuel with
  | O => OUndefined
  | S fuel =>
      match h !! l with
      | None => OUndefined
      | Some o =>
          match props o !! k with
          | Some v => v
          | None =>
              match proto o with
              | Some p => get_from fuel h p k
              | None => OUndefined
              end
          end
      end
  end.

Definition get (h : heap) (l : loc) (k : string) : oval :=
  get_from (length h) h l k.

(** [o[k] = v] on a data property: written on the object itself. *)
Definition set_own (k : string) (v : oval) (o : object) : object :=
  mkObject (proto o) (<[k := v]> (props o)).

Definition set (h : heap) (l : loc) (k : string) (v : oval) : heap :=
  alter (set_own k v) l h.

(** Heap computations that can throw ([None]). *)
Definition heapM (A : Type) : Type := heap -> option (A * heap).

Definition hret {A} (a : A) : heapM A := fun h => Some (a, h).

Definition hbind {A B} (c : heapM A) (k : A -> heapM B) : heapM B :=
  fun h => match c h with
           | Some (a, h') => k a h'
           | None => None
           end.

Notation "'let*' x ':=' c 'in' k" := (hbind c (fun x => k))
  (at level 10, x name, c at level 100, k at level 200).
Notation "c ';;' k" := (hbind c (fun _ => k))
  (at level 100, k at level 200, right associativity).

Definition alloc (o : object) : heapM loc :=
  fun h => Some (length h, h ++ [o]).

(** [Object.create(p)]: a new empty object with prototype [p]; a
    [TypeError] unless [p] is an object or [null]. *)
Definition Object_create (p : oval) : heapM loc :=
  match p with
  | ORef l => alloc (mkObject (Some l) ∅)
  | ONull => alloc (mkObject None ∅)
  | _ => fun _ => None
  end.

(** The literal [{}]: a new empty object with prototype
    [Object.prototype]. *)
Definition new_object (object_prototype : loc) : heapM loc :=
  alloc (mkObject (Some object_prototype) ∅).

(** [this[k]] on an object. *)
Definition get_prop (l : loc) (k : string) : heapM oval :=
  fun h => Some (get h l k, h).

(** [v[k]] on any value: a [TypeError] on [undefined] and [null]; the
    primitives have no such property. *)
Definition member (v : oval) (k : string) : heapM oval :=
  match v with
  | ORef l => get_prop l k
  | OUndefined | ONull => fun _ => None
  | _ => hret OUndefined
  end.

Definition set_prop (l : loc) (k : string) (v : oval) : heapM unit :=
  fun h => Some (tt, set h l k v).

(** [createContext(req, res)] of the application [this]. *)
Definition createContext (object_prototype : loc) (this : loc)
    (req res : oval) : heapM loc :=
  let* this_context := get_prop this "context" in
  let* context := Object_create this_context in
  let* this_request := get_prop this "request" in
  let* request := Object_create this_request in
  set_prop context "request" (ORef request);;
  let* this_response := get_prop this "response" in
  let* response := Object_create this_response in
  set_prop context "response" (ORef response);;
  set_prop response "app" (ORef this);;
  set_prop request "app" (ORef this);;
  set_prop context "app" (ORef this);;
  set_prop response "req" req;;
  set_prop request "req" req;;
  set_prop context "req" req;;
  set_prop response "res" res;;
  set_prop request "res" res;;
  set_prop context "res" res;;
  set_prop response "ctx" (ORef context);;
  set_prop request "ctx" (ORef context);;
  set_prop request "response" (ORef response);;
  set_prop response "request" (ORef request);;
  let* url := member req "url" in
  set_prop request "originalUrl" url;;
  set_prop context "originalUrl" url;;
  let* state := new_object object_prototype in
  set_prop context "state" (ORef state);;
  hret context.

(** A heap as [Object.create] and object literals build it: every
    prototype is an older object. *)
Definition heap_wf (h : heap) : Prop :=
  forall l o p, h !! l = Some o -> proto o = Some p -> (p < l)%nat.

(** The four objects one call of [createContext] adds to the heap, given
    the prototypes of the three templates and the request path. *)
Definition context_objects (object_prototype : loc)
    (pc pr ps : option loc) (c this : loc) (req res url : oval) : list object :=
  [ mkObject pc
      (<["state" := ORef (c + 3)%nat]> (<["originalUrl" := url]>
       (<["res" := res]> (<["req" := req]> (<["app" := ORef this]>
       (<["response" := ORef (c + 2)%nat]> (<["request" := ORef (c + 1)%nat]> ∅)))))));
    mkObject pr
      (<["originalUrl" := url]> (<["response" := ORef (c + 2)%nat]>
       (<["ctx" := ORef c]> (<["res" := res]> (<["req" := req]>
       (<["app" := ORef this]> ∅))))));
    mkObject ps
      (<["request" := ORef (c + 1)%nat]> (<["ctx" := ORef c]>
       (<["res" := res]> (<["req" := req]> (<["app" := ORef this]> ∅)))));
    mkObject (Some object_prototype) ∅ ].

(** The prototype [Object.create] gives for a template value. *)
Definition template_proto (v : oval) : option (option loc) :=
  match v with
  | ORef l => Some (Some l)
  | ONull => Some None
  | _ => None
  end.

(** Every reference stored in a property is to an object of the heap. *)
Definition heap_closed (h : heap) : Prop :=
  forall l o k p, h !! l = Some o -> props o !! k = Some (ORef p) ->
    (p < length h)%nat.

(** The own properties and the prototype of the object at an address. *)
Definition own_props (h : heap) (l : loc) : option (gmap string oval) :=
  props <$> h !! l.

Definition proto_of (h : heap) (l : loc) : option (option loc) :=
  proto <$> h !! l.

(** Objects whose prototypes are all older than the address [n]. *)
Definition protos_below (n : nat) (ext : list object) : Prop :=
  Forall (fun o => forall p, proto o = Some p -> (p < n)%nat) ext.

(** *** A sample heap *)

(** A heap with [Object.prototype] (0), the three templates (1-3), an
    application (4) and the raw request and response of two requests
    (5-8). *)
Definition sample_heap : heap :=
  [ mkObject None ∅;
    mkObject (Some 0%nat) ∅;
    mkObject (Some 0%nat) ∅;
    mkObject (Some 0%nat) ∅;
    mkObject (Some 0%nat)
      (<["response" := ORef 3]> (<["request" := ORef 2]> (<["context" := ORef 1]> ∅)));
    mkObject (Some 0%nat) (<["url" := OStr "/a"]> ∅);
    mkObject (Some 0%nat) ∅;
    mkObject (Some 0%nat) (<["url" := OStr "/b"]> ∅);
    mkObject (Some 0%nat) ∅ ].

(** The heap after the context of the first request was made, and
    after the one of the second. *)
Definition sample_heap1 : heap :=
  sample_heap ++
  context_objects 0%nat (Some 1%nat) (Some 2%nat) (Some 3%nat) 9%nat 4%nat
    (ORef 5) (ORef 6) (OStr "/a").

Definition sample_heap2 : heap :=
  sample_heap1 ++
  context_objects 0%nat (Some 1%nat) (Some 2%nat) (Some 3%nat) 13%nat 4%nat
    (ORef 7) (ORef 8) (OStr "/b").

(** ** The transport response and the request context *)

Inductive header_value : Type :=
| HNum (n : Z)
| HStr (s : string).

(** A readable stream, known by its identity. *)
Inductive stream : Type :=
| Stream (id : nat).

(** What [res.end] is given: text or raw bytes. *)
Inductive chunk : Type :=
| ChunkString (s : string)
| ChunkBuffer (b : list Byte.byte).

Definition chunk_bytes (c : chunk) : list Byte.byte :=
  match c with
  | ChunkString s => list_byte_of_string s
  | ChunkBuffer b => b
  end.

(** The calls made on the transport response, in order: [res.end(...)],
    [body.pipe(res)], and the listener [onFinished(res, ...)] attaches. *)
Inductive res_call : Type :=
| End (payload : option chunk)
| Piped (src : stream)
| OnFinished.

(** The transport response [ctx.res]. *)
Record Res : Type := mkRes {
  headersSent : bool;
  statusCode : Z;
  statusMessage : string;
  headers : gmap string header_value;
  calls : list res_call
}.

(** What [ctx.body] can hold. *)
Inductive body_value : Type :=
| BVal (v : value)
| BBuffer (b : list Byte.byte)
| BStream (s : stream).

(** The request context, as [respond] and [handleRequest] read it:
    [ctx.respond], [ctx.writable], [ctx.res], [ctx.body], [ctx.method],
    [ctx.response._explicitNullBody] and [ctx.req.httpVersionMajor]. *)
Record Context : Type := mkContext {
  ctx_respond : value;
  writable : bool;
  res : Res;
  body : body_value;
  method : string;
  explicitNullBody : bool;
  httpVersionMajor : Z
}.

(** The tables of the [statuses] package: [statuses.empty[code]] and
    the message of a code. *)
Record Statuses : Type := mkStatuses {
  statuses_empty : Z -> bool;
  statuses_message : Z -> option string
}.

Definition with_res (f : Res -> Res) (c : Context) : Context :=
  mkContext (ctx_respond c) (writable c) (f (res c)) (body c) (method c)
            (explicitNullBody c) (httpVersionMajor c).

Definition with_headers (f : gmap string header_value -> gmap string header_value)
    (c : Context) : Context :=
  with_res (fun r => mkRes (headersSent r) (statusCode r) (statusMessage r)
                           (f (headers r)) (calls r)) c.

Definition with_call (x : res_call) (c : Context) : Context :=
  with_res (fun r => mkRes (headersSent r) (statusCode r) (statusMessage r)
                           (headers r) (calls r ++ [x])) c.

(** [res.statusCode = code]. *)
Definition set_statusCode (code : Z) (c : Context) : Context :=
  with_res (fun r => mkRes (headersSent r) code (statusMessage r)
                           (headers r) (calls r)) c.

(** [res.end(payload)] and [body.pipe(res)]. *)
Definition res_end (payload : option chunk) (c : Context) : Context :=
  with_call (End payload) c.

Definition stream_pipe (src : stream) (c : Context) : Context :=
  with_call (Piped src) c.

(** [onFinished(res, listener)]. *)
Definition on_finished (c : Context) : Context := with_call OnFinished c.

(** Modelled from the spec: the accessors of [context.js] and
    [response.js], which are not under [src/].  [ctx.status] is the
    status code of the transport response. *)
Definition ctx_status (c : Context) : Z := statusCode (res c).

(** Modelled from the spec: [ctx.message], the human-readable message of
    the status (the one set on the transport response, else the one of
    the [statuses] table); the empty text when there is none. *)
Definition ctx_message (st : Statuses) (c : Context) : string :=
  if String.eqb (statusMessage (res c)) "" then
    match statuses_message st (ctx_status c) with
    | Some m => m
    | None => ""
    end
  else statusMessage (res c).

(** Modelled from the spec: [ctx.response.has(field)]. *)
Definition response_has (field : string) (c : Context) : bool :=
  bool_decide (is_Some (headers (res c) !! field)).

(** Modelled from the spec: [ctx.response.remove(field)]. *)
Definition response_remove (field : string) (c : Context) : Context :=
  with_headers (delete field) c.

(** Modelled from the spec: [ctx.body = null] discards the body together
    with the body-related headers. *)
Definition set_body_null (c : Context) : Context :=
  let c := mkContext (ctx_respond c) (writable c) (res c) (BVal VNull)
                     (method c) (explicitNullBody c) (httpVersionMajor c) in
  response_remove "Transfer-Encoding"
    (response_remove "Content-Length" (response_remove "Content-Type" c)).

Definition text_plain : header_value := HStr "text/plain; charset=utf-8".

(** Modelled from the spec: [ctx.type = 'text'] sets the content type
    to plain text. *)
Definition set_type_text (c : Context) : Context :=
  with_headers (insert "Content-Type" text_plain) c.

(** Modelled from the spec: [ctx.length = n] sets the length header. *)
Definition set_length (n : Z) (c : Context) : Context :=
  with_headers (insert "Content-Length" (HNum n)) c.

(** Modelled from the spec: [ctx.response.length], the length header if
    it holds a number, else the length the body would have on the wire;
    [None] stands for [undefined]. *)
Definition response_length (c : Context) : option Z :=
  match headers (res c) !! "Content-Length" with
  | Some (HNum n) => Some n
  | Some (HStr _) => None
  | None =>
      match body c with
      | BVal VNull | BVal VUndefined => None
      | BStream _ => None
      | BVal (VStr s) => Some (byteLength s)
      | BBuffer b => Some (Z.of_nat (length b))
      | BVal v => option_map byteLength (JSON_stringify v)
      end
  end.

(** How a call completes: normally, or by throwing. *)
Inductive completion : Type :=
| Normal
| Abrupt (t : thrown).

Definition TypeError (msg : string) : thrown :=
  ThrownError (mkError "TypeError" msg None VUndefined VUndefined).

(** ** [respond] *)

(** The fallback text of a response without body. *)
Definition fallback_body (st : Statuses) (c : Context) : string :=
  if 2 <=? httpVersionMajor c then string_of_Z (ctx_status c)
  else if String.eqb (ctx_message st c) "" then string_of_Z (ctx_status c)
  else ctx_message st c.

Definition respond (st : Statuses) (c : Context) : completion * Context :=
  match ctx_respond c with
  | VBool false => (Normal, c)
  | _ =>
  if negb (writable c) then (Normal, c)
  else
    let code := ctx_status c in
    if statuses_empty st code then
      (Normal, res_end None (set_body_null c))
    else if String.eqb "HEAD" (method c) then
      let c1 :=
        if negb (headersSent (res c)) && negb (response_has "Content-Length" c)
        then match response_length c with
             | Some n => set_length n c
             | None => c
             end
        else c in
      (Normal, res_end None c1)
    else
      match body c with
      | BVal VNull | BVal VUndefined =>
          if explicitNullBody c then
            (Normal,
             res_end None
               (response_remove "Transfer-Encoding"
                  (response_remove "Content-Type" c)))
          else
            let b := fallback_body st c in
            let c1 :=
              if negb (headersSent (res c))
              then set_length (byteLength b) (set_type_text c)
              else c in
            (Normal, res_end (Some (ChunkString b)) c1)
      | BBuffer b => (Normal, res_end (Some (ChunkBuffer b)) c)
      | BVal (VStr s) => (Normal, res_end (Some (ChunkString s)) c)
      | BStream src => (Normal, stream_pipe src c)
      | BVal v =>
          match JSON_stringify v with
          | Some t =>
              let c1 :=
                if negb (headersSent (res c))
                then set_length (byteLength t) c
                else c in
              (Normal, res_end (Some (ChunkString t)) c1)
          | None =>
              (Abrupt (TypeError "The string argument must be of type string"), c)
          end
      end
  end.

(** ** [handleRequest] *)

(** What the error handler of the context is given for a failure of the
    pipeline. *)
Definition failure_thrown (f : failure) : thrown :=
  match f with
  | MultipleCalls _ =>
      ThrownError (mkError "Error" "next() called multiple times" None
                           VUndefined VUndefined)
  | Raised t => t
  end.

(** [handleRequest(ctx, fnMiddleware)]; [ctx_onerror] is the method
    [ctx.onerror] of [context.js], which is not under [src/]. *)
Definition handleRequest (st : Statuses)
    (ctx_onerror : thrown -> Context -> Context)
    (c : Context) (fnMiddleware : Context -> result * Context) : Context :=
  let c := set_statusCode 404 c in
  let c := on_finished c in
  match fnMiddleware c with
  | (Resolved, c') =>
      match respond st c' with
      | (Normal, c'') => c''
      | (Abrupt t, c'') => ctx_onerror t c''
      end
  | (Rejected f, c') => ctx_onerror (failure_thrown f) c'
  end.

(** The composed handler [compose(this.middleware)] as [callback] hands
    it to [handleRequest]: called with the context and no fallback. *)
Definition fnMiddleware_of (mws : list (middleware Context))
    (c : Context) : result * Context :=
  let '(o, r) := compose mws c None in (o, ctx r).

(** A function that never assigns the status or the body. *)
Definition keeps_status_body (f : Context -> Context) : Prop :=
  forall c, statusCode (res (f c)) = statusCode (res c) /\ body (f c) = body c.

(** A middleware none of whose steps assigns the status or the body. *)
Inductive assigns_nothing : middleware Context -> Prop :=
| assigns_nothing_Return : assigns_nothing Return
| assigns_nothing_Throw f : assigns_nothing (Throw f)
| assigns_nothing_Act f k :
    keeps_status_body f -> assigns_nothing k -> assigns_nothing (Act f k)
| assigns_nothing_Read k :
    (forall c, assigns_nothing (k c)) -> assigns_nothing (Read k)
| assigns_nothing_Next k :
    (forall o, assigns_nothing (k o)) -> assigns_nothing (Next k).

(** A context the finalizer may write for: not flagged to bypass
    ([ctx.respond] is not [false]) and still writable. *)
Definition may_write (c : Context) : Prop :=
  ctx_respond c <> VBool false /\ writable c = true.

(** The bytes of a body that is a Buffer or a string. *)
Definition body_bytes (b : body_value) : option (list Byte.byte) :=
  match b with
  | BBuffer bs => Some bs
  | BVal (VStr s) => Some (list_byte_of_string s)
  | _ => None
  end.

(** A body that reaches the last branch of [respond]: a value that is
    neither [null] nor [undefined] nor a string. *)
Definition structured (v : value) : bool :=
  match v with
  | VUndefined | VNull | VStr _ => false
  | _ => true
  end.

(** *** The decision table of the finalizer, from the specification *)

Inductive branch : Type :=
| NoBodyStatus
| HeadOnly
| ExplicitNull
| Fallback
| RawBytes (b : list Byte.byte)
| Text (s : string)
| StreamBody (src : stream)
| Structured (v : value).

Definition body_absent (b : body_value) : bool :=
  match b with
  | BVal VNull | BVal VUndefined => true
  | _ => false
  end.

(** The branch the table selects: the first whose condition holds. *)
Inductive selects (st : Statuses) (c : Context) : branch -> Prop :=
| selects_NoBodyStatus :
    statuses_empty st (ctx_status c) = true ->
    selects st c NoBodyStatus
| selects_HeadOnly :
    statuses_empty st (ctx_status c) = false ->
    method c = "HEAD" ->
    selects st c HeadOnly
| selects_ExplicitNull :
    statuses_empty st (ctx_status c) = false -> method c <> "HEAD" ->
    body_absent (body c) = true -> explicitNullBody c = true ->
    selects st c ExplicitNull
| selects_Fallback :
    statuses_empty st (ctx_status c) = false -> method c <> "HEAD" ->
    body_absent (body c) = true -> explicitNullBody c = false ->
    selects st c Fallback
| selects_RawBytes b :
    statuses_empty st (ctx_status c) = false -> method c <> "HEAD" ->
    body c = BBuffer b ->
    selects st c (RawBytes b)
| selects_Text s :
    statuses_empty st (ctx_status c) = false -> method c <> "HEAD" ->
    body c = BVal (VStr s) ->
    selects st c (Text s)
| selects_StreamBody src :
    statuses_empty st (ctx_status c) = false -> method c <> "HEAD" ->
    body c = BStream src ->
    selects st c (StreamBody src)
| selects_Structured v :
    statuses_empty st (ctx_status c) = false -> method c <> "HEAD" ->
    body c = BVal v -> body_absent (BVal v) = false ->
    (forall s, v <> VStr s) ->
    selects st c (Structured v).

(** What each branch of the table does to the context. *)
Definition perform (st : Statuses) (c : Context) (b : branch) : Context :=
  match b with
  | NoBodyStatus => res_end None (set_body_null c)
  | HeadOnly =>
      res_end None
        (if negb (headersSent (res c)) && negb (response_has "Content-Length" c)
         then match response_length c with
              | Some n => set_length n c
              | None => c
              end
         else c)
  | ExplicitNull =>
      res_end None
        (response_remove "Transfer-Encoding" (response_remove "Content-Type" c))
  | Fallback =>
      res_end (Some (ChunkString (fallback_body st c)))
        (if headersSent (res c) then c
         else set_length (byteLength (fallback_body st c)) (set_type_text c))
  | RawBytes b => res_end (Some (ChunkBuffer b)) c
  | Text s => res_end (Some (ChunkString s)) c
  | StreamBody src => stream_pipe src c
  | Structured v =>
      match JSON_stringify v with
      | Some t =>
          res_end (Some (ChunkString t))
            (if headersSent (res c) then c else set_length (byteLength t) c)
      | None => c
      end
  end.

(** ** [onerror] *)

(** [Error.prototype.toString]. *)
Definition Error_toString (e : Error) : string :=
  if String.eqb (err_name e) "" then err_message e
  else if String.eqb (err_message e) "" then err_name e
  else err_name e +:+ ": " +:+ err_message e.

(** [err.stack || err.toString()]. *)
Definition diagnostic (e : Error) : string :=
  match err_stack e with
  | Some s => if String.eqb s "" then Error_toString e else s
  | None => Error_toString e
  end.

(** [msg.replace(/^/gm, '  ')]: two spaces at the start of the text and
    after every line terminator (LF, CR, and the UTF-8 bytes of U+2028
    and U+2029). *)
Fixpoint indent_lines (s : string) : string :=
  match s with
  | EmptyString => EmptyString
  | String c s1 =>
      if Ascii.eqb c "010"%char || Ascii.eqb c "013"%char then
        String c ("  " +:+ indent_lines s1)
      else
        match s1 with
        | String c2 (String c3 s3) =>
            if Ascii.eqb c "226"%char && Ascii.eqb c2 "128"%char &&
               (Ascii.eqb c3 "168"%char || Ascii.eqb c3 "169"%char)
            then String c (String c2 (String c3 ("  " +:+ indent_lines s3)))
            else String c (indent_lines s1)
        | _ => String c (indent_lines s1)
        end
  end.

Definition indent (msg : string) : string := "  " +:+ indent_lines msg.

(** [util.format('%j', v)]. *)
Definition format_j (v : value) : string :=
  match JSON_stringify v with
  | Some t => t
  | None => "undefined"
  end.

(** [404 === v]. *)
Definition is_404 (v : value) : bool :=
  match v with
  | VNum n => n =? 404
  | _ => false
  end.

(** [onerror(err)] of the application; [silent] is [this.silent] and the
    list holds the lines written with [console.error]. *)
Definition onerror (silent : value) (err : thrown) (console : list string)
    : completion * list string :=
  match err with
  | ThrownValue v =>
      (Abrupt (TypeError ("non-error thrown: " +:+ format_j v)), console)
  | ThrownError e =>
      if is_404 (err_status e) || truthy (err_expose e) then (Normal, console)
      else if truthy silent then (Normal, console)
      else (Normal, console ++ [""; indent (diagnostic e); ""])
  end.

(** Entries of the [statuses] tables for the examples. *)
Definition sample_statuses : Statuses :=
  mkStatuses
    (fun code => (code =? 204) || (code =? 205) || (code =? 304))
    (fun code =>
       if code =? 200 then Some "OK"
       else if code =? 204 then Some "No Content"
       else if code =? 404 then Some "Not Found"
       else None).

(** A context as a new request has it: status 200 on the transport,
    nothing sent, no body. *)
Definition sample_context : Context :=
  mkContext VUndefined true (mkRes false 200 "" ∅ []) (BVal VUndefined)
            "GET" false 1.

(** The sample context with another body or method. *)
Definition with_body (b : body_value) (c : Context) : Context :=
  mkContext (ctx_respond c) (writable c) (res c) b (method c)
            (explicitNullBody c) (httpVersionMajor c).

Definition with_method (m : string) (c : Context) : Context :=
  mkContext (ctx_respond c) (writable c) (res c) (body c) m
            (explicitNullBody c) (httpVersionMajor c).

(** A composed handler that never assigns the status or the body,
    however it settles. *)
Definition assigns_no_status_body (fn : Context -> result * Context) : Prop :=
  forall c o c', fn c = (o, c') ->
    statusCode (res c') = statusCode (res c) /\ body c' = body c.

(* ===================================================================== *)
(** * Part I, continued: the rest of [application.js] *)
(* ===================================================================== *)

(** ** The context factory in closed form *)

(** A value that refers to nothing outside the heap. *)
Definition oval_closed (h : heap) (v : oval) : Prop :=
  match v with
  | ORef l => (l < length h)%nat
  | _ => True
  end.

(** [req.url] as [createContext] reads it; [None] when the read throws
    (on [undefined] and [null]). *)
Definition req_url (h : heap) (req : oval) : option oval :=
  match req with
  | ORef l => Some (get h l "url")
  | OUndefined | ONull => None
  | _ => Some OUndefined
  end.

(** The own keys [createContext] writes on the context. *)
Definition context_keys : list string :=
  ["request"; "response"; "app"; "req"; "res"; "originalUrl"; "state"].

(** ** The application object: [constructor] *)

(** [ToBoolean] on property values, [a || b], and [null == v]. *)
Definition truthy_o (v : oval) : bool :=
  match v with
  | OUndefined | ONull => false
  | OBool b => b
  | ONum n => negb (n =? 0)
  | OStr s => negb (String.eqb s "")
  | ORef _ => true
  end.

Definition or_else (a b : oval) : oval := if truthy_o a then a else b.

Definition nullish (v : oval) : bool :=
  match v with
  | OUndefined | ONull => true
  | _ => false
  end.

(** What the module finds around it: the prototypes of the built-ins,
    the prototype of the class, the objects of [./context], [./request]
    and [./response], and [process.env.NODE_ENV]. *)
Record Realm : Type := mkRealm {
  Object_prototype : loc;
  Array_prototype : loc;
  Application_prototype : loc;
  module_context : loc;
  module_request : loc;
  module_response : loc;
  NODE_ENV : oval
}.

(** [new Application(options)].  The new object has the prototype of
    the class.  Two things the constructor also puts on it are left
    out: what the event emitter keeps there for its listeners
    ([super()]), and the property under the symbol
    [util.inspect.custom]; none of the keys below is among them. *)
Definition constructor (g : Realm) (options : oval) : heapM loc :=
  let* this := alloc (mkObject (Some (Application_prototype g)) ∅) in
  let* options :=
    (if truthy_o options then hret options
     else let* o := new_object (Object_prototype g) in hret (ORef o)) in
  let* proxy := member options "proxy" in
  set_prop this "proxy" (or_else proxy (OBool false));;
  let* subdomainOffset := member options "subdomainOffset" in
  set_prop this "subdomainOffset" (or_else subdomainOffset (ONum 2));;
  let* proxyIpHeader := member options "proxyIpHeader" in
  set_prop this "proxyIpHeader" (or_else proxyIpHeader (OStr "X-Forwarded-For"));;
  let* maxIpsCount := member options "maxIpsCount" in
  set_prop this "maxIpsCount" (or_else maxIpsCount (ONum 0));;
  let* env := member options "env" in
  set_prop this "env" (or_else (or_else env (NODE_ENV g)) (OStr "development"));;
  let* keys := member options "keys" in
  (if truthy_o keys then set_prop this "keys" keys else hret tt);;
  let* middleware :=
    alloc (mkObject (Some (Array_prototype g)) (<["length" := ONum 0]> ∅)) in
  set_prop this "middleware" (ORef middleware);;
  let* context := Object_create (ORef (module_context g)) in
  set_prop this "context" (ORef context);;
  let* request := Object_create (ORef (module_request g)) in
  set_prop this "request" (ORef request);;
  let* response := Object_create (ORef (module_response g)) in
  set_prop this "response" (ORef response);;
  hret this.

(** The realm lies in the heap. *)
Definition realm_in (g : Realm) (h : heap) : Prop :=
  (Object_prototype g < length h)%nat /\
  (Array_prototype g < length h)%nat /\
  (Application_prototype g < length h)%nat /\
  (module_context g < length h)%nat /\
  (module_request g < length h)%nat /\
  (module_response g < length h)%nat /\
  oval_closed h (NODE_ENV g).

(** [options.k] as the constructor reads it: on the given options when
    they are truthy, else on the empty object that replaces them. *)
Definition option_value (g : Realm) (h : heap) (options : oval) (k : string)
    : oval :=
  if truthy_o options then
    match options with
    | ORef l => get h l k
    | _ => OUndefined
    end
  else get h (Object_prototype g) k.

(** The settings the constructor writes on the application. *)
Definition application_settings (g : Realm) (h : heap) (options : oval)
    : gmap string oval :=
  let opt := option_value g h options in
  let m :=
    <["env" := or_else (or_else (opt "env") (NODE_ENV g)) (OStr "development")]>
    (<["maxIpsCount" := or_else (opt "maxIpsCount") (ONum 0)]>
    (<["proxyIpHeader" := or_else (opt "proxyIpHeader") (OStr "X-Forwarded-For")]>
    (<["subdomainOffset" := or_else (opt "subdomainOffset") (ONum 2)]>
    (<["proxy" := or_else (opt "proxy") (OBool false)]> ∅)))) in
  if truthy_o (opt "keys") then <["keys" := opt "keys"]> m else m.

(** The own properties of a new application. *)
Definition application_props (g : Realm) (h : heap) (options : oval)
    : gmap string oval :=
  let n := length h in
  let first := if truthy_o options then 1%nat else 2%nat in
  <["response" := ORef (n + S (S (S first)))%nat]>
  (<["request" := ORef (n + S (S first))%nat]>
  (<["context" := ORef (n + S first)%nat]>
  (<["middleware" := ORef (n + first)%nat]>
     (application_settings g h options)))).

(** The objects the constructor adds: the application, the empty
    options when none were given, the middleware array and the three
    templates. *)
Definition application_objects (g : Realm) (h : heap) (options : oval)
    : list object :=
  [ mkObject (Some (Application_prototype g)) (application_props g h options) ]
  ++ (if truthy_o options then [] else [mkObject (Some (Object_prototype g)) ∅])
  ++ [ mkObject (Some (Array_prototype g)) (<["length" := ONum 0]> ∅);
       mkObject (Some (module_context g)) ∅;
       mkObject (Some (module_request g)) ∅;
       mkObject (Some (module_response g)) ∅ ].

(** The settings and what they default to. *)
Definition setting_defaults (g : Realm) : list (string * oval) :=
  [ ("proxy", OBool false);
    ("subdomainOffset", ONum 2);
    ("proxyIpHeader", OStr "X-Forwarded-For");
    ("maxIpsCount", ONum 0);
    ("env", or_else (NODE_ENV g) (OStr "development")) ].

(** The own keys of a new application besides the settings. *)
Definition application_links : list string :=
  ["middleware"; "context"; "request"; "response"].

(** *** A sample realm *)

(** [Object.prototype] (0), [Array.prototype] (1), the prototype of the
    class (2), the objects of the three modules (3-5), of which the
    context has a property; options that set [proxy], a zero
    [subdomainOffset] and [keys] (6), the array of the keys (7), and a
    raw request and response (8, 9). *)
Definition sample_realm : Realm :=
  mkRealm 0%nat 1%nat 2%nat 3%nat 4%nat 5%nat OUndefined.

Definition sample_realm_heap : heap :=
  [ mkObject None ∅;
    mkObject (Some 0%nat) ∅;
    mkObject (Some 0%nat) ∅;
    mkObject (Some 0%nat) (<["inspect" := OStr "[context]"]> ∅);
    mkObject (Some 0%nat) ∅;
    mkObject (Some 0%nat) ∅;
    mkObject (Some 0%nat)
      (<["keys" := ORef 7]> (<["subdomainOffset" := ONum 0]>
         (<["proxy" := OBool true]> ∅)));
    mkObject (Some 1%nat) (<["length" := ONum 0]> ∅);
    mkObject (Some 0%nat) (<["url" := OStr "/a"]> ∅);
    mkObject (Some 0%nat) ∅ ].

(** The heap after [new Application(options)] with the options at 6,
    and after a second [new Application()]. *)
Definition sample_realm_heap1 : heap :=
  sample_realm_heap ++ application_objects sample_realm sample_realm_heap (ORef 6).

Definition sample_realm_heap2 : heap :=
  sample_realm_heap1 ++
  application_objects sample_realm sample_realm_heap1 OUndefined.

(** ** Registering middleware: [use] *)

Section Use.
Context {St G : Type}.

(** [convert(fn)] of the package [koa-convert]: the middleware a
    generator function is turned into. *)
Variable convert : G -> middleware St.

(** What [use] can be given: a value that is not a function, a
    function, or a generator function. *)
Inductive use_arg : Type :=
| NotFunction (v : value)
| Function (fn : middleware St)
| GeneratorFunction (gen : G).

(** The application as [use] sees it: the array [this.middleware], and
    the messages handed to [deprecate] so far.  The calls of [debug]
    leave no trace in it. *)
Record Application : Type := mkApplication {
  this_middleware : list (middleware St);
  deprecated : list string
}.

Definition generators_deprecated : string :=
  "Support for generators will be removed in v3. " +:+
  "See the documentation for examples of how to convert old middleware " +:+
  "https://github.com/koajs/koa/blob/master/docs/migration.md".

(** [this.middleware.push(fn)] and [deprecate(msg)]. *)
Definition push (fn : middleware St) (this : Application) : Application :=
  mkApplication (this_middleware this ++ [fn]) (deprecated this).

Definition deprecate (msg : string) (this : Application) : Application :=
  mkApplication (this_middleware this) (deprecated this ++ [msg]).

(** [use(fn)]: how the call completes, and the application after it
    (which is also what the call returns). *)
Definition use (fn : use_arg) (this : Application) : completion * Application :=
  match fn with
  | NotFunction _ => (Abrupt (TypeError "middleware must be a function!"), this)
  | Function f => (Normal, push f this)
  | GeneratorFunction gen =>
      (Normal, push (convert gen) (deprecate generators_deprecated this))
  end.

(** [app.use(f1); app.use(f2); ...], as far as it gets. *)
Fixpoint use_all (fns : list use_arg) (this : Application)
    : completion * Application :=
  match fns with
  | [] => (Normal, this)
  | fn :: fns' =>
      match use fn this with
      | (Normal, this') => use_all fns' this'
      | (Abrupt t, this') => (Abrupt t, this')
      end
  end.

(** What an argument is registered as. *)
Definition registered (fn : use_arg) : option (middleware St) :=
  match fn with
  | NotFunction _ => None
  | Function f => Some f
  | GeneratorFunction gen => Some (convert gen)
  end.

Definition is_function (fn : use_arg) : bool :=
  match fn with
  | NotFunction _ => false
  | _ => true
  end.

Definition is_generator (fn : use_arg) : bool :=
  match fn with
  | GeneratorFunction _ => true
  | _ => false
  end.

End Use.

Arguments use_arg : clear implicits.
Arguments Application : clear implicits.

(** ** Lines of a diagnostic *)

Definition LF : ascii := "010"%char.

(** A text that holds a line terminator: LF, CR, or the UTF-8 bytes of
    U+2028 or U+2029. *)
Fixpoint has_terminator (s : string) : bool :=
  match s with
  | EmptyString => false
  | String c s1 =>
      Ascii.eqb c "010"%char || Ascii.eqb c "013"%char ||
      match s1 with
      | String c2 (String c3 _) =>
          Ascii.eqb c "226"%char && Ascii.eqb c2 "128"%char &&
          (Ascii.eqb c3 "168"%char || Ascii.eqb c3 "169"%char)
      | _ => false
      end ||
      has_terminator s1
  end.

(** The lines of a text, joined by LF. *)
Definition unlines (lines : list string) : string :=
  String.concat (String LF "") lines.

(* ===================================================================== *)
(** * Part II: properties *)
(* ===================================================================== *)

Section ComposeFacts.
Context {St : Type}.
Implicit Types (r : run St) (m : middleware St) (c : M St).

(** A second call of a continuation is refused before anything runs. *)
Lemma dispatch_refused rest fb i r :
  i <= index r ->
  dispatch rest fb i r = (Rejected (MultipleCalls i), log_attempt i r).
Proof.
  intros Hi. destruct rest; simpl;
    destruct (Z.leb_spec i (index r)); auto; lia.
Qed.

(** Read literally, "[H] is [dispatch(-1)]" would make every handler
    fail at once: the first dispatch has to be the one of position 0. *)
Lemma dispatch_minus_one_refused mws fb (s : St) :
  dispatch mws fb (-1) (mkRun (-1) s [] [])
  = (Rejected (MultipleCalls (-1)), mkRun (-1) s [-1] []).
Proof. rewrite dispatch_refused; [reflexivity | simpl; lia]. Qed.

(** *** Every middleware is invoked at most once per run *)

Lemma exec_keeps_once m c : keeps_once c -> keeps_once (exec m c).
Proof.
  intros Hc. induction m as [|f|f k IH|k IH|k IH]; intros r o r' E I; simpl in E.
  - inversion E; subst. split; [assumption | lia].
  - inversion E; subst. split; [assumption | lia].
  - exact (IH _ _ _ E I).
  - exact (IH _ _ _ _ E I).
  - destruct (c r) as [o1 r1] eqn:E1.
    destruct (Hc _ _ _ E1 I) as [I1 L1].
    destruct (IH _ _ _ _ E I1) as [I2 L2]. split; [assumption | lia].
Qed.

Lemma once_inv_dispatched i r :
  index r < i -> once_inv r ->
  once_inv (log_invoked i (set_index i (log_attempt i r))).
Proof.
  intros Hi [Hnd Hle]. split; simpl.
  - apply NoDup_app. split; [assumption|]. split.
    + intros j Hj Hj'. apply list_elem_of_singleton in Hj'. subst j.
      rewrite Forall_forall in Hle. specialize (Hle _ Hj). lia.
    + apply NoDup_singleton.
  - apply Forall_app. split.
    + eapply Forall_impl; [exact Hle|]. simpl. intros; lia.
    + constructor; [lia | constructor].
Qed.

Lemma dispatch_past_keeps_once i : keeps_once (St := St) (dispatch_past i).
Proof.
  intros r o r' E I. unfold dispatch_past in E. simpl in E.
  destruct (Z.leb_spec i (index r)); inversion E; subst; simpl.
  - split; [exact I | lia].
  - destruct I as [Hnd Hle]. split; [split; simpl|lia]; [assumption|].
    eapply Forall_impl; [exact Hle|]. simpl. intros; lia.
Qed.

Lemma dispatch_keeps_once rest fb i :
  keeps_once (St := St) (dispatch rest fb i).
Proof.
  revert i. induction rest as [|fn rest IH]; intros i r o r' E I; simpl in E;
    destruct (Z.leb_spec i (index r)) as [Hle|Hlt].
  - inversion E; subst. split; [exact I | simpl; lia].
  - destruct fb as [fn|].
    + destruct (exec_keeps_once fn _ (dispatch_past_keeps_once (i + 1))
                  _ _ _ E (once_inv_dispatched i r Hlt I)) as [I' L].
      split; [exact I' | simpl in L; lia].
    + inversion E; subst. split; [|simpl; lia].
      destruct I as [Hnd Hf]. split; simpl; [assumption|].
      eapply Forall_impl; [exact Hf|]. simpl. intros; lia.
  - inversion E; subst. split; [exact I | simpl; lia].
  - destruct (exec_keeps_once fn _ (IH (i + 1))
                _ _ _ E (once_inv_dispatched i r Hlt I)) as [I' L].
    split; [exact I' | simpl in L; lia].
Qed.

Lemma compose_invoked_once mws (s : St) fb o r :
  compose mws s fb = (o, r) -> NoDup (invoked r).
Proof.
  intros E. eapply (dispatch_keeps_once mws fb 0); [exact E|].
  split; simpl; constructor.
Qed.

(** *** Failures reach the caller through propagating middleware *)

Lemma exec_faithful m c :
  propagates m -> faithful c -> faithful (exec m c).
Proof.
  intros Hm Hc. induction Hm as [|f|f k _ IH|k _ IH|k Hrej _ IH];
    intros r o r' E I; simpl in E.
  - inversion E; subst. split; [assumption|]. split; [lia|]. intros; left; assumption.
  - inversion E; subst. split; [assumption|]. split; [lia|]. intros; left; assumption.
  - exact (IH _ _ _ E I).
  - exact (IH _ _ _ _ E I).
  - destruct (c r) as [o1 r1] eqn:E1.
    destruct (Hc _ _ _ E1 I) as (I1 & L1 & F1).
    destruct o1 as [|f].
    + destruct (IH _ _ _ E I1) as (I2 & L2 & F2).
      split; [assumption|]. split; [lia|]. intros Hnd.
      destruct (F1 Hnd) as [Hnd1|(i & l & Ho & _)]; [auto | discriminate].
    + rewrite Hrej in E. simpl in E. inversion E; subst.
      split; [assumption|]. split; [lia|]. exact F1.
Qed.

Lemma attempts_inv_refused i r :
  i <= index r -> attempts_inv r -> attempts_inv (log_attempt i r).
Proof.
  intros Hi I. unfold attempts_inv; simpl. apply Forall_app. split; [exact I|].
  constructor; [assumption | constructor].
Qed.

Lemma attempts_inv_passed i r :
  index r < i -> attempts_inv r -> attempts_inv (set_index i (log_attempt i r)).
Proof.
  intros Hi I. unfold attempts_inv; simpl. apply Forall_app. split.
  - eapply Forall_impl; [exact I|]. simpl; intros; lia.
  - constructor; [lia | constructor].
Qed.

Lemma refusal_first i r :
  NoDup (attempts r) ->
  first_refusal (Rejected (MultipleCalls i)) (log_attempt i r).
Proof.
  intros Hnd. destruct (decide (i ∈ attempts r)) as [Hin|Hnin].
  - right. exists i, (attempts r). auto.
  - left. simpl. apply NoDup_app. split; [assumption|]. split.
    + intros j Hj Hj'. apply list_elem_of_singleton in Hj'. subst. auto.
    + apply NoDup_singleton.
Qed.

Lemma passed_nodup i r :
  index r < i -> attempts_inv r -> NoDup (attempts r) ->
  NoDup (attempts r ++ [i]).
Proof.
  intros Hi I Hnd. apply NoDup_app. split; [assumption|]. split.
  - intros j Hj Hj'. apply list_elem_of_singleton in Hj'. subst j.
    unfold attempts_inv in I. rewrite Forall_forall in I. specialize (I _ Hj). lia.
  - apply NoDup_singleton.
Qed.

Lemma dispatch_past_faithful i : faithful (St := St) (dispatch_past i).
Proof.
  intros r o r' E I. unfold dispatch_past in E. simpl in E.
  destruct (Z.leb_spec i (index r)) as [Hle|Hlt]; inversion E; subst.
  - split; [apply attempts_inv_refused; assumption|]. split; [simpl; lia|].
    apply refusal_first.
  - split; [apply attempts_inv_passed; assumption|]. split; [simpl; lia|].
    intros Hnd. left. simpl. apply passed_nodup; assumption.
Qed.

Lemma dispatch_faithful rest fb i :
  Forall propagates rest -> (forall fn, fb = Some fn -> propagates fn) ->
  faithful (St := St) (dispatch rest fb i).
Proof.
  intros Hrest Hfb. revert i.
  induction Hrest as [|fn rest Hfn _ IH]; intros i r o r' E I; simpl in E;
    destruct (Z.leb_spec i (index r)) as [Hle|Hlt].
  - inversion E; subst.
    split; [apply attempts_inv_refused; assumption|]. split; [simpl; lia|].
    apply refusal_first.
  - destruct fb as [fn|].
    + destruct (exec_faithful fn _ (Hfb fn eq_refl) (dispatch_past_faithful (i + 1))
                  _ _ _ E (attempts_inv_passed i r Hlt I)) as (I' & L & F).
      split; [exact I'|]. split; [simpl in L; lia|].
      intros Hnd. apply F. simpl. apply passed_nodup; assumption.
    + inversion E; subst.
      split; [apply attempts_inv_passed; assumption|]. split; [simpl; lia|].
      intros Hnd. left. simpl. apply passed_nodup; assumption.
  - inversion E; subst.
    split; [apply attempts_inv_refused; assumption|]. split; [simpl; lia|].
    apply refusal_first.
  - destruct (exec_faithful fn _ Hfn (IH (i + 1))
                _ _ _ E (attempts_inv_passed i r Hlt I)) as (I' & L & F).
    split; [exact I'|]. split; [simpl in L; lia|].
    intros Hnd. apply F. simpl. apply passed_nodup; assumption.
Qed.

Lemma called_twice_last j i l :
  NoDup l -> called_twice j (l ++ [i]) -> j = i.
Proof.
  intros Hnd H. unfold called_twice in H. rewrite count_occ_app in H. simpl in H.
  apply NoDup_ListNoDup in Hnd.
  pose proof (proj1 (NoDup_count_occ Z.eq_dec l) Hnd j) as Hle.
  destruct (Z.eq_dec i j); [congruence | lia].
Qed.

Lemma called_twice_dup j l : called_twice j l -> ~ NoDup l.
Proof.
  intros H Hnd. apply NoDup_ListNoDup in Hnd.
  pose proof (proj1 (NoDup_count_occ Z.eq_dec l) Hnd j). unfold called_twice in H. lia.
Qed.

Lemma compose_first_refusal mws fb (s : St) o r j :
  Forall propagates mws -> (forall fn, fb = Some fn -> propagates fn) ->
  compose mws s fb = (o, r) ->
  called_twice j (attempts r) -> o = Rejected (MultipleCalls j).
Proof.
  intros Hm Hfb E Hj.
  destruct (dispatch_faithful mws fb 0 Hm Hfb _ _ _ E) as (_ & _ & F).
  { unfold attempts_inv; simpl; constructor. }
  destruct F as [Hnd|(i & l & Ho & Hl & Hnd & _)].
  - simpl; constructor.
  - exfalso. exact (called_twice_dup _ _ Hj Hnd).
  - rewrite Hl in Hj. apply called_twice_last in Hj; [subst; reflexivity | assumption].
Qed.

(** *** Who re-invoked its continuation *)

Lemma exec_traced m c j :
  traced j c ->
  forall r o r', exec m c r = (o, r') ->
    exists new inv',
      attempts r' = attempts r ++ new /\
      invoked r' = invoked r ++ inv' /\
      (j - 1 ∈ invoked r -> Forall (fun a => j <= a /\ a - 1 ∈ invoked r') new).
Proof.
  intros Hc. induction m as [|f|f k IH|k IH|k IH]; intros r o r' E; simpl in E.
  - inversion E; subst. exists [], []. rewrite !app_nil_r. auto.
  - inversion E; subst. exists [], []. rewrite !app_nil_r. auto.
  - exact (IH _ _ _ E).
  - exact (IH _ _ _ _ E).
  - destruct (c r) as [o1 r1] eqn:E1.
    destruct (Hc _ _ _ E1) as (new1 & inv1 & A1 & V1 & F1).
    destruct (IH _ _ _ _ E) as (new2 & inv2 & A2 & V2 & F2).
    exists (j :: new1 ++ new2), (inv1 ++ inv2).
    split; [rewrite A2, A1, <- app_assoc; reflexivity|].
    split; [rewrite V2, V1, <- app_assoc; reflexivity|].
    intros Hj. constructor; [|apply Forall_app; split].
    + split; [lia|]. rewrite V2, V1. set_solver.
    + eapply Forall_impl; [exact F1|]. simpl. intros a [Ha Hin].
      split; [lia|]. rewrite V2. set_solver.
    + apply F2. rewrite V1. set_solver.
Qed.

Lemma dispatch_past_traced i : traced (St := St) i (dispatch_past i).
Proof.
  intros r o r' E. unfold dispatch_past in E. simpl in E.
  destruct (i <=? index r); inversion E; subst; exists [], []; simpl;
    rewrite app_nil_r; auto.
Qed.

Lemma dispatch_traced rest fb i : traced (St := St) i (dispatch rest fb i).
Proof.
  assert (Hstep : forall fn c i r o r',
    traced (i + 1) c ->
    exec fn c (log_invoked i (set_index i (log_attempt i r))) = (o, r') ->
    exists new inv',
      attempts r' = attempts r ++ i :: new /\
      invoked r' = invoked r ++ inv' /\
      Forall (fun a => i < a /\ a - 1 ∈ invoked r') new).
  { intros fn c j r o r' Hc E.
    destruct (exec_traced fn c (j + 1) Hc _ _ _ E) as (new & inv' & A & V & F).
    simpl in A, V. exists new, (j :: inv').
    split; [rewrite A, <- app_assoc; reflexivity|].
    split; [rewrite V, <- app_assoc; reflexivity|].
    eapply Forall_impl; [apply F|].
    - simpl. replace (j + 1 - 1) with j by lia. set_solver.
    - simpl. intros a [Ha Hin]. split; [lia | assumption]. }
  revert i. induction rest as [|fn rest IH]; intros i r o r' E; simpl in E;
    destruct (i <=? index r).
  - inversion E; subst. exists [], []. simpl. rewrite app_nil_r. auto.
  - destruct fb as [fn|].
    + exact (Hstep _ _ _ _ _ _ (dispatch_past_traced (i + 1)) E).
    + inversion E; subst. exists [], []. simpl. rewrite app_nil_r. auto.
  - inversion E; subst. exists [], []. simpl. rewrite app_nil_r. auto.
  - exact (Hstep _ _ _ _ _ _ (IH (i + 1)) E).
Qed.

Lemma compose_offender mws fb (s : St) o r j :
  compose mws s fb = (o, r) ->
  called_twice j (attempts r) -> 0 < j /\ j - 1 ∈ invoked r.
Proof.
  intros E Hj.
  destruct (dispatch_traced mws fb 0 _ _ _ E) as (new & inv' & A & _ & F).
  change (attempts r = 0 :: new) in A.
  unfold called_twice in Hj. rewrite A in Hj.
  rewrite Forall_forall in F.
  assert (Hin : In j new).
  { apply (count_occ_In Z.eq_dec). destruct (Z.eq_dec 0 j) as [<-|Hne].
    - rewrite count_occ_cons_eq in Hj by reflexivity. lia.
    - rewrite count_occ_cons_neq in Hj by assumption. lia. }
  apply list_elem_of_In in Hin. apply F in Hin. exact Hin.
Qed.

End ComposeFacts.

(** *** The onion order *)

Lemma dispatch_loggers n : forall (k : nat) (r : run (list nat)),
  index r < Z.of_nat k ->
  dispatch (map logger (seq k n)) None (Z.of_nat k) r
  = (Resolved,
     mkRun (Z.of_nat (k + n))
           (ctx r ++ seq k n ++ rev (seq k n))
           (attempts r ++ map Z.of_nat (seq k (S n)))
           (invoked r ++ map Z.of_nat (seq k n))).
Proof.
  induction n as [|n IH]; intros k r Hk.
  - simpl. destruct (Z.leb_spec (Z.of_nat k) (index r)); [lia|].
    unfold set_index, log_attempt; simpl.
    rewrite !app_nil_r, Nat.add_0_r. reflexivity.
  - cbn [seq map dispatch]. cbn beta zeta.
    change (index (log_attempt (Z.of_nat k) r)) with (index r).
    destruct (Z.leb_spec (Z.of_nat k) (index r)); [lia|].
    unfold logger at 1. cbn [exec].
    replace (Z.of_nat k + 1) with (Z.of_nat (S k)) by lia.
    rewrite IH by (simpl; lia).
    cbn [exec]. unfold set_ctx, log_invoked, set_index, log_attempt.
    cbn [ctx index attempts invoked rev].
    rewrite <- !app_assoc.
    replace (Z.of_nat (S k + n)) with (Z.of_nat (k + S n)) by lia.
    reflexivity.
Qed.

(** C1. For every N >= 0, running the composition of the N middleware
    that each append their index to the shared log before and after
    awaiting their continuation resolves with the log
    [0,1,...,N-1,N-1,...,1,0]: downstream code runs in registration
    order, upstream code in reverse order, and every middleware is
    invoked once, in order.  For N = 0 the handler resolves at once with
    the empty log and nothing invoked. *)
Theorem compose_onion_order (n : nat) :
  (let '(o, r) := compose (loggers n) [] None in
   o = Resolved /\
   ctx r = seq 0 n ++ rev (seq 0 n) /\
   invoked r = map Z.of_nat (seq 0 n)) /\
  compose (loggers 0) [] None = (Resolved, mkRun 0 [] [0] []).
Proof.
  split; [|reflexivity].
  assert (H := dispatch_loggers n 0 (mkRun (-1) [] [] []) ltac:(simpl; lia)).
  change (Z.of_nat 0) with 0 in H.
  unfold compose, loggers. rewrite H. simpl. auto.
Qed.

(** *** Calling the continuation twice *)

(** C2, as stated, fails: the middleware at position 0 invokes its
    continuation twice (index 1 is dispatched twice), lets the refusal
    pass, and the pipeline's completion resolves. *)
Lemma second_call_may_resolve :
  let '(o, r) := compose [calls_twice] tt None in
  called_twice 1 (attempts r) /\ invoked r = [0] /\ o = Resolved.
Proof. vm_compute. repeat split. lia. Qed.

(** C2, amended.  In every run of a composed handler: no middleware is
    invoked twice; a call of [dispatch i] with [i] less than or equal to
    the last dispatched index is refused at once with the
    composition-protocol error, before any middleware is invoked; an
    index [j] dispatched twice is above 0 and the middleware at the
    previous position [j - 1], holder of the continuation [dispatch j],
    was invoked: it is the offender.  If moreover every middleware (and
    the fallback) propagates the failures of its continuation, the
    completion of the pipeline is rejected with that error. *)
Theorem second_call_refused {St : Type} (mws : list (middleware St))
    (fb : option (middleware St)) (s : St) (o : result) (r : run St) :
  compose mws s fb = (o, r) ->
  NoDup (invoked r) /\
  (forall rest fb' i (r0 : run St), i <= index r0 ->
     dispatch rest fb' i r0 = (Rejected (MultipleCalls i), log_attempt i r0)) /\
  (forall j, called_twice j (attempts r) ->
     0 < j /\ j - 1 ∈ invoked r /\
     (Forall propagates mws -> (forall fn, fb = Some fn -> propagates fn) ->
      o = Rejected (MultipleCalls j))).
Proof.
  intros E. split; [exact (compose_invoked_once _ _ _ _ _ E)|].
  split; [intros; apply dispatch_refused; assumption|].
  intros j Hj. destruct (compose_offender _ _ _ _ _ _ E Hj) as [H0 Hin].
  split; [assumption|]. split; [assumption|].
  intros Hm Hfb. exact (compose_first_refusal _ _ _ _ _ _ Hm Hfb E Hj).
Qed.

Lemma second_call_refused_witness :
  fst (compose [awaits_twice] tt None) = Rejected (MultipleCalls 1).
Proof.
  refine (proj2 (proj2 (proj2 (proj2
    (second_call_refused [awaits_twice] None tt _ _ eq_refl)) 1 _)) _ _).
  - unfold called_twice. simpl. lia.
  - constructor; [|constructor].
    apply propagates_Next; [reflexivity|].
    apply propagates_Next; [reflexivity | constructor].
  - intros fn H. discriminate H.
Defined.

(** ** The context factory *)

Section Heap.
Implicit Types (h ext : heap) (l p : loc) (k : string) (v : oval).

Lemma get_from_fuel h k : heap_wf h ->
  forall n m l, (l < n)%nat -> (l < m)%nat ->
    get_from n h l k = get_from m h l k.
Proof.
  intros Hwf. induction n as [|n IH]; intros m l Hn Hm; [lia|].
  destruct m as [|m]; [lia|]. cbn [get_from].
  destruct (h !! l) as [o|] eqn:Hl; [|reflexivity].
  destruct (props o !! k); [reflexivity|].
  destruct (proto o) as [p|] eqn:Hp; [|reflexivity].
  specialize (Hwf _ _ _ Hl Hp). apply IH; lia.
Qed.

Lemma get_from_prefix h ext k : heap_wf h ->
  forall n l, (l < length h)%nat ->
    get_from n (h ++ ext) l k = get_from n h l k.
Proof.
  intros Hwf. induction n as [|n IH]; intros l Hl; [reflexivity|]. cbn [get_from].
  rewrite lookup_app_l by assumption.
  destruct (h !! l) as [o|] eqn:Ho; [|reflexivity].
  destruct (props o !! k); [reflexivity|].
  destruct (proto o) as [p|] eqn:Hp; [|reflexivity].
  specialize (Hwf _ _ _ Ho Hp). apply IH; lia.
Qed.

Lemma get_prefix h ext l k : heap_wf h -> (l < length h)%nat ->
  get (h ++ ext) l k = get h l k.
Proof.
  intros Hwf Hl. unfold get. rewrite get_from_prefix by assumption.
  apply get_from_fuel; [assumption | rewrite length_app; lia | assumption].
Qed.

Lemma alloc_suffix o h ext :
  alloc o (h ++ ext) = Some ((length h + length ext)%nat, h ++ (ext ++ [o])).
Proof. unfold alloc. rewrite length_app, <- app_assoc. reflexivity. Qed.

Lemma set_prop_suffix j k v h ext :
  set_prop (length h + j) k v (h ++ ext)
  = Some (tt, h ++ alter (set_own k v) j ext).
Proof. unfold set_prop, set. rewrite alter_app_r. reflexivity. Qed.

Lemma get_prop_suffix l k h ext : heap_wf h -> (l < length h)%nat ->
  get_prop l k (h ++ ext) = Some (get h l k, h ++ ext).
Proof. intros. unfold get_prop. rewrite get_prefix by assumption. reflexivity. Qed.

Lemma Object_create_suffix v (tp : option loc) h ext :
  template_proto v = Some tp ->
  Object_create v (h ++ ext)
  = Some ((length h + length ext)%nat, h ++ (ext ++ [mkObject tp ∅])).
Proof.
  destruct v; simpl; intros H; inversion H; subst; apply alloc_suffix.
Qed.

Lemma Object_create_throws v h :
  template_proto v = None -> Object_create v h = None.
Proof. destruct v; simpl; intros H; congruence. Qed.

Lemma get_from_closed h k p : heap_closed h ->
  forall n l, get_from n h l k = ORef p -> (p < length h)%nat.
Proof.
  intros Hcl. induction n as [|n IH]; intros l; cbn [get_from]; [discriminate|].
  destruct (h !! l) as [o|] eqn:Hl; [|discriminate].
  destruct (props o !! k) as [v|] eqn:Hk.
  - intros ->. exact (Hcl _ _ _ _ Hl Hk).
  - destruct (proto o); [apply IH | discriminate].
Qed.

Lemma template_below h l k (tp : option loc) p : heap_closed h ->
  template_proto (get h l k) = Some tp -> tp = Some p -> (p < length h)%nat.
Proof.
  intros Hcl Ht ->. destruct (get h l k) eqn:Hg; simpl in Ht; inversion Ht; subst.
  exact (get_from_closed _ _ _ Hcl _ _ Hg).
Qed.

Lemma heap_wf_app h ext : heap_wf h -> protos_below (length h) ext ->
  heap_wf (h ++ ext).
Proof.
  intros Hwf Hext l o p Hl Hp.
  destruct (decide (l < length h)%nat) as [Hlt|Hge].
  - rewrite lookup_app_l in Hl by assumption. exact (Hwf _ _ _ Hl Hp).
  - rewrite lookup_app_r in Hl by lia.
    unfold protos_below in Hext. rewrite Forall_forall in Hext.
    apply list_elem_of_lookup_2 in Hl. specialize (Hext _ Hl _ Hp). lia.
Qed.

(** Reading through an object added after [h] whose prototype is in [h]. *)
Lemma get_fresh h ext j o k : heap_wf h -> protos_below (length h) ext ->
  ext !! j = Some o ->
  get (h ++ ext) (length h + j) k
  = match props o !! k with
    | Some v => v
    | None => match proto o with
              | Some p => get h p k
              | None => OUndefined
              end
    end.
Proof.
  intros Hwf Hext Hj. unfold get.
  assert (Hlen : (j < length ext)%nat) by (eapply lookup_lt_Some; eassumption).
  rewrite length_app.
  replace (length h + length ext)%nat with (S (length h + length ext - 1)) by lia.
  cbn [get_from]. rewrite lookup_app_r by lia.
  replace (length h + j - length h)%nat with j by lia. rewrite Hj.
  destruct (props o !! k); [reflexivity|].
  destruct (proto o) as [p|] eqn:Hp; [|reflexivity].
  unfold protos_below in Hext. rewrite Forall_forall in Hext.
  apply list_elem_of_lookup_2 in Hj. specialize (Hext _ Hj _ Hp).
  rewrite get_from_prefix by assumption.
  apply get_from_fuel; [assumption | lia | assumption].
Qed.

Lemma set_suffix h ext i k v :
  set (h ++ ext) (length h + i) k v = h ++ alter (set_own k v) i ext.
Proof. unfold set. apply alter_app_r. Qed.

Lemma protos_below_alter n ext i k v :
  protos_below n ext -> protos_below n (alter (set_own k v) i ext).
Proof.
  unfold protos_below. rewrite !Forall_lookup. intros H j o Hj.
  destruct (decide (i = j)) as [->|Hne].
  - rewrite list_lookup_alter_eq in Hj.
    destruct (ext !! j) as [o'|] eqn:Ho; simpl in Hj; inversion Hj; subst.
    exact (H _ _ Ho).
  - rewrite list_lookup_alter_ne in Hj by assumption. exact (H _ _ Hj).
Qed.

(** A write on one added object is not seen through another one. *)
Lemma get_set_fresh_ne h ext i j k v k' :
  heap_wf h -> protos_below (length h) ext ->
  i <> j -> (j < length ext)%nat ->
  get (set (h ++ ext) (length h + i) k v) (length h + j) k'
  = get (h ++ ext) (length h + j) k'.
Proof.
  intros Hwf Hext Hne Hj. rewrite set_suffix.
  destruct (lookup_lt_is_Some_2 ext j Hj) as [o Ho].
  rewrite (get_fresh h ext j o) by assumption.
  apply get_fresh; [assumption | apply protos_below_alter; assumption |].
  rewrite list_lookup_alter_ne by assumption. exact Ho.
Qed.

Lemma get_set_fresh_ne_at h ext o o' k v k' :
  heap_wf h -> protos_below (length h) ext ->
  o <> o' -> (length h <= o)%nat ->
  (length h <= o' < length h + length ext)%nat ->
  get (set (h ++ ext) o k v) o' k' = get (h ++ ext) o' k'.
Proof.
  intros Hwf Hext Hne Ho Ho'.
  replace o with (length h + (o - length h))%nat by lia.
  replace o' with (length h + (o' - length h))%nat by lia.
  apply get_set_fresh_ne; [assumption | assumption | lia | lia].
Qed.

Lemma member_pure v k h x h1 : member v k h = Some (x, h1) -> h1 = h.
Proof.
  destruct v; simpl; unfold hret, get_prop; intros H; congruence.
Qed.

End Heap.

Section Factory.
Variable object_prototype : loc.

Ltac hstep E :=
  unfold hbind in E at 1;
  first [ rewrite get_prop_suffix in E by assumption
        | rewrite alloc_suffix in E
        | rewrite set_prop_suffix in E ];
  cbn [length app alter list_alter set_own proto props] in E.

Ltac hcreate E p Hp :=
  unfold hbind in E at 1;
  match type of E with
  | context [Object_create ?v _] =>
      destruct (template_proto v) as [p|] eqn:Hp;
      [ rewrite (Object_create_suffix v p) in E by assumption
      | rewrite Object_create_throws in E by assumption; discriminate E ]
  end;
  cbn [length app] in E.

Lemma context_objects_unset pc pr ps c this req res url k :
  k ∉ ["request"; "response"; "app"; "req"; "res"; "originalUrl"; "state"] ->
  exists m,
    context_objects object_prototype pc pr ps c this req res url !! 0%nat
    = Some (mkObject pc m) /\
    m !! k = None.
Proof.
  intros Hk. eexists. split; [reflexivity|].
  rewrite !lookup_insert_ne by (intros <-; apply Hk; set_solver).
  apply lookup_empty.
Qed.

Lemma createContext_footprint this req res h c h' :
  heap_wf h -> (this < length h)%nat ->
  createContext object_prototype this req res h = Some (c, h') ->
  exists pc pr ps url,
    template_proto (get h this "context") = Some pc /\
    template_proto (get h this "request") = Some pr /\
    template_proto (get h this "response") = Some ps /\
    c = length h /\
    h' = h ++ context_objects object_prototype pc pr ps (length h) this req res url.
Proof.
  intros Hwf Hthis E. unfold createContext in E.
  rewrite <- (app_nil_r h) in E.
  hstep E. hcreate E pc Hpc.
  hstep E. hcreate E pr Hpr. hstep E.
  hstep E. hcreate E ps Hps. do 14 hstep E.
  unfold hbind in E at 1.
  destruct (member req "url" _) as [[url hx]|] eqn:Em; [|discriminate E].
  apply member_pure in Em. subst hx.
  do 2 hstep E. unfold new_object in E. do 2 hstep E.
  unfold hret in E. inversion E; subst c h'.
  exists pc, pr, ps, url. rewrite Nat.add_0_r. auto.
Qed.

(** C3. Two contexts made by two separate calls of [createContext]
    share nothing that is written per request: each gets a new context
    object, new request and response facades and a new, empty state
    object (eight distinct objects, none of them in the heap before);
    the facades of both delegate to the same templates of the
    application, so unset reads agree; and no write on the context, a
    facade or the state of one changes any read through those of the
    other.  Setting [state.x = 1] on the first leaves [state.x]
    undefined on the second ([Object.prototype] having no [x]). *)
Theorem createContext_isolated this reqA resA reqB resB h a h1 b h2 :
  heap_wf h -> heap_closed h ->
  (this < length h)%nat -> (object_prototype < length h)%nat ->
  get h object_prototype "x" = OUndefined ->
  createContext object_prototype this reqA resA h = Some (a, h1) ->
  createContext object_prototype this reqB resB h1 = Some (b, h2) ->
  exists ra pa sa rb pb sb : loc,
    (get h2 a "request" = ORef ra /\ get h2 a "response" = ORef pa /\
     get h2 a "state" = ORef sa) /\
    (get h2 b "request" = ORef rb /\ get h2 b "response" = ORef pb /\
     get h2 b "state" = ORef sb) /\
    NoDup [a; ra; pa; sa; b; rb; pb; sb] /\
    Forall (fun l => (length h <= l < length h2)%nat) [a; ra; pa; sa; b; rb; pb; sb] /\
    (own_props h2 sa = Some ∅ /\ own_props h2 sb = Some ∅) /\
    (proto_of h2 a = template_proto (get h this "context") /\
     proto_of h2 b = template_proto (get h this "context") /\
     proto_of h2 ra = template_proto (get h this "request") /\
     proto_of h2 rb = template_proto (get h this "request") /\
     proto_of h2 pa = template_proto (get h this "response") /\
     proto_of h2 pb = template_proto (get h this "response")) /\
    (forall k,
       k ∉ ["request"; "response"; "app"; "req"; "res"; "originalUrl"; "state"] ->
       get h2 a k = get h2 b k) /\
    (forall o o' k v k', o ∈ [a; ra; pa; sa] -> o' ∈ [b; rb; pb; sb] ->
       get (set h2 o k v) o' k' = get h2 o' k' /\
       get (set h2 o' k v) o k' = get h2 o k') /\
    (get (set h2 sa "x" (ONum 1)) sa "x" = ONum 1 /\
     get (set h2 sa "x" (ONum 1)) sb "x" = OUndefined).
Proof.
  intros Hwf Hcl Hthis Hop Hx EA EB.
  destruct (createContext_footprint _ _ _ _ _ _ Hwf Hthis EA)
    as (pc & pr & ps & urlA & Hpc & Hpr & Hps & -> & ->).
  assert (HextA : forall url c req res,
    protos_below (length h) (context_objects object_prototype pc pr ps c this req res url)).
  { intros. repeat constructor; simpl; intros p Hp.
    - exact (template_below _ _ _ _ _ Hcl Hpc Hp).
    - exact (template_below _ _ _ _ _ Hcl Hpr Hp).
    - exact (template_below _ _ _ _ _ Hcl Hps Hp).
    - inversion Hp; subst; assumption. }
  assert (Hwf1 : heap_wf (h ++ context_objects object_prototype pc pr ps (length h) this reqA resA urlA))
    by (apply heap_wf_app; [assumption | apply HextA]).
  assert (Hthis1 : (this < length (h ++ context_objects object_prototype pc pr ps
                                     (length h) this reqA resA urlA))%nat)
    by (rewrite length_app; lia).
  destruct (createContext_footprint _ _ _ _ _ _ Hwf1 Hthis1 EB)
    as (pc' & pr' & ps' & urlB & Hpc' & Hpr' & Hps' & -> & ->).
  rewrite get_prefix in Hpc', Hpr', Hps' by assumption.
  assert (pc' = pc) by congruence. assert (pr' = pr) by congruence.
  assert (ps' = ps) by congruence. subst pc' pr' ps'. clear Hpc' Hpr' Hps'.
  rewrite <- app_assoc.
  rewrite length_app. change (length (context_objects _ _ _ _ _ _ _ _ _)) with 4%nat.
  pose proof (proj2 (Forall_app _ _ _) (conj (HextA urlA (length h) reqA resA)
                (HextA urlB (length h + 4)%nat reqB resB))) as Hext.
  fold (protos_below (length h)) in Hext.
  clear EA EB Hwf1 Hthis1.
  set (ext := context_objects _ _ _ _ (length h) _ _ _ _ ++ _) in *.
  exists (length h + 1)%nat, (length h + 2)%nat, (length h + 3)%nat,
         (length h + 4 + 1)%nat, (length h + 4 + 2)%nat, (length h + 4 + 3)%nat.
  assert (Hget : forall l j k, l = (length h + j)%nat -> (j < 8)%nat ->
    get (h ++ ext) l k
    = match ext !! j with
      | Some o => match props o !! k with
                  | Some v => v
                  | None => match proto o with
                            | Some p => get h p k
                            | None => OUndefined
                            end
                  end
      | None => OUndefined
      end).
  { intros l j k -> Hj.
    destruct (lookup_lt_is_Some_2 ext j Hj) as [o Ho]. rewrite Ho.
    apply get_fresh; assumption. }
  assert (Hlen : length (h ++ ext) = (length h + 8)%nat)
    by (rewrite length_app; reflexivity).
  split; [rewrite !(Hget _ 0%nat) by lia; repeat split; reflexivity|].
  split; [rewrite !(Hget _ 4%nat) by lia; repeat split; reflexivity|].
  split.
  { apply NoDup_ListNoDup.
    repeat (constructor; [simpl; lia|]). constructor. }
  split; [rewrite Hlen; repeat (constructor; [lia|]); constructor|].
  split.
  { unfold own_props. rewrite !lookup_app_r by lia.
    replace (length h + 3 - length h)%nat with 3%nat by lia.
    replace (length h + 4 + 3 - length h)%nat with 7%nat by lia.
    split; reflexivity. }
  split.
  { unfold proto_of. rewrite !lookup_app_r by lia.
    replace (length h - length h)%nat with 0%nat by lia.
    replace (length h + 1 - length h)%nat with 1%nat by lia.
    replace (length h + 2 - length h)%nat with 2%nat by lia.
    replace (length h + 4 - length h)%nat with 4%nat by lia.
    replace (length h + 4 + 1 - length h)%nat with 5%nat by lia.
    replace (length h + 4 + 2 - length h)%nat with 6%nat by lia.
    rewrite Hpc, Hpr, Hps. repeat split; reflexivity. }
  split.
  { intros k Hk.
    rewrite (Hget _ 0%nat k), (Hget _ 4%nat k) by lia.
    destruct (context_objects_unset pc pr ps (length h) this reqA resA urlA k Hk)
      as (mA & EA & HA).
    destruct (context_objects_unset pc pr ps (length h + 4)%nat this reqB resB urlB k Hk)
      as (mB & EB & HB).
    unfold ext. rewrite lookup_app_l by (simpl; lia). rewrite EA.
    rewrite (lookup_app_r _ _ 4%nat) by (simpl; lia).
    change (4 - length (context_objects _ _ _ _ _ _ _ _ _))%nat with 0%nat.
    rewrite EB. cbn [props proto]. rewrite HA, HB. reflexivity. }
  split.
  { intros o o' k v k' Ho Ho'.
    assert (Hin : (length h <= o < length h + 4)%nat)
      by (set_unfold in Ho; lia).
    assert (Hin' : (length h + 4 <= o' < length h + 8)%nat)
      by (set_unfold in Ho'; lia).
    split; apply get_set_fresh_ne_at; try assumption;
      change (length ext) with 8%nat; lia. }
  rewrite set_suffix.
  assert (Hext' : protos_below (length h)
                    (alter (set_own "x" (ONum 1)) 3%nat ext))
    by (apply protos_below_alter; exact Hext).
  split.
  - rewrite (get_fresh h _ 3%nat _ "x" Hwf Hext' eq_refl). reflexivity.
  - replace (length h + 4 + 3)%nat with (length h + 7)%nat by lia.
    rewrite (get_fresh h _ 7%nat _ "x" Hwf Hext' eq_refl). exact Hx.
Qed.

End Factory.

Lemma sample_heap_wf : heap_wf sample_heap.
Proof.
  intros l o p Hl Hp.
  do 9 (destruct l as [|l];
        [simpl in Hl; inversion Hl; subst o; simpl in Hp; inversion Hp; lia|]).
  discriminate Hl.
Qed.

Lemma sample_heap_closed : heap_closed sample_heap.
Proof.
  intros l o k p Hl Hk.
  do 9 (destruct l as [|l];
        [simpl in Hl; inversion Hl; subst o; cbn [props] in Hk;
         rewrite ?lookup_insert_Some, ?lookup_empty in Hk;
         simpl; intuition (try discriminate); simplify_eq; lia|]).
  discriminate Hl.
Qed.

Lemma sample_context1 :
  createContext 0%nat 4%nat (ORef 5) (ORef 6) sample_heap = Some (9%nat, sample_heap1).
Proof. vm_compute. reflexivity. Qed.

Lemma sample_context2 :
  createContext 0%nat 4%nat (ORef 7) (ORef 8) sample_heap1 = Some (13%nat, sample_heap2).
Proof. vm_compute. reflexivity. Qed.

Lemma createContext_isolated_witness :
  get sample_heap2 9%nat "state" = ORef 12 /\
  get sample_heap2 13%nat "state" = ORef 16 /\
  get (set sample_heap2 12%nat "x" (ONum 1)) 12%nat "x" = ONum 1 /\
  get (set sample_heap2 12%nat "x" (ONum 1)) 16%nat "x" = OUndefined.
Proof.
  destruct (createContext_isolated 0%nat 4%nat (ORef 5) (ORef 6) (ORef 7) (ORef 8)
              sample_heap 9%nat sample_heap1 13%nat sample_heap2
              sample_heap_wf sample_heap_closed
              ltac:(simpl; lia) ltac:(simpl; lia) ltac:(vm_compute; reflexivity)
              sample_context1 sample_context2)
    as (ra & pa & sa & rb & pb & sb & (_ & _ & HA) & (_ & _ & HB) &
        _ & _ & _ & _ & _ & _ & Hx).
  assert (Ea : get sample_heap2 9%nat "state" = ORef 12) by (vm_compute; reflexivity).
  assert (Eb : get sample_heap2 13%nat "state" = ORef 16) by (vm_compute; reflexivity).
  rewrite Ea in HA. rewrite Eb in HB. inversion HA; inversion HB; subst sa sb.
  split; [exact Ea|]. split; [exact Eb|]. exact Hx.
Defined.

(** ** JSON texts *)

Section Json.
Implicit Types (s t rest : string) (c : ascii) (v : value).

Lemma append_nil t : "" +:+ t = t.
Proof. reflexivity. Qed.

Lemma append_cons c s t : String c s +:+ t = String c (s +:+ t).
Proof. reflexivity. Qed.

Lemma append_assoc s t rest : (s +:+ t) +:+ rest = s +:+ (t +:+ rest).
Proof.
  induction s as [|c s IH]; [reflexivity|].
  rewrite !append_cons, IH. reflexivity.
Qed.

Lemma length_append s t :
  String.length (s +:+ t) = (String.length s + String.length t)%nat.
Proof.
  induction s as [|c s IH]; [reflexivity|].
  rewrite append_cons. simpl. rewrite IH. reflexivity.
Qed.

Lemma closes_cases rest :
  closes rest = true ->
  rest = EmptyString \/
  exists c r, rest = String c r /\ (c = ","%char \/ c = "]"%char \/ c = "}"%char).
Proof.
  destruct rest as [|c r]; [auto|]. simpl. intros H. right. exists c, r.
  split; [reflexivity|].
  destruct (Ascii.eqb_spec c ","%char); [auto|].
  destruct (Ascii.eqb_spec c "]"%char); [auto|].
  destruct (Ascii.eqb_spec c "}"%char); [auto|]. discriminate.
Qed.

Lemma parse_digits_closes rest :
  closes rest = true -> parse_digits rest = (Nil, rest).
Proof.
  intros H. destruct (closes_cases _ H) as [-> | (c & r & -> & [-> | [-> | ->]])];
    reflexivity.
Qed.

Lemma starts_fraction_closes rest :
  closes rest = true -> starts_fraction rest = false.
Proof.
  intros H. destruct (closes_cases _ H) as [-> | (c & r & -> & [-> | [-> | ->]])];
    reflexivity.
Qed.

Lemma parse_digits_print (u : uint) rest :
  closes rest = true ->
  parse_digits (NilEmpty.string_of_uint u +:+ rest) = (u, rest).
Proof.
  intros H. induction u; simpl; rewrite ?append_cons, ?append_nil; simpl;
    try rewrite IHu; try reflexivity.
  apply parse_digits_closes; assumption.
Qed.

Lemma unorm_to_uint (p : positive) : unorm (Pos.to_uint p) = Pos.to_uint p.
Proof.
  rewrite <- (DecimalPos.Unsigned.to_of (Pos.to_uint p)).
  rewrite DecimalPos.Unsigned.of_to. reflexivity.
Qed.

Lemma string_of_uint_nonnil (u : uint) :
  u <> Nil -> NilZero.string_of_uint u = NilEmpty.string_of_uint u.
Proof. destruct u; [congruence | reflexivity ..]. Qed.

(** The decimal text of an integer: an optional minus sign, then the
    digits of a numeral in normal form. *)
Lemma string_of_Z_shape (n : Z) :
  exists (negative : bool) (u : uint),
    string_of_Z n
    = (if negative then "-" else "") +:+ NilEmpty.string_of_uint u /\
    unorm u = u /\
    Z.of_int (if negative then Neg u else Pos u) = n /\
    exists d r, NilEmpty.string_of_uint u = String d r /\ digit_of d <> None.
Proof.
  assert (Hd : forall u, u <> Nil ->
    exists d r, NilEmpty.string_of_uint u = String d r /\ digit_of d <> None).
  { intros u Hu. destruct u; [congruence|..]; simpl; eexists _, _;
      (split; [reflexivity | discriminate]). }
  unfold string_of_Z. destruct n as [|p|p].
  - exists false, zero. repeat split. apply Hd. discriminate.
  - exists false, (Pos.to_uint p). simpl.
    rewrite string_of_uint_nonnil by apply DecimalPos.Unsigned.to_uint_nonnil.
    split; [reflexivity|]. split; [apply unorm_to_uint|].
    split; [exact (DecimalZ.of_to (Z.pos p))|].
    apply Hd, DecimalPos.Unsigned.to_uint_nonnil.
  - exists true, (Pos.to_uint p). simpl.
    rewrite string_of_uint_nonnil by apply DecimalPos.Unsigned.to_uint_nonnil.
    split; [reflexivity|]. split; [apply unorm_to_uint|].
    split; [exact (DecimalZ.of_to (Z.neg p))|].
    apply Hd, DecimalPos.Unsigned.to_uint_nonnil.
Qed.

Lemma digit_not_minus d : digit_of d <> None -> Ascii.eqb d "-"%char = false.
Proof.
  intros H. destruct (Ascii.eqb_spec d "-"%char) as [->|]; [|reflexivity].
  exfalso. apply H. reflexivity.
Qed.

Lemma parse_number_print (n : Z) rest :
  closes rest = true ->
  parse_number (string_of_Z n +:+ rest) = Some (VNum n, rest).
Proof.
  intros H. destruct (string_of_Z_shape n) as (neg & u & -> & Hu & Hn & d & r & Hs & Hd).
  unfold parse_number. destruct neg; rewrite ?append_cons, ?append_nil; simpl.
  - rewrite parse_digits_print by assumption.
    rewrite Hu, (internal_uint_dec_lb u u eq_refl), starts_fraction_closes by assumption.
    cbn [andb negb]. rewrite <- Hn. reflexivity.
  - rewrite Hs, append_cons, (digit_not_minus d Hd), <- append_cons, <- Hs.
    rewrite parse_digits_print by assumption.
    rewrite Hu, (internal_uint_dec_lb u u eq_refl), starts_fraction_closes by assumption.
    cbn [andb negb]. rewrite <- Hn. reflexivity.
Qed.

Lemma parse_chars_escape_char c tail t r :
  parse_chars tail = Some (t, r) ->
  parse_chars (escape_char c +:+ tail) = Some (String c t, r).
Proof.
  intros H.
  destruct c as [[] [] [] [] [] [] [] []];
    match goal with
    | |- context [escape_char ?a] =>
        let e := eval vm_compute in (escape_char a) in
        change (escape_char a) with e
    end;
    rewrite ?append_cons, ?append_nil; simpl; rewrite H; reflexivity.
Qed.

Lemma parse_chars_escape s rest :
  parse_chars (escape s +:+ String dquote rest) = Some (s, rest).
Proof.
  induction s as [|c s IH].
  - reflexivity.
  - cbn [escape]. rewrite append_assoc.
    apply parse_chars_escape_char. exact IH.
Qed.

Lemma parse_chars_quote s rest :
  exists tail, quote s +:+ rest = String dquote tail /\
               parse_chars tail = Some (s, rest).
Proof.
  exists (escape s +:+ String dquote rest). split.
  - unfold quote. rewrite append_cons, append_assoc. reflexivity.
  - apply parse_chars_escape.
Qed.

Lemma append_nil_r s : s +:+ "" = s.
Proof.
  induction s as [|c s IH]; [reflexivity|]. rewrite append_cons, IH. reflexivity.
Qed.

Lemma value_ind' (P : value -> Prop) :
  P VUndefined -> P VNull -> (forall b, P (VBool b)) -> (forall n, P (VNum n)) ->
  (forall s, P (VStr s)) ->
  (forall items, Forall P items -> P (VArr items)) ->
  (forall fields, Forall (fun kx => P (snd kx)) fields -> P (VObj fields)) ->
  forall v, P v.
Proof.
  intros Hu Hn Hb Hz Hs Ha Ho.
  fix IH 1. intros [| |b|n|s|items|fields].
  - exact Hu.
  - exact Hn.
  - apply Hb.
  - apply Hz.
  - apply Hs.
  - apply Ha. induction items as [|x items IHl]; constructor; [apply IH | exact IHl].
  - apply Ho. induction fields as [|[k x] fields IHl]; constructor;
      [apply IH | exact IHl].
Qed.

Lemma digit_cases d :
  digit_of d <> None ->
  In d ["0"; "1"; "2"; "3"; "4"; "5"; "6"; "7"; "8"; "9"]%char.
Proof.
  unfold digit_of. intros H.
  repeat match type of H with
         | context [Ascii.eqb d ?x] =>
             destruct (Ascii.eqb_spec d x); [subst; simpl; tauto|]
         end.
  congruence.
Qed.

Lemma number_start c s1 fuel :
  c = "-"%char \/ digit_of c <> None ->
  starts_value c = true /\
  parse_value (S fuel) (String c s1) = parse_number (String c s1).
Proof.
  intros [->|H]; [split; reflexivity|].
  apply digit_cases in H. simpl in H.
  repeat (destruct H as [<-|H]; [split; reflexivity|]). contradiction.
Qed.

Lemma string_of_Z_start n :
  exists c r, string_of_Z n = String c r /\ (c = "-"%char \/ digit_of c <> None).
Proof.
  destruct (string_of_Z_shape n) as (neg & u & -> & _ & _ & d & r & -> & Hd).
  destruct neg.
  - exists "-"%char, (String d r). split; [reflexivity | auto].
  - exists d, r. split; [reflexivity | auto].
Qed.

Lemma stringify_start v t :
  stringify v = Some t ->
  exists c r, t = String c r /\ starts_value c = true.
Proof.
  destruct v as [| |b|n|s|items|fields]; simpl; intros H; inversion H; subst.
  - eexists _, _. split; reflexivity.
  - destruct b; eexists _, _; split; reflexivity.
  - destruct (string_of_Z_start n) as (c & r & -> & Hc).
    exists c, r. split; [reflexivity|]. apply (number_start c r 0 Hc).
  - eexists _, _. split; reflexivity.
  - eexists _, _. split; reflexivity.
  - eexists _, _. split; reflexivity.
Qed.

Lemma skip_ws_start c r : starts_value c = true -> skip_ws (String c r) = String c r.
Proof.
  unfold starts_value. intros H. simpl.
  destruct (is_ws c); [discriminate | reflexivity].
Qed.

Lemma json_data_stringify v :
  json_data v = true -> exists t, stringify v = Some t.
Proof. destruct v; simpl; intros H; try discriminate; eauto. Qed.

Lemma ser_item_stringify x : json_data x = true -> stringify x = Some (ser_item x).
Proof.
  intros H. unfold ser_item. destruct (json_data_stringify x H) as [t ->]. reflexivity.
Qed.

Lemma obj_set_fresh k v (acc : list (string * value)) :
  k ∉ map fst acc -> obj_set k v acc = acc ++ [(k, v)].
Proof.
  induction acc as [|[k' v'] acc IH]; simpl; intros H; [reflexivity|].
  destruct (String.eqb_spec k k') as [->|Hne].
  - exfalso. apply H. left.
  - rewrite IH; [reflexivity|]. intros Hin. apply H. right. exact Hin.
Qed.

Lemma ser_item_start x :
  exists c r, ser_item x = String c r /\ starts_value c = true.
Proof.
  unfold ser_item. destruct (stringify x) as [t|] eqn:E.
  - exact (stringify_start _ _ E).
  - eexists _, _. split; reflexivity.
Qed.

Lemma concat_cons2 sep (x y : string) l :
  String.concat sep (x :: y :: l) = x +:+ sep +:+ String.concat sep (y :: l).
Proof. reflexivity. Qed.

Lemma parse_elements_print items :
  Forall roundtrips items ->
  forall x acc fuel rest,
    roundtrips x ->
    (String.length (String.concat "," (map ser_item (x :: items))) < fuel)%nat ->
    closes rest = true ->
    parse_elements fuel acc
      (String.concat "," (map ser_item (x :: items)) +:+ "]" +:+ rest)
    = Some (VArr (acc ++ x :: items), rest).
Proof.
  intros H. induction H as [|y items Hy _ IH]; intros x acc fuel rest Hx Hf Hr;
    (destruct fuel as [|fuel]; [lia|]); cbn [parse_elements].
  - cbn [map String.concat] in *.
    rewrite (Hx fuel ("]" +:+ rest)) by (try reflexivity; lia).
    reflexivity.
  - cbn [map] in *. rewrite concat_cons2 in *.
    rewrite !length_append in Hf. cbn [String.length] in Hf.
    rewrite !append_assoc.
    rewrite (Hx fuel) by (try reflexivity; lia).
    change ("," +:+ ?t) with (String ","%char t). cbn [skip_ws].
    change (is_ws ","%char) with false. cbv iota.
    change (Ascii.eqb ","%char ","%char) with true. cbv iota.
    rewrite (IH y (acc ++ [x]) fuel rest Hy) by (try assumption; lia).
    rewrite <- app_assoc. reflexivity.
Qed.

Lemma member_read k x fuel tail acc :
  roundtrips x -> (String.length (ser_item x) <= fuel)%nat ->
  closes tail = true ->
  parse_members (S fuel) acc ((quote k +:+ ":" +:+ ser_item x) +:+ tail)
  = match skip_ws tail with
    | EmptyString => None
    | String e r3 =>
        if Ascii.eqb e ","%char then parse_members fuel (obj_set k x acc) r3
        else if Ascii.eqb e "}"%char then Some (VObj (obj_set k x acc), r3)
        else None
    end.
Proof.
  intros Hx Hf Ht. rewrite !append_assoc.
  destruct (parse_chars_quote k (":" +:+ ser_item x +:+ tail)) as (t & -> & Hp).
  cbn [parse_members skip_ws].
  change (is_ws dquote) with false. cbv iota.
  rewrite Ascii.eqb_refl, Hp.
  change (":" +:+ ?t) with (String ":"%char t). cbn [skip_ws].
  change (is_ws ":"%char) with false. cbv iota.
  rewrite Ascii.eqb_refl, (Hx fuel tail Hf Ht). reflexivity.
Qed.

Lemma omap_member_cons k x fields :
  json_data x = true ->
  omap ser_member ((k, x) :: fields)
  = (quote k +:+ ":" +:+ ser_item x) :: omap ser_member fields.
Proof.
  intros H. cbn [omap list_omap]. unfold ser_member at 1. cbn [fst snd].
  rewrite (ser_item_stringify x H). reflexivity.
Qed.

Lemma parse_members_print fields :
  Forall (fun kx => roundtrips (snd kx)) fields ->
  forall k x acc fuel rest,
    roundtrips x ->
    forallb (fun kx => json_data (snd kx)) ((k, x) :: fields) = true ->
    NoDup (map fst (acc ++ (k, x) :: fields)) ->
    (String.length (String.concat "," (omap ser_member ((k, x) :: fields))) < fuel)%nat ->
    closes rest = true ->
    parse_members fuel acc
      (String.concat "," (omap ser_member ((k, x) :: fields)) +:+ "}" +:+ rest)
    = Some (VObj (acc ++ (k, x) :: fields), rest).
Proof.
  intros H. induction H as [|[k' y] fields Hy _ IH];
    intros k x acc fuel rest Hx Hd Hnd Hf Hr;
    (destruct fuel as [|fuel]; [lia|]);
    cbn [forallb snd] in Hd; apply andb_true_iff in Hd; destruct Hd as [Hdx Hd];
    assert (Hk : k ∉ map fst acc)
      by (rewrite map_app in Hnd; apply NoDup_app in Hnd;
          destruct Hnd as (_ & Hnd & _); intros Hin; apply (Hnd _ Hin); left);
    rewrite (omap_member_cons k x _ Hdx) in Hf |- *.
  - cbn [omap list_omap String.concat] in *.
    rewrite !length_append in Hf.
    rewrite member_read by (try reflexivity; try assumption; lia).
    rewrite obj_set_fresh by assumption. reflexivity.
  - assert (Hdy : json_data y = true)
      by (cbn [forallb snd] in Hd; apply andb_true_iff in Hd; tauto).
    rewrite (omap_member_cons k' y _ Hdy) in Hf |- *.
    rewrite concat_cons2 in Hf |- *.
    rewrite <- (omap_member_cons k' y _ Hdy) in Hf |- *.
    set (mx := quote k +:+ ":" +:+ ser_item x) in *.
    rewrite !length_append in Hf. cbn [String.length] in Hf.
    rewrite !append_assoc.
    change ("," +:+ ?t) with (String ","%char t).
    assert (Hlx : (String.length (ser_item x) <= String.length mx)%nat)
      by (unfold mx; rewrite !length_append; lia).
    unfold mx. rewrite member_read by (try reflexivity; try assumption; lia).
    cbn [skip_ws]. change (is_ws ","%char) with false. cbv iota.
    rewrite Ascii.eqb_refl.
    rewrite obj_set_fresh by assumption.
    rewrite (IH k' y (acc ++ [(k, x)]) fuel rest Hy Hd).
    + rewrite <- app_assoc. reflexivity.
    + rewrite <- app_assoc. exact Hnd.
    + lia.
    + assumption.
Qed.

Lemma concat_start (t : string) ts c r :
  t = String c r -> exists r', String.concat "," (t :: ts) = String c r'.
Proof.
  intros ->. destruct ts as [|u ts].
  - exists r. reflexivity.
  - rewrite concat_cons2, append_cons. eexists. reflexivity.
Qed.

Lemma bracket_start c tail fuel :
  starts_value c = true ->
  parse_value (S fuel) (String "["%char (String c tail))
  = parse_elements fuel [] (String c tail).
Proof.
  intros H. cbn [parse_value skip_ws].
  change (is_ws "["%char) with false. cbv iota.
  rewrite (skip_ws_start c tail H).
  unfold starts_value in H. apply andb_true_iff in H. destruct H as [H _].
  apply andb_true_iff in H. destruct H as [_ H]. apply negb_true_iff in H.
  rewrite H. reflexivity.
Qed.

Lemma brace_start tail fuel :
  parse_value (S fuel) (String "{"%char (String dquote tail))
  = parse_members fuel [] (String dquote tail).
Proof. reflexivity. Qed.

Lemma roundtrips_all v : json_data v = true -> roundtrips v.
Proof.
  induction v as [| |b|n|s|items IH|fields IH] using value_ind';
    intros Hd fuel rest Hf Hr.
  - discriminate Hd.
  - destruct fuel; [simpl in Hf; lia | reflexivity].
  - destruct b; (destruct fuel; [simpl in Hf; lia | reflexivity]).
  - change (ser_item (VNum n)) with (string_of_Z n) in *.
    destruct (string_of_Z_start n) as (c & r & E & Hc).
    destruct fuel; [rewrite E in Hf; simpl in Hf; lia|].
    rewrite E, append_cons, (proj2 (number_start c _ fuel Hc)), <- append_cons, <- E.
    apply parse_number_print. exact Hr.
  - change (ser_item (VStr s)) with (quote s) in *.
    destruct fuel; [simpl in Hf; lia|].
    destruct (parse_chars_quote s rest) as (t & -> & Hp).
    cbn [parse_value skip_ws]. change (is_ws dquote) with false. cbv iota.
    change (Ascii.eqb dquote "n"%char) with false.
    change (Ascii.eqb dquote "t"%char) with false.
    change (Ascii.eqb dquote "f"%char) with false. cbv iota.
    rewrite Ascii.eqb_refl, Hp. reflexivity.
  - change (ser_item (VArr items))
      with ("[" +:+ String.concat "," (map ser_item items) +:+ "]") in *.
    destruct fuel; [simpl in Hf; lia|].
    destruct items as [|x items]; [reflexivity|].
    cbn [json_data forallb] in Hd. apply andb_true_iff in Hd. destruct Hd as [Hdx Hd].
    inversion IH as [|? ? IHx IHl]; subst.
    assert (Hall : Forall roundtrips items).
    { clear -IHl Hd. induction IHl as [|y l Hy _ IHl']; constructor;
        cbn [forallb] in Hd; apply andb_true_iff in Hd; destruct Hd; auto. }
    destruct (ser_item_start x) as (c & r & Ex & Hc).
    destruct (concat_start (ser_item x) (map ser_item items) c r Ex) as [r' Ec].
    rewrite append_cons, append_nil in Hf |- *. rewrite append_cons.
    cbn [String.length] in Hf. rewrite length_append in Hf.
    rewrite append_assoc. cbn [map] in *. rewrite Ec at 1. rewrite append_cons.
    rewrite (bracket_start c _ fuel Hc), <- append_cons, <- Ec.
    change (?t +:+ "]" +:+ rest) with (t +:+ "]" +:+ rest).
    change (String.length "]") with 1%nat in Hf.
    apply (parse_elements_print items Hall x [] fuel rest (IHx Hdx));
      [cbn [map]; lia | exact Hr].
  - change (ser_item (VObj fields))
      with ("{" +:+ String.concat "," (omap ser_member fields) +:+ "}") in *.
    destruct fuel; [simpl in Hf; lia|].
    destruct fields as [|[k x] fields]; [reflexivity|].
    cbn [json_data] in Hd. apply andb_true_iff in Hd. destruct Hd as [Hd Hnd].
    apply bool_decide_eq_true in Hnd.
    pose proof Hd as Hd'. cbn [forallb snd] in Hd'.
    apply andb_true_iff in Hd'. destruct Hd' as [Hdx Hdl].
    inversion IH as [|? ? IHx IHl]; subst. cbn [snd] in IHx.
    assert (Hall : Forall (fun kx => roundtrips (snd kx)) fields).
    { clear -IHl Hdl. induction IHl as [|y l Hy _ IHl']; constructor;
        cbn [forallb] in Hdl; apply andb_true_iff in Hdl; destruct Hdl; auto. }
    rewrite append_cons, append_nil in Hf |- *. rewrite append_cons.
    cbn [String.length] in Hf. rewrite length_append in Hf.
    rewrite append_assoc.
    assert (Ec : exists r', String.concat "," (omap ser_member ((k, x) :: fields))
                            = String dquote r').
    { rewrite (omap_member_cons k x _ Hdx).
      eapply concat_start. unfold quote. rewrite append_cons. reflexivity. }
    destruct Ec as [r' Ec]. rewrite Ec at 1. rewrite append_cons.
    rewrite brace_start, <- append_cons, <- Ec.
    change (String.length "}") with 1%nat in Hf.
    apply (parse_members_print fields Hall k x [] fuel rest (IHx Hdx) Hd);
      [exact Hnd | lia | exact Hr].
Qed.

(** What [JSON.stringify] writes for a value of the JSON data model,
    [JSON.parse] reads back as the same value. *)
Lemma JSON_roundtrip v t :
  json_data v = true -> JSON_stringify v = Some t -> JSON_parse t = Some v.
Proof.
  intros Hd Ht. unfold JSON_stringify in Ht.
  assert (Et : ser_item v = t) by (unfold ser_item; rewrite Ht; reflexivity).
  unfold JSON_parse. pose proof (roundtrips_all v Hd (String.length t) "") as H.
  rewrite Et, append_nil_r in H. rewrite H by (try reflexivity; lia). reflexivity.
Qed.

End Json.

(** ** The response finalizer *)

Section Respond.
Variable st : Statuses.
Implicit Types (c : Context).

Lemma respond_may_write c :
  may_write c ->
  respond st c =
    if statuses_empty st (ctx_status c) then
      (Normal, res_end None (set_body_null c))
    else if String.eqb "HEAD" (method c) then
      (Normal, perform st c HeadOnly)
    else
      match body c with
      | BVal VNull | BVal VUndefined =>
          if explicitNullBody c then (Normal, perform st c ExplicitNull)
          else (Normal, perform st c Fallback)
      | BBuffer b => (Normal, res_end (Some (ChunkBuffer b)) c)
      | BVal (VStr s) => (Normal, res_end (Some (ChunkString s)) c)
      | BStream src => (Normal, stream_pipe src c)
      | BVal v =>
          match JSON_stringify v with
          | Some t => (Normal, perform st c (Structured v))
          | None =>
              (Abrupt (TypeError "The string argument must be of type string"), c)
          end
      end.
Proof.
  intros [Hr Hw]. unfold respond. rewrite Hw. cbn [negb].
  assert (E : forall X (a b : X),
    match ctx_respond c with VBool false => a | _ => b end = b).
  { intros X a b. destruct (ctx_respond c) as [| |[]| | | |]; congruence. }
  rewrite E. clear E.
  destruct (statuses_empty st (ctx_status c)); [reflexivity|].
  destruct (String.eqb "HEAD" (method c)); [reflexivity|].
  destruct (body c) as [[| |b|n|s|items|fields]|b|src]; try reflexivity;
    unfold perform; destruct (headersSent (res c)); try reflexivity;
    match goal with
    | |- context [JSON_stringify ?v] => destruct (JSON_stringify v); reflexivity
    end.
Qed.

Lemma selects_unique c b b' : selects st c b -> selects st c b' -> b = b'.
Proof.
  intros H H'. destruct H; inversion H'; subst; try congruence;
    repeat match goal with
           | H1 : body c = _, H2 : body c = _ |- _ =>
               rewrite H1 in H2; inversion H2; subst; clear H2
           | H1 : body c = _, H2 : body_absent (body c) = _ |- _ =>
               rewrite H1 in H2
           | H : forall s, VStr _ <> VStr s |- _ => exfalso; exact (H _ eq_refl)
           end; try congruence; try discriminate.
Qed.

Lemma stringify_structured v :
  structured v = true -> exists t, JSON_stringify v = Some t.
Proof. destruct v; simpl; intros H; try discriminate; eauto. Qed.

(** Every branch of the table makes one call on the transport. *)
Lemma perform_one_call c b :
  selects st c b ->
  exists x, calls (res (perform st c b)) = calls (res c) ++ [x] /\ x <> OnFinished.
Proof.
  intros H. destruct H; cbn [perform].
  - exists (End None). split; [reflexivity | discriminate].
  - exists (End None). split; [|discriminate].
    destruct (negb (headersSent (res c)) && negb (response_has "Content-Length" c));
      [destruct (response_length c)|]; reflexivity.
  - exists (End None). split; [reflexivity | discriminate].
  - exists (End (Some (ChunkString (fallback_body st c)))).
    split; [|discriminate]. destruct (headersSent (res c)); reflexivity.
  - exists (End (Some (ChunkBuffer b))). split; [reflexivity | discriminate].
  - exists (End (Some (ChunkString s))). split; [reflexivity | discriminate].
  - exists (Piped src). split; [reflexivity | discriminate].
  - destruct (stringify_structured v) as [t Et].
    { destruct v; try reflexivity; try discriminate.
      exfalso. eapply H3. reflexivity. }
    rewrite Et. exists (End (Some (ChunkString t))). split; [|discriminate].
    destruct (headersSent (res c)); reflexivity.
Qed.

Lemma respond_selects c :
  may_write c ->
  exists b, selects st c b /\ respond st c = (Normal, perform st c b).
Proof.
  intros Hm. rewrite (respond_may_write c Hm).
  destruct (statuses_empty st (ctx_status c)) eqn:He.
  { exists NoBodyStatus. split; [constructor; assumption | reflexivity]. }
  destruct (String.eqb_spec "HEAD" (method c)) as [Hh|Hh].
  { exists HeadOnly. split; [constructor; auto | reflexivity]. }
  assert (Hh' : method c <> "HEAD") by congruence.
  destruct (body c) as [v|b|src] eqn:Hb.
  - destruct (structured v) eqn:Hv.
    + exists (Structured v).
      destruct (stringify_structured v Hv) as [t Et].
      split.
      * apply selects_Structured; try assumption;
          destruct v; try discriminate; try reflexivity; congruence.
      * destruct v; try discriminate; rewrite Et; reflexivity.
    + destruct v; try discriminate.
      * destruct (explicitNullBody c) eqn:Hx;
          [exists ExplicitNull | exists Fallback];
          (split; [constructor; try assumption; rewrite Hb; reflexivity
                  | reflexivity]).
      * destruct (explicitNullBody c) eqn:Hx;
          [exists ExplicitNull | exists Fallback];
          (split; [constructor; try assumption; rewrite Hb; reflexivity
                  | reflexivity]).
      * exists (Text s). split; [constructor; assumption | reflexivity].
  - exists (RawBytes b). split; [constructor; assumption | reflexivity].
  - exists (StreamBody src). split; [constructor; assumption | reflexivity].
Qed.

Lemma respond_fallback_eq c :
  may_write c ->
  body_absent (body c) = true ->
  statuses_empty st (ctx_status c) = false ->
  method c <> "HEAD" ->
  explicitNullBody c = false ->
  respond st c = (Normal, perform st c Fallback).
Proof.
  intros Hm Hb He Hh Hx. rewrite (respond_may_write c Hm), He.
  destruct (String.eqb_spec "HEAD" (method c)); [congruence|].
  destruct (body c) as [[]| |]; try discriminate; rewrite Hx; reflexivity.
Qed.

(** [respond] never changes the status code. *)
Lemma respond_statusCode c :
  statusCode (res (snd (respond st c))) = statusCode (res c).
Proof.
  destruct (ctx_respond c) as [| |[]| | | |] eqn:Er.
  all: try (unfold respond; rewrite Er; reflexivity).
  all: destruct (writable c) eqn:Ew;
    [|unfold respond; rewrite Er, Ew; reflexivity].
  all: assert (Hm : may_write c) by (split; [congruence | assumption]).
  all: destruct (respond_selects c Hm) as (b & Hb & ->); cbn [snd].
  all: destruct b; cbn [perform];
    repeat match goal with
           | |- context [if ?x then _ else _] => destruct x
           | |- context [match ?x with Some _ => _ | None => _ end] => destruct x
           end; reflexivity.
Qed.

(** C6. With the bypass flag set ([ctx.respond === false]) or a response
    that is no longer writable, [respond] returns the context as it is:
    no call on the transport, no header changed.  Otherwise exactly one
    branch of the decision table is selected, [respond] does what that
    branch says, and this makes exactly one call ([end] or [pipe]) on
    the transport. *)
Theorem respond_guards c :
  (ctx_respond c = VBool false \/ writable c = false ->
   respond st c = (Normal, c)) /\
  (may_write c ->
   exists b, selects st c b /\
             (forall b', selects st c b' -> b' = b) /\
             respond st c = (Normal, perform st c b) /\
             exists x, calls (res (perform st c b)) = calls (res c) ++ [x] /\
                       x <> OnFinished).
Proof.
  split.
  - intros [H|H]; unfold respond; rewrite H; [reflexivity|].
    destruct (ctx_respond c) as [| |[]| | | |]; reflexivity.
  - intros Hm. destruct (respond_selects c Hm) as (b & Hb & Hr). exists b.
    split; [assumption|]. split; [intros b' Hb'; exact (selects_unique c b' b Hb' Hb)|].
    split; [assumption|]. apply perform_one_call. assumption.
Qed.

(** C4. For a context that may be written, whose body is absent, whose
    status is outside the no-body class, whose method is not HEAD and
    whose explicit-null flag is unset, [respond] ends the response with
    the fallback text: the stringified status code when the protocol
    major version is at least 2, otherwise the message of the status,
    or the stringified code if there is none.  If the headers are not
    sent it sets the content type to plain text and the length header to
    the byte length of that text; if they are sent it leaves the headers
    alone. *)
Theorem respond_fallback c :
  may_write c ->
  body_absent (body c) = true ->
  statuses_empty st (ctx_status c) = false ->
  method c <> "HEAD" ->
  explicitNullBody c = false ->
  exists (b : string) (c' : Context),
    respond st c = (Normal, c') /\
    calls (res c') = calls (res c) ++ [End (Some (ChunkString b))] /\
    (2 <= httpVersionMajor c -> b = string_of_Z (ctx_status c)) /\
    (httpVersionMajor c < 2 -> ctx_message st c <> "" -> b = ctx_message st c) /\
    (httpVersionMajor c < 2 -> ctx_message st c = "" ->
     b = string_of_Z (ctx_status c)) /\
    (headersSent (res c) = false ->
     headers (res c')
     = <["Content-Length" := HNum (byteLength b)]>
         (<["Content-Type" := text_plain]> (headers (res c)))) /\
    (headersSent (res c) = true -> headers (res c') = headers (res c)).
Proof.
  intros Hm Hb He Hh Hx.
  exists (fallback_body st c), (perform st c Fallback).
  split; [apply respond_fallback_eq; assumption|].
  split; [cbn [perform]; destruct (headersSent (res c)); reflexivity|].
  unfold fallback_body.
  split; [intros H; destruct (Z.leb_spec 2 (httpVersionMajor c)); [reflexivity | lia]|].
  split.
  { intros H Hne. destruct (Z.leb_spec 2 (httpVersionMajor c)); [lia|].
    destruct (String.eqb_spec (ctx_message st c) ""); [congruence | reflexivity]. }
  split.
  { intros H Hne. destruct (Z.leb_spec 2 (httpVersionMajor c)); [lia|].
    rewrite Hne. reflexivity. }
  split; intros Hs; cbn [perform]; rewrite Hs; reflexivity.
Qed.


(** C7. For a context that may be written, whose body is a Buffer or a
    string, whose status is outside the no-body class and whose method
    is not HEAD, [respond] ends the response with a payload that has
    exactly the bytes of the body, whatever the status code, and changes
    nothing else. *)
Theorem respond_raw c (bs : list Byte.byte) :
  may_write c ->
  statuses_empty st (ctx_status c) = false ->
  method c <> "HEAD" ->
  body_bytes (body c) = Some bs ->
  exists payload : chunk,
    respond st c = (Normal, res_end (Some payload) c) /\
    chunk_bytes payload = bs /\
    calls (res (res_end (Some payload) c)) = calls (res c) ++ [End (Some payload)] /\
    headers (res (res_end (Some payload) c)) = headers (res c).
Proof.
  intros Hm He Hh Hb.
  assert (E : String.eqb "HEAD" (method c) = false)
    by (apply String.eqb_neq; congruence).
  rewrite (respond_may_write c Hm), He, E.
  destruct (body c) as [[| | | |s| |]|b|]; try discriminate; inversion Hb; subst.
  - exists (ChunkString s). repeat split.
  - exists (ChunkBuffer bs). repeat split.
Qed.

(** C8, amended.  For a context that may be written, whose body is a
    value that is neither null nor undefined nor a string, whose status
    is outside the no-body class and whose method is not HEAD,
    [respond] serializes the body with [JSON.stringify], sets the length
    header to the byte length of the text when the headers are not sent,
    and ends the response with the text.  When the body is a value of
    the JSON data model, [JSON.parse] of the text is the body again. *)
Theorem respond_structured c (v : value) :
  may_write c ->
  statuses_empty st (ctx_status c) = false ->
  method c <> "HEAD" ->
  body c = BVal v -> structured v = true ->
  exists (t : string) (c' : Context),
    JSON_stringify v = Some t /\
    respond st c = (Normal, c') /\
    calls (res c') = calls (res c) ++ [End (Some (ChunkString t))] /\
    (headersSent (res c) = false ->
     headers (res c') = <["Content-Length" := HNum (byteLength t)]> (headers (res c))) /\
    (headersSent (res c) = true -> headers (res c') = headers (res c)) /\
    (json_data v = true -> JSON_parse t = Some v).
Proof.
  intros Hm He Hh Hb Hv.
  destruct (stringify_structured v Hv) as [t Et].
  exists t, (perform st c (Structured v)).
  assert (E : String.eqb "HEAD" (method c) = false)
    by (apply String.eqb_neq; congruence).
  split; [assumption|]. split.
  { rewrite (respond_may_write c Hm), He, E, Hb.
    destruct v; try discriminate; rewrite Et; reflexivity. }
  cbn [perform]. rewrite Et.
  split; [destruct (headersSent (res c)); reflexivity|].
  split; [intros Hs; rewrite Hs; reflexivity|].
  split; [intros Hs; rewrite Hs; reflexivity|].
  intros Hd. exact (JSON_roundtrip v t Hd Et).
Qed.

End Respond.

(** *** Examples of the finalizer *)

Lemma sample_may_write : may_write sample_context.
Proof. split; [discriminate | reflexivity]. Qed.

Lemma respond_guards_witness :
  respond sample_statuses
    (mkContext (VBool false) true (mkRes false 200 "" ∅ []) (BVal (VStr "hello"))
               "GET" false 1)
  = (Normal,
     mkContext (VBool false) true (mkRes false 200 "" ∅ []) (BVal (VStr "hello"))
               "GET" false 1) /\
  exists b, selects sample_statuses sample_context b /\
            respond sample_statuses sample_context
            = (Normal, perform sample_statuses sample_context b).
Proof.
  split.
  - apply (proj1 (respond_guards sample_statuses _)). left. reflexivity.
  - destruct (proj2 (respond_guards sample_statuses sample_context) sample_may_write)
      as (b & Hb & _ & Hr & _).
    exists b. split; assumption.
Defined.

(** Status 200, no body, HTTP/1.1, message "OK": the payload is "OK"
    and the length header is 2. *)
Lemma respond_fallback_witness :
  exists c' : Context,
    respond sample_statuses sample_context = (Normal, c') /\
    calls (res c') = [End (Some (ChunkString "OK"))] /\
    headers (res c') !! "Content-Length" = Some (HNum 2) /\
    headers (res c') !! "Content-Type" = Some text_plain.
Proof.
  destruct (respond_fallback sample_statuses sample_context sample_may_write
              eq_refl eq_refl ltac:(discriminate) eq_refl)
    as (b & c' & Hr & Hc & _ & Hb & _ & Hh & _).
  assert (Eb : b = "OK") by (apply Hb; [reflexivity | discriminate]).
  subst b. exists c'. split; [assumption|]. split; [assumption|].
  rewrite (Hh eq_refl). split; reflexivity.
Defined.


Lemma respond_raw_witness :
  exists payload : chunk,
    respond sample_statuses
      (set_statusCode 500 (with_body (BBuffer [Byte.x68; Byte.x69]) sample_context))
    = (Normal,
       res_end (Some payload)
         (set_statusCode 500 (with_body (BBuffer [Byte.x68; Byte.x69]) sample_context))) /\
    chunk_bytes payload = [Byte.x68; Byte.x69].
Proof.
  destruct (respond_raw sample_statuses
              (set_statusCode 500 (with_body (BBuffer [Byte.x68; Byte.x69]) sample_context))
              [Byte.x68; Byte.x69]
              ltac:(split; [discriminate | reflexivity]) eq_refl
              ltac:(discriminate) eq_refl)
    as (payload & Hr & Hb & _).
  exists payload. auto.
Defined.

(** C8, as stated, fails: a body with a field holding [undefined]
    reaches the last branch, is written as the text of the empty
    object, and that text reads back as the empty object, not as the
    body. *)
Lemma respond_structured_lossy :
  let v := VObj [("a", VUndefined)] in
  let c := with_body (BVal v) sample_context in
  may_write c /\ structured v = true /\
  (exists c', respond sample_statuses c = (Normal, c') /\
              calls (res c') = [End (Some (ChunkString "{}"))]) /\
  JSON_stringify v = Some "{}" /\
  JSON_parse "{}" = Some (VObj []) /\
  JSON_parse "{}" <> Some v.
Proof.
  cbv zeta. split; [split; [discriminate | reflexivity]|].
  split; [reflexivity|]. split; [eexists; split; reflexivity|].
  split; [reflexivity|]. split; [reflexivity|]. discriminate.
Qed.

Lemma respond_structured_witness :
  exists (t : string) (c' : Context),
    respond sample_statuses
      (with_body (BVal (VObj [("ok", VBool true); ("n", VArr [VNum 1; VNum (-2)])]))
         sample_context)
    = (Normal, c') /\
    calls (res c') = [End (Some (ChunkString t))] /\
    JSON_parse t = Some (VObj [("ok", VBool true); ("n", VArr [VNum 1; VNum (-2)])]).
Proof.
  destruct (respond_structured sample_statuses
              (with_body (BVal (VObj [("ok", VBool true); ("n", VArr [VNum 1; VNum (-2)])]))
                 sample_context)
              (VObj [("ok", VBool true); ("n", VArr [VNum 1; VNum (-2)])])
              ltac:(split; [discriminate | reflexivity]) eq_refl
              ltac:(discriminate) eq_refl eq_refl)
    as (t & c' & _ & Hr & Hc & _ & _ & Hp).
  exists t, c'. split; [assumption|]. split; [assumption|].
  apply Hp. vm_compute. reflexivity.
Defined.

(** ** The request handler *)

Section HandleRequest.
Variable st : Statuses.
Variable ctx_onerror : thrown -> Context -> Context.

(** C10, amended.  [handleRequest] sets the status code of the
    transport response to 404 and then invokes the composed handler on
    that context.  If the handler resolves without assigning a status or
    a body to a context that had no body, [respond] completes and the
    response still carries status 404; and when the finalizer may write,
    the method is not HEAD, the explicit-null flag is unset and 404 is
    outside the no-body class, the response is ended with the fallback
    text for 404 of the null-body branch. *)
Theorem handleRequest_default_404 c (fnMiddleware : Context -> result * Context)
    (c' : Context) :
  assigns_no_status_body fnMiddleware ->
  body_absent (body c) = true ->
  fnMiddleware (on_finished (set_statusCode 404 c)) = (Resolved, c') ->
  statusCode (res (on_finished (set_statusCode 404 c))) = 404 /\
  handleRequest st ctx_onerror c fnMiddleware = snd (respond st c') /\
  fst (respond st c') = Normal /\
  statusCode (res (handleRequest st ctx_onerror c fnMiddleware)) = 404 /\
  (may_write c' -> method c' <> "HEAD" -> explicitNullBody c' = false ->
   statuses_empty st 404 = false ->
   calls (res (handleRequest st ctx_onerror c fnMiddleware))
   = calls (res c') ++ [End (Some (ChunkString (fallback_body st c')))] /\
   fallback_body st c'
   = (if 2 <=? httpVersionMajor c' then "404"
      else if String.eqb (ctx_message st c') "" then "404"
      else ctx_message st c')).
Proof.
  intros Hfn Hb E.
  destruct (Hfn _ _ _ E) as [Hs Hb'].
  change (statusCode (res (on_finished (set_statusCode 404 c)))) with 404 in Hs.
  change (body (on_finished (set_statusCode 404 c))) with (body c) in Hb'.
  assert (Hn : fst (respond st c') = Normal).
  { unfold respond.
    destruct (ctx_respond c') as [| |[]| | | |]; try reflexivity;
      (destruct (writable c'); [|reflexivity]); cbn [negb];
      (destruct (statuses_empty st (ctx_status c')); [reflexivity|]);
      (destruct (String.eqb "HEAD" (method c')); [reflexivity|]);
      rewrite Hb'; destruct (body c) as [[]| |]; try discriminate;
      destruct (explicitNullBody c'); reflexivity. }
  assert (Hh : handleRequest st ctx_onerror c fnMiddleware = snd (respond st c')).
  { unfold handleRequest. rewrite E.
    destruct (respond st c') as [[|t] c'']; [reflexivity | discriminate Hn]. }
  split; [reflexivity|]. split; [assumption|]. split; [assumption|].
  split; [rewrite Hh, respond_statusCode; assumption|].
  intros Hm Hhead Hx He.
  assert (Hab : body_absent (body c') = true) by (rewrite Hb'; assumption).
  assert (He' : statuses_empty st (ctx_status c') = false)
    by (unfold ctx_status; rewrite Hs; assumption).
  pose proof (respond_fallback_eq st c' Hm Hab He' Hhead Hx) as Hr.
  split.
  - rewrite Hh, Hr. cbn [snd perform]. destruct (headersSent (res c')); reflexivity.
  - unfold fallback_body, ctx_status. rewrite Hs. reflexivity.
Qed.

End HandleRequest.

(** A handler composed of middleware that assign neither status nor
    body assigns neither. *)
Lemma exec_assigns_nothing (m : middleware Context) (next : M Context) :
  assigns_nothing m ->
  (forall r o r', next r = (o, r') ->
     statusCode (res (ctx r')) = statusCode (res (ctx r)) /\
     body (ctx r') = body (ctx r)) ->
  forall r o r', exec m next r = (o, r') ->
    statusCode (res (ctx r')) = statusCode (res (ctx r)) /\
    body (ctx r') = body (ctx r).
Proof.
  intros Hm Hnext. induction Hm as [|f|f k Hf _ IH|k _ IH|k _ IH];
    intros r o r' E; simpl in E.
  - inversion E; subst. auto.
  - inversion E; subst. auto.
  - destruct (IH _ _ _ E) as [H1 H2]. cbn [set_ctx ctx] in H1, H2.
    destruct (Hf (ctx r)) as [H3 H4]. split; congruence.
  - exact (IH _ _ _ _ E).
  - destruct (next r) as [o1 r1] eqn:E1.
    destruct (Hnext _ _ _ E1) as [H1 H2].
    destruct (IH _ _ _ _ E) as [H3 H4]. split; congruence.
Qed.

Lemma dispatch_assigns_nothing (rest : list (middleware Context)) :
  Forall assigns_nothing rest ->
  forall i r o r', dispatch rest None i r = (o, r') ->
    statusCode (res (ctx r')) = statusCode (res (ctx r)) /\
    body (ctx r') = body (ctx r).
Proof.
  intros H. induction H as [|fn rest Hfn _ IH]; intros i r o r' E; simpl in E;
    destruct (i <=? index r); try (inversion E; subst; auto; fail).
  apply (exec_assigns_nothing fn _ Hfn (IH (i + 1))) in E. exact E.
Qed.

Lemma fnMiddleware_of_assigns_nothing (mws : list (middleware Context)) :
  Forall assigns_nothing mws -> assigns_no_status_body (fnMiddleware_of mws).
Proof.
  intros H c o c' E. unfold fnMiddleware_of, compose in E.
  destruct (dispatch mws None 0 _) as [o1 r1] eqn:E1. inversion E; subst.
  exact (dispatch_assigns_nothing mws H _ _ _ _ E1).
Qed.

(** C10, as stated, fails for a HEAD request: with no middleware at all
    the response carries status 404 and is ended without any body. *)
Lemma handleRequest_head_no_body :
  let c := handleRequest sample_statuses (fun _ x => x)
             (with_method "HEAD" sample_context) (fnMiddleware_of []) in
  statusCode (res c) = 404 /\ calls (res c) = [OnFinished; End None].
Proof. vm_compute. split; reflexivity. Qed.

(** A GET request through two middleware that only call [next]: status
    404 and the body "Not Found". *)
Lemma handleRequest_default_404_witness :
  let c := handleRequest sample_statuses (fun _ x => x) sample_context
             (fnMiddleware_of [Next (fun _ => Return); Next (fun _ => Return)]) in
  statusCode (res c) = 404 /\
  calls (res c) = [OnFinished; End (Some (ChunkString "Not Found"))].
Proof.
  destruct (handleRequest_default_404 sample_statuses (fun _ x => x) sample_context
              (fnMiddleware_of [Next (fun _ => Return); Next (fun _ => Return)])
              (on_finished (set_statusCode 404 sample_context))
              ltac:(apply fnMiddleware_of_assigns_nothing; repeat constructor)
              eq_refl eq_refl)
    as (_ & _ & _ & Hs & Hc).
  split; [exact Hs|].
  destruct (Hc ltac:(split; [discriminate | reflexivity]) ltac:(discriminate)
               eq_refl eq_refl) as [Hc' _].
  exact Hc'.
Defined.

(** ** The default error handler *)

(** C9. Given a value that is not an [Error], [onerror] throws (a
    [TypeError]) and writes nothing.  Given an [Error] whose status is
    404 or whose [expose] flag is set, or when the application is
    silent, it returns without writing anything.  Otherwise it writes
    the stack of the error, or its text when there is no stack,
    indented between two empty lines, to the error console, and
    returns. *)
Theorem onerror_cases (silent : value) (console : list string) :
  (forall v, exists msg,
     onerror silent (ThrownValue v) console = (Abrupt (TypeError msg), console)) /\
  (forall e, err_status e = VNum 404 \/ truthy (err_expose e) = true \/
             truthy silent = true ->
     onerror silent (ThrownError e) console = (Normal, console)) /\
  (forall e, err_status e <> VNum 404 -> truthy (err_expose e) = false ->
             truthy silent = false ->
     onerror silent (ThrownError e) console
     = (Normal, console ++ [""; indent (diagnostic e); ""]) /\
     (forall s, err_stack e = Some s -> s <> "" -> diagnostic e = s) /\
     (err_stack e = None -> diagnostic e = Error_toString e)).
Proof.
  split; [intros v; eexists; reflexivity|]. split.
  - intros e [H|[H|H]]; unfold onerror.
    + rewrite H. reflexivity.
    + rewrite H, orb_true_r. reflexivity.
    + rewrite H. destruct (is_404 (err_status e) || truthy (err_expose e)); reflexivity.
  - intros e Hs He Hq. split; [|split].
    + unfold onerror. rewrite He, Hq, orb_false_r.
      assert (E : is_404 (err_status e) = false).
      { destruct (err_status e) as [| | |n| | |]; try reflexivity. simpl.
        destruct (Z.eqb_spec n 404); [congruence | reflexivity]. }
      rewrite E. reflexivity.
    + intros s E Hne. unfold diagnostic. rewrite E.
      destruct (String.eqb_spec s ""); [congruence | reflexivity].
    + intros E. unfold diagnostic. rewrite E. reflexivity.
Qed.

Lemma onerror_cases_witness :
  onerror VUndefined
    (ThrownError (mkError "Error" "boom" None (VNum 404) VUndefined)) []
  = (Normal, []) /\
  onerror VUndefined
    (ThrownError (mkError "Error" "boom" None (VNum 500) VUndefined)) []
  = (Normal, [""; "  Error: boom"; ""]).
Proof.
  destruct (onerror_cases VUndefined []) as (_ & H1 & H2). split.
  - apply H1. left. reflexivity.
  - destruct (H2 (mkError "Error" "boom" None (VNum 500) VUndefined)
                ltac:(discriminate) eq_refl eq_refl) as [H _].
    exact H.
Defined.

(* ===================================================================== *)
(** * Part II, continued: the rest of [application.js] *)
(* ===================================================================== *)

(** ** Reading and writing the heap *)

Section HeapMore.
Implicit Types (h ext : heap) (l p o : loc) (k : string) (v : oval).

(** One step of a property read. *)
Lemma get_unfold h l obj k :
  heap_wf h -> h !! l = Some obj ->
  get h l k
  = match props obj !! k with
    | Some v => v
    | None => match proto obj with
              | Some p => get h p k
              | None => OUndefined
              end
    end.
Proof.
  intros Hwf Hl. unfold get at 1.
  assert (Hlt : (l < length h)%nat) by (eapply lookup_lt_Some; eassumption).
  destruct (length h) as [|n] eqn:En; [lia|]. cbn [get_from]. rewrite Hl.
  destruct (props obj !! k); [reflexivity|].
  destruct (proto obj) as [p|] eqn:Hp; [|reflexivity].
  pose proof (Hwf _ _ _ Hl Hp) as Hpl. unfold get. rewrite En.
  apply get_from_fuel; [assumption | lia | lia].
Qed.

Lemma get_dangling h l k : h !! l = None -> get h l k = OUndefined.
Proof.
  intros Hl. unfold get. destruct (length h); [reflexivity|].
  cbn [get_from]. rewrite Hl. reflexivity.
Qed.

Lemma set_length_heap h l k v : length (set h l k v) = length h.
Proof. unfold set. apply length_alter. Qed.

Lemma set_lookup_ne h o l k v : o <> l -> set h o k v !! l = h !! l.
Proof. intros H. unfold set. apply list_lookup_alter_ne. assumption. Qed.

Lemma set_lookup_eq h l k v :
  set h l k v !! l = set_own k v <$> h !! l.
Proof. unfold set. apply list_lookup_alter_eq. Qed.

Lemma set_wf h o k v : heap_wf h -> heap_wf (set h o k v).
Proof.
  intros Hwf l obj p Hl Hp. destruct (decide (o = l)) as [->|Hne].
  - rewrite set_lookup_eq in Hl. destruct (h !! l) as [obj'|] eqn:E; [|discriminate].
    inversion Hl; subst. exact (Hwf _ _ _ E Hp).
  - rewrite set_lookup_ne in Hl by assumption. exact (Hwf _ _ _ Hl Hp).
Qed.

Lemma set_closed h o k v :
  heap_closed h -> oval_closed h v -> heap_closed (set h o k v).
Proof.
  intros Hcl Hv l obj k' p Hl Hk. rewrite set_length_heap.
  destruct (decide (o = l)) as [->|Hne].
  - rewrite set_lookup_eq in Hl. destruct (h !! l) as [obj'|] eqn:E; [|discriminate].
    inversion Hl; subst. cbn [set_own props] in Hk.
    destruct (decide (k = k')) as [->|Hk'].
    + rewrite lookup_insert_eq in Hk. inversion Hk; subst. exact Hv.
    + rewrite lookup_insert_ne in Hk by assumption. exact (Hcl _ _ _ _ E Hk).
  - rewrite set_lookup_ne in Hl by assumption. exact (Hcl _ _ _ _ Hl Hk).
Qed.

(** A write is read back. *)
Lemma get_set_same h l k v :
  heap_wf h -> (l < length h)%nat -> get (set h l k v) l k = v.
Proof.
  intros Hwf Hl. destruct (lookup_lt_is_Some_2 h l Hl) as [obj Ho].
  rewrite (get_unfold _ l (set_own k v obj)).
  - cbn [set_own props]. rewrite lookup_insert_eq. reflexivity.
  - apply set_wf. assumption.
  - rewrite set_lookup_eq, Ho. reflexivity.
Qed.

(** A write on a newer object is not seen from an older one. *)
Lemma get_set_above h o l k v k' :
  heap_wf h -> (l < o)%nat -> get (set h o k v) l k' = get h l k'.
Proof.
  intros Hwf. revert l. unfold get. rewrite set_length_heap.
  induction (length h) as [|n IH]; intros l Hl; [reflexivity|]. cbn [get_from].
  rewrite set_lookup_ne by lia.
  destruct (h !! l) as [obj|] eqn:E; [|reflexivity].
  destruct (props obj !! k'); [reflexivity|].
  destruct (proto obj) as [p|] eqn:Hp; [|reflexivity].
  specialize (Hwf _ _ _ E Hp). apply IH. lia.
Qed.

(** A write under another key is not seen at all. *)
Lemma get_set_other_key h o l k v k' :
  k <> k' -> get (set h o k v) l k' = get h l k'.
Proof.
  intros Hk. revert l. unfold get. rewrite set_length_heap.
  induction (length h) as [|n IH]; intros l; [reflexivity|]. cbn [get_from].
  destruct (decide (o = l)) as [->|Hne].
  - rewrite set_lookup_eq. destruct (h !! l) as [obj|] eqn:E; [|reflexivity].
    cbn [fmap option_fmap option_map set_own props proto].
    rewrite lookup_insert_ne by assumption.
    destruct (props obj !! k'); [reflexivity|].
    destruct (proto obj); [apply IH | reflexivity].
  - rewrite set_lookup_ne by assumption.
    destruct (h !! l) as [obj|] eqn:E; [|reflexivity].
    destruct (props obj !! k'); [reflexivity|].
    destruct (proto obj); [apply IH | reflexivity].
Qed.

End HeapMore.

(** ** The context factory, continued *)

Section FactoryMore.
Variable object_prototype : loc.
Implicit Types (h : heap) (this c : loc) (req res : oval).

Ltac gstep :=
  unfold hbind at 1;
  first [ rewrite get_prop_suffix by assumption
        | rewrite alloc_suffix
        | rewrite set_prop_suffix ];
  cbn [length app alter list_alter set_own proto props].

Ltac gcreate H :=
  unfold hbind at 1;
  first [ rewrite (Object_create_suffix _ _ _ _ H); cbn [length app]
        | rewrite (Object_create_throws _ _ H); reflexivity ].

(** What [createContext] returns, in closed form. *)
Lemma createContext_eq this req res h :
  heap_wf h -> (this < length h)%nat -> oval_closed h req ->
  createContext object_prototype this req res h
  = match template_proto (get h this "context") with
    | None => None
    | Some pc =>
        match template_proto (get h this "request") with
        | None => None
        | Some pr =>
            match template_proto (get h this "response") with
            | None => None
            | Some ps =>
                match req_url h req with
                | None => None
                | Some url =>
                    Some (length h,
                          h ++ context_objects object_prototype pc pr ps
                                 (length h) this req res url)
                end
            end
        end
    end.
Proof.
  intros Hwf Hthis Hreq.
  transitivity (createContext object_prototype this req res (h ++ []));
    [rewrite app_nil_r; reflexivity|].
  unfold createContext.
  destruct (template_proto (get h this "context")) as [pc|] eqn:Hpc;
    gstep; gcreate Hpc.
  destruct (template_proto (get h this "request")) as [pr|] eqn:Hpr;
    gstep; gcreate Hpr.
  gstep.
  destruct (template_proto (get h this "response")) as [ps|] eqn:Hps;
    gstep; gcreate Hps.
  do 14 gstep.
  unfold hbind at 1.
  destruct req as [| |b|n|s|l]; cbn [member req_url]; try reflexivity.
  all: try (unfold hret at 1; do 2 gstep; unfold new_object; do 2 gstep;
            unfold hret; rewrite Nat.add_0_r; reflexivity).
  rewrite get_prop_suffix by assumption.
  do 2 gstep. unfold new_object. do 2 gstep.
  unfold hret. rewrite Nat.add_0_r. reflexivity.
Qed.

Lemma req_url_closed h req url :
  heap_closed h -> req_url h req = Some url -> oval_closed h url.
Proof.
  intros Hcl H. destruct req; simpl in H; inversion H; subst; simpl; auto.
  destruct (get h l "url") eqn:E; simpl; auto.
  exact (get_from_closed _ _ _ Hcl _ _ E).
Qed.

Lemma context_objects_below h pc pr ps c this req res url :
  (object_prototype < length h)%nat ->
  (forall p, pc = Some p -> (p < length h)%nat) ->
  (forall p, pr = Some p -> (p < length h)%nat) ->
  (forall p, ps = Some p -> (p < length h)%nat) ->
  protos_below (length h)
    (context_objects object_prototype pc pr ps c this req res url).
Proof.
  intros Hop Hc Hr Hs. repeat constructor; simpl; auto.
  intros p Hp. inversion Hp; subst. assumption.
Qed.

Lemma heap_closed_app h ext :
  heap_closed h ->
  Forall (fun o => forall k p, props o !! k = Some (ORef p) ->
                               (p < length h + length ext)%nat) ext ->
  heap_closed (h ++ ext).
Proof.
  intros Hcl Hext l o k p Hl Hk. rewrite length_app.
  destruct (decide (l < length h)%nat) as [Hlt|Hge].
  - rewrite lookup_app_l in Hl by assumption.
    pose proof (Hcl _ _ _ _ Hl Hk). lia.
  - rewrite lookup_app_r in Hl by lia.
    rewrite Forall_forall in Hext. apply list_elem_of_lookup_2 in Hl.
    exact (Hext _ Hl _ _ Hk).
Qed.

Lemma context_objects_closed h pc pr ps this req res url :
  (this < length h)%nat -> oval_closed h req -> oval_closed h res ->
  oval_closed h url ->
  Forall (fun o => forall k p, props o !! k = Some (ORef p) ->
                               (p < length h + 4)%nat)
    (context_objects object_prototype pc pr ps (length h) this req res url).
Proof.
  intros Hthis Hreq Hres Hurl.
  assert (Hv : forall v p, oval_closed h v -> v = ORef p -> (p < length h + 4)%nat).
  { intros v p Hc ->. simpl in Hc. lia. }
  repeat constructor; cbn [props]; intros k p Hk;
    rewrite ?lookup_insert_Some, ?lookup_empty in Hk;
    repeat match goal with
           | H : _ \/ _ |- _ => destruct H
           | H : _ /\ _ |- _ => destruct H
           end;
    try discriminate;
    try (eapply Hv; [|eassumption]; assumption);
    match goal with
    | H : ORef _ = ORef _ |- _ => inversion H; subst; lia
    end.
Qed.

(** The state of the heap after a call that returns. *)
Lemma createContext_created this req res h c h' :
  heap_wf h -> heap_closed h -> (this < length h)%nat ->
  (object_prototype < length h)%nat -> oval_closed h req ->
  createContext object_prototype this req res h = Some (c, h') ->
  exists pc pr ps url,
    template_proto (get h this "context") = Some pc /\
    template_proto (get h this "request") = Some pr /\
    template_proto (get h this "response") = Some ps /\
    req_url h req = Some url /\
    c = length h /\
    h' = h ++ context_objects object_prototype pc pr ps (length h) this req res url /\
    protos_below (length h)
      (context_objects object_prototype pc pr ps (length h) this req res url).
Proof.
  intros Hwf Hcl Hthis Hop Hreq E.
  rewrite createContext_eq in E by assumption.
  destruct (template_proto (get h this "context")) as [pc|] eqn:Hpc; [|discriminate].
  destruct (template_proto (get h this "request")) as [pr|] eqn:Hpr; [|discriminate].
  destruct (template_proto (get h this "response")) as [ps|] eqn:Hps; [|discriminate].
  destruct (req_url h req) as [url|] eqn:Hurl; [|discriminate].
  inversion E; subst. exists pc, pr, ps, url. repeat split; try reflexivity.
  apply context_objects_below; try assumption; intros p Hp.
  - exact (template_below _ _ _ _ _ Hcl Hpc Hp).
  - exact (template_below _ _ _ _ _ Hcl Hpr Hp).
  - exact (template_below _ _ _ _ _ Hcl Hps Hp).
Qed.

(** Reading through one of the four objects of a new context. *)
Lemma created_get h pc pr ps this req res url l j k :
  heap_wf h ->
  protos_below (length h)
    (context_objects object_prototype pc pr ps (length h) this req res url) ->
  l = (length h + j)%nat ->
  get (h ++ context_objects object_prototype pc pr ps (length h) this req res url)
      l k
  = match context_objects object_prototype pc pr ps (length h) this req res url !! j with
    | Some o =>
        match props o !! k with
        | Some v => v
        | None => match proto o with
                  | Some p => get h p k
                  | None => OUndefined
                  end
        end
    | None => OUndefined
    end.
Proof.
  intros Hwf Hext ->.
  destruct (context_objects _ _ _ _ _ _ _ _ _ !! j) as [o|] eqn:Ho.
  - apply get_fresh; assumption.
  - apply get_dangling. rewrite lookup_app_r by lia.
    replace (length h + j - length h)%nat with j by lia. exact Ho.
Qed.

(** X1. The cross-links of a new context: [ctx.request], [ctx.response] and
    [ctx.state] are objects, request and response know the context and
    each other. *)
Theorem createContext_links this req res h c h' :
  heap_wf h -> heap_closed h -> (this < length h)%nat ->
  (object_prototype < length h)%nat -> oval_closed h req ->
  createContext object_prototype this req res h = Some (c, h') ->
  exists request response state : loc,
    NoDup [c; request; response; state] /\
    get h' c "request" = ORef request /\
    get h' c "response" = ORef response /\
    get h' c "state" = ORef state /\
    get h' request "ctx" = ORef c /\
    get h' response "ctx" = ORef c /\
    get h' request "response" = ORef response /\
    get h' response "request" = ORef request.
Proof.
  intros Hwf Hcl Hthis Hop Hreq E.
  destruct (createContext_created _ _ _ _ _ _ Hwf Hcl Hthis Hop Hreq E)
    as (pc & pr & ps & url & _ & _ & _ & _ & -> & -> & Hext).
  exists (length h + 1)%nat, (length h + 2)%nat, (length h + 3)%nat.
  split.
  { apply NoDup_ListNoDup. repeat (constructor; [simpl; lia|]). constructor. }
  rewrite !(created_get _ _ _ _ _ _ _ _ (length h) 0%nat) by (try assumption; lia).
  rewrite !(created_get _ _ _ _ _ _ _ _ (length h + 1)%nat 1%nat)
    by (try assumption; lia).
  rewrite !(created_get _ _ _ _ _ _ _ _ (length h + 2)%nat 2%nat)
    by (try assumption; lia).
  repeat split; reflexivity.
Qed.

(** X2. The application and the raw request and response are attached to
    the context and to both facades alike, and the path of the request
    at the time of the call is recorded on the context and on the
    request facade. *)
Theorem createContext_attaches this req res h c h' :
  heap_wf h -> heap_closed h -> (this < length h)%nat ->
  (object_prototype < length h)%nat -> oval_closed h req ->
  createContext object_prototype this req res h = Some (c, h') ->
  forall o, ORef o = ORef c \/ ORef o = get h' c "request" \/
            ORef o = get h' c "response" ->
    get h' o "app" = ORef this /\
    get h' o "req" = req /\
    get h' o "res" = res /\
    (ORef o <> get h' c "response" ->
     req_url h req = Some (get h' o "originalUrl")).
Proof.
  intros Hwf Hcl Hthis Hop Hreq E.
  destruct (createContext_created _ _ _ _ _ _ Hwf Hcl Hthis Hop Hreq E)
    as (pc & pr & ps & url & _ & _ & _ & Hurl & -> & -> & Hext).
  intros o.
  rewrite !(created_get _ _ _ _ _ _ _ _ (length h) 0%nat) by (try assumption; lia).
  cbn [context_objects lookup list_lookup props].
  change (<["state":=ORef (length h + 3)]> _ !! "request")
    with (Some (ORef (length h + 1)%nat)).
  change (<["state":=ORef (length h + 3)]> _ !! "response")
    with (Some (ORef (length h + 2)%nat)).
  intros [Ho|[Ho|Ho]]; inversion Ho; subst o.
  - rewrite !(created_get _ _ _ _ _ _ _ _ (length h) 0%nat) by (try assumption; lia).
    repeat split; try reflexivity. intros _. rewrite Hurl. reflexivity.
  - rewrite !(created_get _ _ _ _ _ _ _ _ (length h + 1)%nat 1%nat)
      by (try assumption; lia).
    repeat split; try reflexivity. intros _. rewrite Hurl. reflexivity.
  - rewrite !(created_get _ _ _ _ _ _ _ _ (length h + 2)%nat 2%nat)
      by (try assumption; lia).
    repeat split; try reflexivity. intros H. congruence.
Qed.

(** X3. [createContext] only adds objects: it adds four, changes no object
    that was there and no read through one, and keeps the heap well
    formed and closed. *)
Theorem createContext_frame this req res h c h' :
  heap_wf h -> heap_closed h -> (this < length h)%nat ->
  (object_prototype < length h)%nat -> oval_closed h req -> oval_closed h res ->
  createContext object_prototype this req res h = Some (c, h') ->
  length h' = (length h + 4)%nat /\
  (forall l, (l < length h)%nat -> h' !! l = h !! l) /\
  (forall l k, (l < length h)%nat -> get h' l k = get h l k) /\
  heap_wf h' /\ heap_closed h'.
Proof.
  intros Hwf Hcl Hthis Hop Hreq Hres E.
  destruct (createContext_created _ _ _ _ _ _ Hwf Hcl Hthis Hop Hreq E)
    as (pc & pr & ps & url & _ & _ & _ & Hurl & -> & -> & Hext).
  split; [rewrite length_app; reflexivity|].
  split; [intros l Hl; apply lookup_app_l; assumption|].
  split; [intros l k Hl; apply get_prefix; assumption|].
  split; [apply heap_wf_app; assumption|].
  apply heap_closed_app; [assumption|].
  apply context_objects_closed; try assumption.
  exact (req_url_closed _ _ _ Hcl Hurl).
Qed.

(** X4. [createContext] throws exactly when one of the three templates of
    the application is neither an object nor [null], or the raw request
    is [undefined] or [null]. *)
Theorem createContext_throws_iff this req res h :
  heap_wf h -> (this < length h)%nat -> oval_closed h req ->
  (createContext object_prototype this req res h = None <->
   template_proto (get h this "context") = None \/
   template_proto (get h this "request") = None \/
   template_proto (get h this "response") = None \/
   req = OUndefined \/ req = ONull).
Proof.
  intros Hwf Hthis Hreq. rewrite createContext_eq by assumption.
  destruct (template_proto (get h this "context")); [|tauto].
  destruct (template_proto (get h this "request")); [|tauto].
  destruct (template_proto (get h this "response")); [|tauto].
  destruct req; cbn [req_url]; split; intros H; try discriminate; auto;
    repeat (destruct H as [H|H]; try discriminate).
Qed.

(** X5. [originalUrl] is a snapshot: changing the path on the raw request
    afterwards changes neither [ctx.originalUrl] nor
    [ctx.request.originalUrl]. *)
Theorem createContext_originalUrl_snapshot this (r : loc) res h c h' v :
  heap_wf h -> heap_closed h -> (this < length h)%nat ->
  (object_prototype < length h)%nat -> (r < length h)%nat -> oval_closed h res ->
  createContext object_prototype this (ORef r) res h = Some (c, h') ->
  get (set h' r "url" v) c "originalUrl" = get h r "url" /\
  exists request, get h' c "request" = ORef request /\
    get (set h' r "url" v) request "originalUrl" = get h r "url".
Proof.
  intros Hwf Hcl Hthis Hop Hr Hres E.
  assert (Hreq : oval_closed h (ORef r)) by exact Hr.
  destruct (createContext_created _ _ _ _ _ _ Hwf Hcl Hthis Hop Hreq E)
    as (pc & pr & ps & url & _ & _ & _ & Hurl & -> & -> & Hext).
  cbn [req_url] in Hurl. inversion Hurl; subst url.
  split; [|exists (length h + 1)%nat; split].
  - rewrite get_set_other_key by discriminate.
    rewrite (created_get _ _ _ _ _ _ _ _ (length h) 0%nat) by (try assumption; lia).
    reflexivity.
  - rewrite (created_get _ _ _ _ _ _ _ _ (length h) 0%nat) by (try assumption; lia).
    reflexivity.
  - rewrite get_set_other_key by discriminate.
    rewrite (created_get _ _ _ _ _ _ _ _ (length h + 1)%nat 1%nat)
      by (try assumption; lia).
    reflexivity.
Qed.

(** X6. The context delegates to the context template of the application
    for every key it does not hold itself, also for properties the
    template gets after the context was made; the keys it holds itself
    shadow the template. *)
Theorem createContext_delegates this req res h c h' (tc : loc) k v :
  heap_wf h -> heap_closed h -> (this < length h)%nat ->
  (object_prototype < length h)%nat -> oval_closed h req -> oval_closed h res ->
  get h this "context" = ORef tc ->
  createContext object_prototype this req res h = Some (c, h') ->
  (k ∉ context_keys -> get h' c k = get h tc k) /\
  (k ∉ context_keys -> get (set h' tc k v) c k = v) /\
  (k ∈ context_keys -> get (set h' tc k v) c k = get h' c k).
Proof.
  intros Hwf Hcl Hthis Hop Hreq Hres Htc E.
  destruct (createContext_created _ _ _ _ _ _ Hwf Hcl Hthis Hop Hreq E)
    as (pc & pr & ps & url & Hpc & _ & _ & _ & -> & -> & Hext).
  pose proof (heap_wf_app _ _ Hwf Hext) as Hwf'.
  rewrite Htc in Hpc. cbn [template_proto] in Hpc. inversion Hpc; subst pc.
  assert (Htcl : (tc < length h)%nat).
  { unfold get in Htc. exact (get_from_closed _ _ _ Hcl _ _ Htc). }
  set (ext := context_objects object_prototype (Some tc) pr ps (length h)
                this req res url) in *.
  assert (Hc : forall H : heap, (forall l, (length h <= l)%nat -> H !! l = (h ++ ext) !! l) ->
                 H !! length h = ext !! 0%nat).
  { intros H HH. rewrite HH by lia. rewrite lookup_app_r by lia.
    rewrite Nat.sub_diag. reflexivity. }
  assert (Hset : set (h ++ ext) tc k v !! length h = ext !! 0%nat).
  { apply Hc. intros l Hl. apply set_lookup_ne. lia. }
  assert (Hlen : (tc < length (h ++ ext))%nat) by (rewrite length_app; lia).
  split; [|split].
  - intros Hk.
    destruct (context_objects_unset object_prototype (Some tc) pr ps (length h)
                this req res url k Hk) as (m & Em & Hm).
    unfold ext.
    rewrite (created_get _ _ _ _ _ _ _ _ (length h) 0%nat) by (try assumption; lia).
    rewrite Em. cbn [props proto]. rewrite Hm. reflexivity.
  - intros Hk.
    destruct (context_objects_unset object_prototype (Some tc) pr ps (length h)
                this req res url k Hk) as (m & Em & Hm).
    fold ext in Em. rewrite Em in Hset.
    rewrite (get_unfold _ _ _ k (set_wf _ tc k v Hwf') Hset).
    cbn [props proto]. rewrite Hm. apply get_set_same; assumption.
  - intros Hk.
    assert (Hown : exists o w, ext !! 0%nat = Some o /\ props o !! k = Some w).
    { unfold context_keys in Hk. rewrite !elem_of_cons, elem_of_nil in Hk.
      repeat (destruct Hk as [->|Hk];
              [eexists _, _; split; reflexivity|]).
      contradiction. }
    destruct Hown as (o & w & Eo & Ew).
    rewrite Eo in Hset.
    rewrite (get_unfold _ _ _ k (set_wf _ tc k v Hwf') Hset), Ew.
    assert (Hh : (h ++ ext) !! length h = Some o).
    { rewrite lookup_app_r by lia. rewrite Nat.sub_diag. exact Eo. }
    rewrite (get_unfold _ _ _ k Hwf' Hh), Ew. reflexivity.
Qed.

End FactoryMore.

(** *** Examples of the context factory *)

Lemma createContext_links_witness :
  exists request response state : loc,
    get sample_heap1 9%nat "request" = ORef request /\
    get sample_heap1 9%nat "response" = ORef response /\
    get sample_heap1 9%nat "state" = ORef state /\
    get sample_heap1 request "ctx" = ORef 9 /\
    get sample_heap1 response "ctx" = ORef 9.
Proof.
  destruct (createContext_links 0%nat 4%nat (ORef 5) (ORef 6) sample_heap
              9%nat sample_heap1 sample_heap_wf sample_heap_closed
              ltac:(simpl; lia) ltac:(simpl; lia) ltac:(simpl; lia)
              sample_context1)
    as (rq & rs & stt & _ & H1 & H2 & H3 & H4 & H5 & _).
  exists rq, rs, stt. auto.
Defined.

Lemma createContext_attaches_witness :
  get sample_heap1 9%nat "app" = ORef 4 /\
  get sample_heap1 9%nat "req" = ORef 5 /\
  get sample_heap1 9%nat "res" = ORef 6 /\
  req_url sample_heap (ORef 5) = Some (get sample_heap1 9%nat "originalUrl").
Proof.
  destruct (createContext_attaches 0%nat 4%nat (ORef 5) (ORef 6) sample_heap
              9%nat sample_heap1 sample_heap_wf sample_heap_closed
              ltac:(simpl; lia) ltac:(simpl; lia) ltac:(simpl; lia)
              sample_context1 9%nat (or_introl eq_refl))
    as (H1 & H2 & H3 & H4).
  split; [exact H1|]. split; [exact H2|]. split; [exact H3|].
  apply H4. vm_compute. discriminate.
Defined.

Lemma createContext_frame_witness :
  length sample_heap1 = 13%nat /\
  get sample_heap1 5%nat "url" = get sample_heap 5%nat "url" /\
  heap_wf sample_heap1 /\ heap_closed sample_heap1.
Proof.
  destruct (createContext_frame 0%nat 4%nat (ORef 5) (ORef 6) sample_heap
              9%nat sample_heap1 sample_heap_wf sample_heap_closed
              ltac:(simpl; lia) ltac:(simpl; lia) ltac:(simpl; lia)
              ltac:(simpl; lia) sample_context1)
    as (H1 & _ & H3 & H4 & H5).
  split; [exact H1|]. split; [apply H3; simpl; lia|]. split; assumption.
Defined.

(** Without a raw request there is no context. *)
Lemma createContext_throws_iff_witness :
  createContext 0%nat 4%nat OUndefined (ORef 6) sample_heap = None.
Proof.
  apply (proj2 (createContext_throws_iff 0%nat 4%nat OUndefined (ORef 6)
                  sample_heap sample_heap_wf ltac:(simpl; lia) I)).
  right. right. right. left. reflexivity.
Defined.

Lemma createContext_originalUrl_snapshot_witness :
  get (set sample_heap1 5%nat "url" (OStr "/rewritten")) 9%nat "originalUrl"
  = get sample_heap 5%nat "url" /\
  get sample_heap 5%nat "url" = OStr "/a".
Proof.
  destruct (createContext_originalUrl_snapshot 0%nat 4%nat 5%nat (ORef 6)
              sample_heap 9%nat sample_heap1 (OStr "/rewritten")
              sample_heap_wf sample_heap_closed
              ltac:(simpl; lia) ltac:(simpl; lia) ltac:(simpl; lia)
              ltac:(simpl; lia) sample_context1)
    as (H1 & _).
  split; [exact H1 | reflexivity].
Defined.

(** A property defined on the context template after the context was
    made is read through the context; [app] is not. *)
Lemma createContext_delegates_witness :
  get (set sample_heap1 1%nat "db" (OStr "pool")) 9%nat "db" = OStr "pool" /\
  get (set sample_heap1 1%nat "app" ONull) 9%nat "app"
  = get sample_heap1 9%nat "app".
Proof.
  split.
  - apply (createContext_delegates 0%nat 4%nat (ORef 5) (ORef 6) sample_heap
             9%nat sample_heap1 1%nat "db" (OStr "pool")
             sample_heap_wf sample_heap_closed
             ltac:(simpl; lia) ltac:(simpl; lia) ltac:(simpl; lia)
             ltac:(simpl; lia) eq_refl sample_context1).
    apply (bool_decide_unpack _). vm_compute. exact I.
  - apply (createContext_delegates 0%nat 4%nat (ORef 5) (ORef 6) sample_heap
             9%nat sample_heap1 1%nat "app" ONull
             sample_heap_wf sample_heap_closed
             ltac:(simpl; lia) ltac:(simpl; lia) ltac:(simpl; lia)
             ltac:(simpl; lia) eq_refl sample_context1).
    apply (bool_decide_unpack _). vm_compute. exact I.
Defined.

(** ** The application object *)

Section ApplicationObject.
Variable g : Realm.
Implicit Types (h : heap) (options : oval) (k : string).

Ltac gstep :=
  unfold hbind at 1;
  first [ rewrite get_prop_suffix by assumption
        | rewrite alloc_suffix
        | rewrite set_prop_suffix ];
  cbn [length app alter list_alter]; unfold set_own; cbn [proto props].

(** A read on an object added after [h] that has no own property. *)
Lemma get_prop_fresh_empty h ext j (p : loc) k :
  heap_wf h -> protos_below (length h) ext ->
  ext !! j = Some (mkObject (Some p) ∅) ->
  get_prop (length h + j) k (h ++ ext) = Some (get h p k, h ++ ext).
Proof.
  intros Hwf Hext Hj. unfold get_prop.
  rewrite (get_fresh h ext j _ k Hwf Hext Hj). cbn [props proto].
  rewrite lookup_empty. reflexivity.
Qed.

Lemma member_suffix options k h ext :
  heap_wf h -> truthy_o options = true -> oval_closed h options ->
  member options k (h ++ ext)
  = Some (match options with ORef l => get h l k | _ => OUndefined end, h ++ ext).
Proof.
  intros Hwf Ht Hc. destruct options; try discriminate; try reflexivity.
  cbn [member]. apply get_prop_suffix; assumption.
Qed.

Lemma member_fresh_options (cp p : loc) m k h :
  heap_wf h -> (cp < length h)%nat -> (p < length h)%nat ->
  member (ORef (length h + 1)) k
    (h ++ [mkObject (Some cp) m; mkObject (Some p) ∅])
  = Some (get h p k, h ++ [mkObject (Some cp) m; mkObject (Some p) ∅]).
Proof.
  intros Hwf Hcp Hp. cbn [member]. apply get_prop_fresh_empty; [assumption| |reflexivity].
  repeat constructor; cbn [proto]; intros q Hq; inversion Hq; subst; assumption.
Qed.

Lemma constructor_eq options h :
  heap_wf h -> realm_in g h -> oval_closed h options ->
  constructor g options h
  = Some (length h, h ++ application_objects g h options).
Proof.
  intros Hwf (Hop & Hap & Hcp & Hmc & Hmr & Hms & Hne) Hopt.
  transitivity (constructor g options (h ++ []));
    [rewrite app_nil_r; reflexivity|].
  unfold constructor, application_objects, application_props,
    application_settings, option_value.
  gstep.
  destruct (truthy_o options) eqn:Ht.
  - unfold hbind at 1. unfold hret at 1.
    repeat (unfold hbind at 1; rewrite member_suffix by assumption; gstep).
    unfold hbind at 1; rewrite member_suffix by assumption.
    unfold hbind at 1.
    destruct (truthy_o match options with ORef l => get h l "keys" | _ => OUndefined end);
      [rewrite set_prop_suffix | unfold hret at 1];
      cbn [length app alter list_alter]; unfold set_own; cbn [proto props];
      do 2 gstep; cbn [Object_create]; do 6 gstep;
      unfold hret; rewrite Nat.add_0_r; reflexivity.
  - unfold hbind at 1. unfold new_object. gstep. unfold hret at 1.
    repeat (unfold hbind at 1; rewrite member_fresh_options by assumption; gstep).
    unfold hbind at 1; rewrite member_fresh_options by assumption.
    unfold hbind at 1.
    destruct (truthy_o (get h (Object_prototype g) "keys"));
      [rewrite set_prop_suffix | unfold hret at 1];
      cbn [length app alter list_alter]; unfold set_own; cbn [proto props];
      do 2 gstep; cbn [Object_create]; do 6 gstep;
      unfold hret; rewrite Nat.add_0_r; reflexivity.
Qed.


Lemma application_objects_below options h :
  realm_in g h -> protos_below (length h) (application_objects g h options).
Proof.
  intros (Hop & Hap & Hcp & Hmc & Hmr & Hms & Hne). unfold application_objects.
  destruct (truthy_o options); repeat constructor; cbn [proto];
    intros q Hq; inversion Hq; subst; assumption.
Qed.

Lemma application_objects_length options h :
  length (application_objects g h options)
  = if truthy_o options then 5%nat else 6%nat.
Proof. unfold application_objects. destruct (truthy_o options); reflexivity. Qed.

Lemma or_else_assoc a b c :
  or_else (or_else a b) c = if truthy_o a then a else or_else b c.
Proof. unfold or_else. destruct (truthy_o a) eqn:E; [rewrite E|]; reflexivity. Qed.

(** The settings of a new application, key by key. *)
Lemma application_settings_lookup options h k d :
  (k, d) ∈ setting_defaults g ->
  application_settings g h options !! k
  = Some (if truthy_o (option_value g h options k)
          then option_value g h options k else d).
Proof.
  intros Hk. unfold setting_defaults in Hk.
  rewrite !elem_of_cons, elem_of_nil in Hk. unfold application_settings.
  assert (E : forall m : gmap string oval,
             k <> "keys" ->
             (if truthy_o (option_value g h options "keys")
              then <["keys" := option_value g h options "keys"]> m else m) !! k
             = m !! k).
  { intros m Hne. destruct (truthy_o _); [|reflexivity].
    apply lookup_insert_ne. congruence. }
  destruct Hk as [Hk|[Hk|[Hk|[Hk|[Hk|[]]]]]]; inversion Hk; subst;
    (rewrite E by discriminate);
    rewrite ?or_else_assoc;
    repeat (rewrite lookup_insert_ne by discriminate);
    rewrite lookup_insert_eq; reflexivity.
Qed.

Lemma application_settings_keys options h :
  application_settings g h options !! "keys"
  = if truthy_o (option_value g h options "keys")
    then Some (option_value g h options "keys") else None.
Proof.
  unfold application_settings.
  destruct (truthy_o (option_value g h options "keys"));
    [apply lookup_insert_eq|].
  repeat (rewrite lookup_insert_ne by discriminate). apply lookup_empty.
Qed.

Lemma application_props_settings options h k :
  k ∉ application_links ->
  application_props g h options !! k = application_settings g h options !! k.
Proof.
  intros Hk. unfold application_links in Hk.
  rewrite !not_elem_of_cons in Hk. destruct Hk as (H1 & H2 & H3 & H4 & _).
  unfold application_props.
  repeat (rewrite lookup_insert_ne by congruence). reflexivity.
Qed.

(** A read through the new application. *)
Lemma application_get options h k :
  heap_wf h -> realm_in g h ->
  get (h ++ application_objects g h options) (length h) k
  = match application_props g h options !! k with
    | Some v => v
    | None => get h (Application_prototype g) k
    end.
Proof.
  intros Hwf Hg.
  pose proof (get_fresh h _ 0 _ k Hwf (application_objects_below options h Hg)
                eq_refl) as H.
  rewrite Nat.add_0_r in H. exact H.
Qed.

(** X7. [new Application(options)] never throws and changes no object that
    was there.  Each setting of the new application is the option of
    that name when the option is truthy, and its default otherwise, so
    a falsy option ([subdomainOffset: 0], [env: ''], ...) cannot be
    told from a missing one; [subdomainOffset], [proxyIpHeader] and
    [env] are always truthy.  [keys] becomes an own property only when
    the option is truthy; otherwise the application has what the
    prototype of the class has. *)
Theorem constructor_settings options h :
  heap_wf h -> realm_in g h -> oval_closed h options ->
  exists (app : loc) (h' : heap),
    constructor g options h = Some (app, h') /\
    (length h <= app < length h')%nat /\
    (forall l, (l < length h)%nat -> h' !! l = h !! l) /\
    (forall k d, (k, d) ∈ setting_defaults g ->
       get h' app k = if truthy_o (option_value g h options k)
                      then option_value g h options k else d) /\
    (forall k, k ∈ ["subdomainOffset"; "proxyIpHeader"; "env"] ->
       truthy_o (get h' app k) = true) /\
    get h' app "keys"
    = if truthy_o (option_value g h options "keys")
      then option_value g h options "keys"
      else get h (Application_prototype g) "keys".
Proof.
  intros Hwf Hg Hopt.
  exists (length h), (h ++ application_objects g h options).
  split; [apply constructor_eq; assumption|].
  split; [rewrite length_app, application_objects_length;
          destruct (truthy_o options); lia|].
  split; [intros l Hl; apply lookup_app_l; assumption|].
  assert (Hset : forall k d, (k, d) ∈ setting_defaults g ->
            get (h ++ application_objects g h options) (length h) k
            = if truthy_o (option_value g h options k)
              then option_value g h options k else d).
  { intros k d Hk. rewrite application_get by assumption.
    rewrite application_props_settings.
    - rewrite (application_settings_lookup options h k d Hk). reflexivity.
    - unfold setting_defaults in Hk. rewrite !elem_of_cons, elem_of_nil in Hk.
      unfold application_links. rewrite !not_elem_of_cons.
      destruct Hk as [Hk|[Hk|[Hk|[Hk|[Hk|[]]]]]]; inversion Hk; subst;
        repeat split; try discriminate; apply not_elem_of_nil. }
  split; [exact Hset|]. split.
  - intros k Hk. rewrite !elem_of_cons, elem_of_nil in Hk.
    destruct Hk as [->|[->|[->|[]]]].
    + rewrite (Hset "subdomainOffset" (ONum 2))
        by (unfold setting_defaults; set_solver).
      destruct (truthy_o (option_value g h options "subdomainOffset")) eqn:E;
        [exact E | reflexivity].
    + rewrite (Hset "proxyIpHeader" (OStr "X-Forwarded-For"))
        by (unfold setting_defaults; set_solver).
      destruct (truthy_o (option_value g h options "proxyIpHeader")) eqn:E;
        [exact E | reflexivity].
    + rewrite (Hset "env" (or_else (NODE_ENV g) (OStr "development")))
        by (unfold setting_defaults; set_solver).
      destruct (truthy_o (option_value g h options "env")) eqn:E; [exact E|].
      unfold or_else. destruct (truthy_o (NODE_ENV g)) eqn:E'; [exact E' | reflexivity].
  - rewrite application_get by assumption.
    rewrite application_props_settings
      by (unfold application_links; rewrite !not_elem_of_cons;
          repeat split; try discriminate; apply not_elem_of_nil).
    rewrite application_settings_keys.
    destruct (truthy_o (option_value g h options "keys")); reflexivity.
Qed.

(** What the constructor leaves behind when it returns. *)
Lemma constructor_created options h app h' :
  heap_wf h -> realm_in g h -> oval_closed h options ->
  constructor g options h = Some (app, h') ->
  app = length h /\ h' = h ++ application_objects g h options.
Proof.
  intros Hwf Hg Hopt E. rewrite constructor_eq in E by assumption.
  inversion E; subst. split; reflexivity.
Qed.

(** The place of the middleware array among the new objects. *)
Lemma application_objects_lookup options h :
  let first := if truthy_o options then 1%nat else 2%nat in
  application_objects g h options !! first
  = Some (mkObject (Some (Array_prototype g)) (<["length" := ONum 0]> ∅)) /\
  application_objects g h options !! S first
  = Some (mkObject (Some (module_context g)) ∅) /\
  application_objects g h options !! S (S first)
  = Some (mkObject (Some (module_request g)) ∅) /\
  application_objects g h options !! S (S (S first))
  = Some (mkObject (Some (module_response g)) ∅).
Proof.
  unfold application_objects. destruct (truthy_o options); repeat split.
Qed.

Lemma application_props_links options h :
  let first := if truthy_o options then 1%nat else 2%nat in
  application_props g h options !! "middleware" = Some (ORef (length h + first)%nat) /\
  application_props g h options !! "context" = Some (ORef (length h + S first)%nat) /\
  application_props g h options !! "request"
  = Some (ORef (length h + S (S first))%nat) /\
  application_props g h options !! "response"
  = Some (ORef (length h + S (S (S first)))%nat).
Proof.
  unfold application_props. cbv zeta. repeat split;
    repeat (rewrite lookup_insert_ne by discriminate);
    apply lookup_insert_eq.
Qed.

Lemma application_links_get options h :
  heap_wf h -> realm_in g h ->
  let first := if truthy_o options then 1%nat else 2%nat in
  let h' := h ++ application_objects g h options in
  get h' (length h) "middleware" = ORef (length h + first)%nat /\
  get h' (length h) "context" = ORef (length h + S first)%nat /\
  get h' (length h) "request" = ORef (length h + S (S first))%nat /\
  get h' (length h) "response" = ORef (length h + S (S (S first)))%nat.
Proof.
  intros Hwf Hg. cbv zeta. rewrite !application_get by assumption.
  destruct (application_props_links options h) as (-> & -> & -> & ->).
  repeat split.
Qed.

(** A read through a new object that has no own property. *)
Lemma application_template_get options h j (p : loc) k :
  heap_wf h -> realm_in g h ->
  application_objects g h options !! j = Some (mkObject (Some p) ∅) ->
  get (h ++ application_objects g h options) (length h + j) k = get h p k.
Proof.
  intros Hwf Hg Hj.
  rewrite (get_fresh h _ j _ k Hwf (application_objects_below options h Hg) Hj).
  cbn [props proto]. rewrite lookup_empty. reflexivity.
Qed.

Lemma option_value_closed options h k :
  heap_closed h -> oval_closed h options ->
  oval_closed h (option_value g h options k).
Proof.
  intros Hcl Hopt. unfold option_value.
  assert (Hget : forall l, oval_closed h (get h l k)).
  { intros l. destruct (get h l k) eqn:E; cbn [oval_closed]; auto.
    exact (get_from_closed _ _ _ Hcl _ _ E). }
  destruct (truthy_o options); [|apply Hget].
  destruct options; cbn [oval_closed]; auto.
Qed.

Lemma or_else_closed h a b :
  oval_closed h a -> oval_closed h b -> oval_closed h (or_else a b).
Proof. intros Ha Hb. unfold or_else. destruct (truthy_o a); assumption. Qed.

Lemma application_settings_closed options h k (p : loc) :
  heap_closed h -> realm_in g h -> oval_closed h options ->
  application_settings g h options !! k = Some (ORef p) -> (p < length h)%nat.
Proof.
  intros Hcl (_ & _ & _ & _ & _ & _ & Hne) Hopt Hk.
  assert (Hv : forall v, oval_closed h v -> v = ORef p -> (p < length h)%nat).
  { intros v Hc ->. exact Hc. }
  pose proof (fun k => option_value_closed options h k Hcl Hopt) as Ho.
  unfold application_settings in Hk. cbv zeta in Hk.
  destruct (truthy_o (option_value g h options "keys"));
    rewrite ?lookup_insert_Some, ?lookup_empty in Hk;
    repeat match goal with
           | H : _ \/ _ |- _ => destruct H
           | H : _ /\ _ |- _ => destruct H
           end;
    try discriminate;
    (eapply Hv; [|eassumption]);
    repeat apply or_else_closed; cbn [oval_closed]; auto.
Qed.

Lemma application_objects_closed options h :
  heap_closed h -> realm_in g h -> oval_closed h options ->
  Forall (fun o => forall k p, props o !! k = Some (ORef p) ->
            (p < length h + length (application_objects g h options))%nat)
    (application_objects g h options).
Proof.
  intros Hcl Hg Hopt. rewrite application_objects_length.
  assert (Hempty : forall k p,
            (∅ : gmap string oval) !! k = Some (ORef p) ->
              (p < length h + (if truthy_o options then 5 else 6))%nat).
  { intros k p Hk. rewrite lookup_empty in Hk. discriminate. }
  assert (Happ : forall k p, application_props g h options !! k = Some (ORef p) ->
              (p < length h + (if truthy_o options then 5 else 6))%nat).
  { intros k p Hk. unfold application_props in Hk. cbv zeta in Hk.
    rewrite !lookup_insert_Some in Hk.
    destruct Hk as [[_ Hk]|[_ [[_ Hk]|[_ [[_ Hk]|[_ [[_ Hk]|[_ Hk]]]]]]]].
    1-4: inversion Hk; subst; destruct (truthy_o options); lia.
    pose proof (application_settings_closed options h k p Hcl Hg Hopt Hk).
    destruct (truthy_o options); lia. }
  assert (Harr : forall k p,
            (<["length" := ONum 0]> (∅ : gmap string oval)) !! k = Some (ORef p) ->
              (p < length h + (if truthy_o options then 5 else 6))%nat).
  { intros k p Hk. rewrite lookup_insert_Some, lookup_empty in Hk.
    destruct Hk as [[_ Hk]|[_ Hk]]; discriminate. }
  unfold application_objects.
  destruct (truthy_o options); cbn [app];
    repeat (apply Forall_cons_2;
            [cbn [props]; first [exact Happ | exact Harr | exact Hempty]|]);
    apply Forall_nil_2.
Qed.

(** The heap stays well formed and closed. *)
Lemma application_heap_ok options h :
  heap_wf h -> heap_closed h -> realm_in g h -> oval_closed h options ->
  heap_wf (h ++ application_objects g h options) /\
  heap_closed (h ++ application_objects g h options).
Proof.
  intros Hwf Hcl Hg Hopt. split.
  - apply heap_wf_app; [assumption | apply application_objects_below; assumption].
  - apply heap_closed_app; [assumption|].
    apply application_objects_closed; assumption.
Qed.

Lemma realm_in_app h ext : realm_in g h -> realm_in g (h ++ ext).
Proof.
  intros (Hop & Hap & Hcp & Hmc & Hmr & Hms & Hne). unfold realm_in. rewrite length_app.
  repeat split; try lia.
  destruct (NODE_ENV g); cbn [oval_closed] in *; auto. rewrite length_app. lia.
Qed.

(** X8. A new application has a middleware array and three templates of its
    own: four new objects, distinct from each other and from the
    application.  The array is empty; each template has no property of
    its own and the object of the module as its prototype, so every read
    through it is a read through that object.  The heap stays well
    formed and closed. *)
Theorem constructor_templates options h app h' :
  heap_wf h -> heap_closed h -> realm_in g h -> oval_closed h options ->
  constructor g options h = Some (app, h') ->
  exists middleware context request response : loc,
    NoDup [app; middleware; context; request; response] /\
    Forall (fun l => (length h <= l < length h')%nat)
      [app; middleware; context; request; response] /\
    (get h' app "middleware" = ORef middleware /\
     get h' app "context" = ORef context /\
     get h' app "request" = ORef request /\
     get h' app "response" = ORef response) /\
    (h' !! middleware
     = Some (mkObject (Some (Array_prototype g)) (<["length" := ONum 0]> ∅)) /\
     h' !! context = Some (mkObject (Some (module_context g)) ∅) /\
     h' !! request = Some (mkObject (Some (module_request g)) ∅) /\
     h' !! response = Some (mkObject (Some (module_response g)) ∅)) /\
    (forall k, get h' context k = get h (module_context g) k /\
               get h' request k = get h (module_request g) k /\
               get h' response k = get h (module_response g) k) /\
    heap_wf h' /\ heap_closed h'.
Proof.
  intros Hwf Hcl Hg Hopt E.
  destruct (constructor_created _ _ _ _ Hwf Hg Hopt E) as [-> ->].
  destruct (application_links_get options h Hwf Hg) as (Lm & Lc & Lr & Ls).
  destruct (application_objects_lookup options h) as (Om & Oc & Or & Os).
  pose proof (application_objects_length options h) as Hlen.
  set (first := if truthy_o options then 1%nat else 2%nat) in *.
  assert (Hfirst : (1 <= first <= 2)%nat /\
                   (first + 4 = length (application_objects g h options))%nat).
  { rewrite Hlen. unfold first. destruct (truthy_o options); lia. }
  exists (length h + first)%nat, (length h + S first)%nat,
         (length h + S (S first))%nat, (length h + S (S (S first)))%nat.
  split.
  { apply NoDup_ListNoDup.
    repeat (constructor; [cbn [In]; lia|]). constructor. }
  split.
  { rewrite length_app. repeat (apply Forall_cons_2; [lia|]). apply Forall_nil_2. }
  split; [repeat split; assumption|].
  split.
  { repeat split; rewrite lookup_app_r by lia;
      match goal with
      | |- _ !! ?i = _ =>
          match i with
          | (_ + ?j - _)%nat => replace i with j by lia
          end
      end; assumption. }
  split.
  { intros k. repeat split; apply application_template_get; assumption. }
  apply application_heap_ok; assumption.
Qed.

(** X9. Two applications share nothing that is written on one of them: the
    second gets an array and templates of its own, and no write on the
    first application, its array or one of its templates changes a read
    through those of the second, nor the other way round.  What both
    delegate to is the object of the module: a property defined there
    is read through the context templates of both. *)
Theorem constructor_isolated optA optB h a h1 b h2 :
  heap_wf h -> realm_in g h -> oval_closed h optA -> oval_closed h1 optB ->
  constructor g optA h = Some (a, h1) ->
  constructor g optB h1 = Some (b, h2) ->
  (forall ka kb (o o' : loc),
     ka ∈ application_links -> kb ∈ application_links ->
     o = a \/ get h2 a ka = ORef o ->
     o' = b \/ get h2 b kb = ORef o' ->
     o <> o' /\
     forall k v k',
       get (set h2 o k v) o' k' = get h2 o' k' /\
       get (set h2 o' k v) o k' = get h2 o k') /\
  exists ca cb : loc,
    get h2 a "context" = ORef ca /\ get h2 b "context" = ORef cb /\
    forall k v,
      get (set h2 (module_context g) k v) ca k = v /\
      get (set h2 (module_context g) k v) cb k = v.
Proof.
  intros Hwf Hg HoA HoB EA EB.
  destruct (constructor_created _ _ _ _ Hwf Hg HoA EA) as [-> ->].
  pose proof (heap_wf_app _ _ Hwf (application_objects_below optA h Hg)) as Hwf1.
  pose proof (realm_in_app h (application_objects g h optA) Hg) as Hg1.
  destruct (constructor_created _ _ _ _ Hwf1 Hg1 HoB EB) as [-> ->].
  set (h1 := h ++ application_objects g h optA) in *.
  pose proof (application_objects_below optB h1 Hg1) as Hext2.
  pose proof (heap_wf_app _ _ Hwf1 Hext2) as Hwf2.
  destruct (application_links_get optA h Hwf Hg) as (Am & Ac & Ar & As).
  destruct (application_links_get optB h1 Hwf1 Hg1) as (Bm & Bc & Br & Bs).
  destruct (application_objects_lookup optA h) as (OAm & OAc & OAr & OAs).
  destruct (application_objects_lookup optB h1) as (OBm & OBc & OBr & OBs).
  pose proof (application_objects_length optA h) as HlenA.
  pose proof (application_objects_length optB h1) as HlenB.
  fold h1 in Am, Ac, Ar, As.
  set (fa := if truthy_o optA then 1%nat else 2%nat) in *.
  set (fb := if truthy_o optB then 1%nat else 2%nat) in *.
  assert (Hfa : (fa + 4 = length (application_objects g h optA))%nat).
  { rewrite HlenA. unfold fa. destruct (truthy_o optA); lia. }
  assert (Hfb : (fb + 4 = length (application_objects g h1 optB))%nat).
  { rewrite HlenB. unfold fb. destruct (truthy_o optB); lia. }
  assert (Hh1 : length h1 = (length h + (fa + 4))%nat).
  { unfold h1. rewrite length_app. lia. }
  assert (Hold : forall l k, (l < length h1)%nat ->
            get (h1 ++ application_objects g h1 optB) l k = get h1 l k).
  { intros l k Hl. apply get_prefix; assumption. }
  (* the objects of the first application, seen from the final heap *)
  assert (HA : forall ka o, ka ∈ application_links ->
            o = length h \/
            get (h1 ++ application_objects g h1 optB) (length h) ka = ORef o ->
            (length h <= o < length h1)%nat).
  { intros ka o Hka [->|Ho]; [lia|].
    rewrite Hold in Ho by lia.
    unfold application_links in Hka. rewrite !elem_of_cons, elem_of_nil in Hka.
    destruct Hka as [->|[->|[->|[->|[]]]]];
      [rewrite Am in Ho | rewrite Ac in Ho | rewrite Ar in Ho | rewrite As in Ho];
      inversion Ho; subst; lia. }
  (* those of the second, with their prototypes *)
  assert (HB : forall kb o', kb ∈ application_links ->
            o' = length h1 \/
            get (h1 ++ application_objects g h1 optB) (length h1) kb = ORef o' ->
            exists j obj (p : loc),
              o' = (length h1 + j)%nat /\
              application_objects g h1 optB !! j = Some obj /\
              proto obj = Some p /\ (p < length h)%nat).
  { destruct Hg as (Hop & Hap & Hcp & Hmc & Hmr & Hms & Hne).
    intros kb o' Hkb [->|Ho].
    - exists 0%nat, (mkObject (Some (Application_prototype g))
                       (application_props g h1 optB)), (Application_prototype g).
      repeat split; [lia | assumption].
    - unfold application_links in Hkb. rewrite !elem_of_cons, elem_of_nil in Hkb.
      destruct Hkb as [->|[->|[->|[->|[]]]]];
        [rewrite Bm in Ho | rewrite Bc in Ho | rewrite Br in Ho | rewrite Bs in Ho];
        inversion Ho; subst;
        eexists _, _, _; (split; [reflexivity|]);
        (split; [eassumption|]); split; try reflexivity; assumption. }
  split.
  - intros ka kb o o' Hka Hkb Ho Ho'.
    pose proof (HA ka o Hka Ho) as Hlo.
    destruct (HB kb o' Hkb Ho') as (j & obj & p & -> & Hj & Hp & Hpl).
    split; [lia|]. intros k v k'. split.
    + (* a write on the older object, read through the newer one *)
      assert (Hset : set (h1 ++ application_objects g h1 optB) o k v
                     = set h1 o k v ++ application_objects g h1 optB).
      { unfold set. apply alter_app_l. lia. }
      rewrite Hset.
      assert (Hext2' : protos_below (length (set h1 o k v))
                         (application_objects g h1 optB))
        by (rewrite set_length_heap; assumption).
      pose proof (get_fresh (set h1 o k v) _ j obj k' (set_wf _ o k v Hwf1)
                    Hext2' Hj) as Hnew.
      rewrite set_length_heap in Hnew. rewrite Hnew.
      rewrite (get_fresh h1 _ j obj k' Hwf1 Hext2 Hj).
      destruct (props obj !! k'); [reflexivity|]. rewrite Hp.
      apply get_set_above; [assumption | lia].
    + apply get_set_above; [assumption | lia].
  - exists (length h + S fa)%nat, (length h1 + S fb)%nat.
    split; [rewrite Hold by lia; exact Ac|]. split; [exact Bc|].
    intros k v.
    destruct Hg as (Hop & Hap & Hcp & Hmc & Hmr & Hms & Hne).
    assert (Hmc1 : (module_context g < length h1)%nat) by lia.
    assert (Hset : set (h1 ++ application_objects g h1 optB) (module_context g) k v
                   = set h1 (module_context g) k v ++ application_objects g h1 optB).
    { unfold set. apply alter_app_l. lia. }
    rewrite Hset. split.
    + rewrite get_prefix;
        [| apply set_wf; assumption | rewrite set_length_heap; lia].
      assert (Hset1 : set h1 (module_context g) k v
                      = set h (module_context g) k v ++ application_objects g h optA).
      { unfold h1, set. apply alter_app_l. lia. }
      rewrite Hset1.
      assert (HextA : protos_below (length (set h (module_context g) k v))
                        (application_objects g h optA)).
      { rewrite set_length_heap. apply application_objects_below.
        repeat split; assumption. }
      pose proof (get_fresh (set h (module_context g) k v) _ (S fa) _ k
                    (set_wf _ _ k v Hwf) HextA OAc) as Hnew.
      rewrite set_length_heap in Hnew. rewrite Hnew.
      cbn [props proto]. rewrite lookup_empty. apply get_set_same; assumption.
    + assert (HextB : protos_below (length (set h1 (module_context g) k v))
                        (application_objects g h1 optB))
        by (rewrite set_length_heap; assumption).
      pose proof (get_fresh (set h1 (module_context g) k v) _ (S fb) _ k
                    (set_wf _ _ k v Hwf1) HextB OBc) as Hnew.
      rewrite set_length_heap in Hnew. rewrite Hnew.
      cbn [props proto]. rewrite lookup_empty. apply get_set_same; assumption.
Qed.

(** X10. The constructor and the context factory fit together: on a new
    application [createContext] never throws for a request that is
    neither [undefined] nor [null]; the context knows the application,
    and every key the factory does not write is read through the
    template of the application from the object of the context module.
    Making a context changes no setting of the application. *)
Theorem constructor_createContext options req res h app h1 :
  heap_wf h -> heap_closed h -> realm_in g h -> oval_closed h options ->
  oval_closed h req -> nullish req = false ->
  constructor g options h = Some (app, h1) ->
  exists (c : loc) (h2 : heap),
    createContext (Object_prototype g) app req res h1 = Some (c, h2) /\
    (length h1 <= c < length h2)%nat /\
    get h2 c "app" = ORef app /\
    (forall k, k ∉ context_keys -> get h2 c k = get h (module_context g) k) /\
    (forall k, get h2 app k = get h1 app k).
Proof.
  intros Hwf Hcl Hg Hopt Hreq Hnn E.
  destruct (constructor_created _ _ _ _ Hwf Hg Hopt E) as [-> ->].
  destruct (application_heap_ok options h Hwf Hcl Hg Hopt) as [Hwf1 Hcl1].
  pose proof (realm_in_app h (application_objects g h options) Hg) as Hg1.
  destruct (application_links_get options h Hwf Hg) as (Lm & Lc & Lr & Ls).
  destruct (application_objects_lookup options h) as (Om & Oc & Or & Os).
  pose proof (application_objects_length options h) as Hlen.
  set (first := if truthy_o options then 1%nat else 2%nat) in *.
  assert (Hfirst : (first + 4 = length (application_objects g h options))%nat).
  { rewrite Hlen. unfold first. destruct (truthy_o options); lia. }
  set (h1 := h ++ application_objects g h options) in *.
  assert (Hh1 : length h1 = (length h + (first + 4))%nat).
  { unfold h1. rewrite length_app. lia. }
  assert (Hthis : (length h < length h1)%nat) by lia.
  assert (Hreq1 : oval_closed h1 req).
  { destruct req; cbn [oval_closed] in *; auto. lia. }
  destruct (req_url h1 req) as [url|] eqn:Hurl;
    [|destruct req; discriminate].
  pose proof (createContext_eq (Object_prototype g) (length h) req res h1
                Hwf1 Hthis Hreq1) as Eq.
  rewrite Lc, Lr, Ls, Hurl in Eq. cbn [template_proto] in Eq.
  eexists _, _. split; [exact Eq|].
  assert (Hext : protos_below (length h1)
            (context_objects (Object_prototype g) (Some (length h + S first)%nat)
               (Some (length h + S (S first))%nat)
               (Some (length h + S (S (S first)))%nat)
               (length h1) (length h) req res url)).
  { destruct Hg1 as (Hop & _).
    apply context_objects_below; [assumption| | |];
      intros p Hp; inversion Hp; subst; lia. }
  split; [rewrite length_app; cbn [length context_objects]; lia|].
  split.
  { rewrite (created_get _ _ _ _ _ _ _ _ _ (length h1) 0%nat) by (try assumption; lia).
    reflexivity. }
  split.
  - intros k Hk.
    destruct (context_objects_unset (Object_prototype g)
                (Some (length h + S first)%nat) (Some (length h + S (S first))%nat)
                (Some (length h + S (S (S first)))%nat) (length h1) (length h)
                req res url k Hk) as (m & Em & Hm).
    rewrite (created_get _ _ _ _ _ _ _ _ _ (length h1) 0%nat) by (try assumption; lia).
    rewrite Em. cbn [props proto]. rewrite Hm.
    unfold h1. apply application_template_get; assumption.
  - intros k. apply get_prefix; assumption.
Qed.

End ApplicationObject.

(** *** Examples of the constructor *)

Lemma sample_realm_heap_wf : heap_wf sample_realm_heap.
Proof.
  intros l o p Hl Hp.
  do 10 (destruct l as [|l];
         [simpl in Hl; inversion Hl; subst o; simpl in Hp; inversion Hp; lia|]).
  discriminate Hl.
Qed.

Lemma sample_realm_heap_closed : heap_closed sample_realm_heap.
Proof.
  intros l o k p Hl Hk.
  do 10 (destruct l as [|l];
         [simpl in Hl; inversion Hl; subst o; cbn [props] in Hk;
          rewrite ?lookup_insert_Some, ?lookup_empty in Hk;
          simpl; intuition (try discriminate); simplify_eq; lia|]).
  discriminate Hl.
Qed.

Lemma sample_realm_in : realm_in sample_realm sample_realm_heap.
Proof. unfold realm_in. simpl. repeat split; lia. Qed.

Lemma sample_application1 :
  constructor sample_realm (ORef 6) sample_realm_heap
  = Some (10%nat, sample_realm_heap1).
Proof.
  apply constructor_eq;
    [exact sample_realm_heap_wf | exact sample_realm_in | simpl; lia].
Qed.

Lemma sample_realm_heap1_wf : heap_wf sample_realm_heap1.
Proof.
  apply heap_wf_app; [exact sample_realm_heap_wf|].
  apply application_objects_below. exact sample_realm_in.
Qed.

Lemma sample_application2 :
  constructor sample_realm OUndefined sample_realm_heap1
  = Some (15%nat, sample_realm_heap2).
Proof.
  apply (constructor_eq sample_realm OUndefined sample_realm_heap1);
    [exact sample_realm_heap1_wf | apply realm_in_app; exact sample_realm_in
    | exact I].
Qed.

(** Options with [proxy: true], [subdomainOffset: 0] and [keys]: the
    zero offset is replaced by 2. *)
Lemma constructor_settings_witness :
  exists (app : loc) (h' : heap),
    constructor sample_realm (ORef 6) sample_realm_heap = Some (app, h') /\
    get h' app "proxy" = OBool true /\
    get h' app "subdomainOffset" = ONum 2 /\
    get h' app "env" = OStr "development" /\
    get h' app "keys" = ORef 7.
Proof.
  destruct (constructor_settings sample_realm (ORef 6) sample_realm_heap
              sample_realm_heap_wf sample_realm_in ltac:(simpl; lia))
    as (app & h' & E & _ & _ & Hset & _ & Hkeys).
  exists app, h'. split; [exact E|].
  split; [exact (Hset "proxy" (OBool false)
                   ltac:(unfold setting_defaults; repeat constructor))|].
  split; [exact (Hset "subdomainOffset" (ONum 2)
                   ltac:(unfold setting_defaults; repeat constructor))|].
  split; [exact (Hset "env" (OStr "development")
                   ltac:(unfold setting_defaults; repeat constructor))|].
  exact Hkeys.
Defined.

Lemma constructor_templates_witness :
  get sample_realm_heap1 10%nat "context" = ORef 12 /\
  sample_realm_heap1 !! 12%nat = Some (mkObject (Some 3%nat) ∅) /\
  get sample_realm_heap1 12%nat "inspect" = OStr "[context]" /\
  heap_wf sample_realm_heap1 /\ heap_closed sample_realm_heap1.
Proof.
  destruct (constructor_templates sample_realm (ORef 6) sample_realm_heap
              10%nat sample_realm_heap1
              sample_realm_heap_wf sample_realm_heap_closed sample_realm_in
              ltac:(simpl; lia) sample_application1)
    as (mw & cx & rq & rs & _ & _ & (_ & Hc & _) & (_ & Oc & _) & Hget & Hwf & Hcl).
  assert (E : get sample_realm_heap1 10%nat "context" = ORef 12)
    by (vm_compute; reflexivity).
  rewrite E in Hc. inversion Hc; subst cx.
  split; [exact E|]. split; [exact Oc|].
  split; [exact (proj1 (Hget "inspect"))|]. split; assumption.
Defined.

(** A property written on the context template of the first application
    is not read through the one of the second. *)
Lemma constructor_isolated_witness :
  (12 <> 18)%nat /\
  get (set sample_realm_heap2 12%nat "db" (OStr "pool")) 18%nat "db"
  = get sample_realm_heap2 18%nat "db" /\
  get (set sample_realm_heap2 18%nat "db" (OStr "pool")) 12%nat "db"
  = get sample_realm_heap2 12%nat "db".
Proof.
  destruct (constructor_isolated sample_realm (ORef 6) OUndefined
              sample_realm_heap 10%nat sample_realm_heap1 15%nat
              sample_realm_heap2
              sample_realm_heap_wf sample_realm_in ltac:(simpl; lia) I
              sample_application1 sample_application2) as [H _].
  destruct (H "context" "context" 12%nat 18%nat
              ltac:(unfold application_links; repeat constructor)
              ltac:(unfold application_links; repeat constructor)
              ltac:(right; vm_compute; reflexivity)
              ltac:(right; vm_compute; reflexivity)) as [Hne Hrw].
  split; [exact Hne|]. exact (Hrw "db" (OStr "pool") "db").
Defined.

Lemma constructor_createContext_witness :
  exists (c : loc) (h2 : heap),
    createContext 0%nat 10%nat (ORef 8) (ORef 9) sample_realm_heap1 = Some (c, h2) /\
    get h2 c "app" = ORef 10 /\
    get h2 c "inspect" = get sample_realm_heap 3%nat "inspect".
Proof.
  destruct (constructor_createContext sample_realm (ORef 6) (ORef 8) (ORef 9)
              sample_realm_heap 10%nat sample_realm_heap1
              sample_realm_heap_wf sample_realm_heap_closed sample_realm_in
              ltac:(simpl; lia) ltac:(simpl; lia) eq_refl sample_application1)
    as (c & h2 & E & _ & Happ & Hk & _).
  exists c, h2. split; [exact E|]. split; [exact Happ|].
  apply Hk. apply (bool_decide_unpack _). vm_compute. exact I.
Defined.

(** ** Registering middleware *)

Section UseFacts.
Context {St G : Type}.
Variable convert : G -> middleware St.
Implicit Types (this : Application St) (fn : use_arg St G).

Lemma use_function fn this :
  is_function fn = true ->
  exists f, registered convert fn = Some f /\
    fst (use convert fn this) = Normal /\
    this_middleware (snd (use convert fn this)) = this_middleware this ++ [f] /\
    deprecated (snd (use convert fn this))
    = deprecated this ++
      (if is_generator fn then [generators_deprecated] else []).
Proof.
  destruct fn as [v|f|gen]; intros H; try discriminate; eexists;
    repeat split; cbn [use snd push deprecate deprecated is_generator];
    rewrite ?app_nil_r; reflexivity.
Qed.

Lemma use_all_functions (fns : list (use_arg St G)) : forall this,
  Forall (fun fn => is_function fn = true) fns ->
  exists this',
    use_all convert fns this = (Normal, this') /\
    this_middleware this'
    = this_middleware this ++ omap (registered convert) fns /\
    deprecated this'
    = deprecated this ++
      map (fun _ => generators_deprecated) (List.filter is_generator fns).
Proof.
  induction fns as [|fn fns IH]; intros this H.
  - exists this. cbn. rewrite !app_nil_r. auto.
  - inversion H as [|? ? Hfn Hfns]; subst.
    destruct (use_function fn this Hfn) as (f & Ef & En & Em & Ed).
    destruct (IH (snd (use convert fn this)) Hfns) as (this' & E & Hm & Hd).
    exists this'. cbn [use_all].
    destruct (use convert fn this) as [o this1]; cbn [fst snd] in *. subst o.
    split; [exact E|]. split.
    + rewrite Hm, Em. cbn [omap list_omap]. rewrite Ef. rewrite <- app_assoc. reflexivity.
    + rewrite Hd, Ed. cbn [List.filter].
      destruct (is_generator fn); cbn [map app];
        rewrite <- ?app_assoc; reflexivity.
Qed.

Lemma use_all_app (pre post : list (use_arg St G)) : forall this,
  use_all convert (pre ++ post) this
  = match use_all convert pre this with
    | (Normal, this') => use_all convert post this'
    | (Abrupt t, this') => (Abrupt t, this')
    end.
Proof.
  induction pre as [|fn pre IH]; intros this; cbn [app use_all]; [reflexivity|].
  destruct (use convert fn this) as [[|t] this1]; [apply IH | reflexivity].
Qed.

(** X11. Registering functions one after the other keeps the order of
    registration: each is added at the end of the array, a generator
    function as what [convert] makes of it, with one deprecation message
    each, and nothing registered earlier is moved or dropped.  The first
    argument that is not a function stops the sequence with a
    [TypeError]; what was registered before it stays, and nothing after
    it is registered. *)
Theorem use_registers_in_order (pre : list (use_arg St G)) this :
  Forall (fun fn => is_function fn = true) pre ->
  exists this',
    use_all convert pre this = (Normal, this') /\
    this_middleware this'
    = this_middleware this ++ omap (registered convert) pre /\
    length (this_middleware this')
    = (length (this_middleware this) + length pre)%nat /\
    length (deprecated this')
    = (length (deprecated this) + length (List.filter is_generator pre))%nat /\
    forall v post,
      use_all convert (pre ++ NotFunction v :: post) this
      = (Abrupt (TypeError "middleware must be a function!"), this').
Proof.
  intros H. destruct (use_all_functions pre this H) as (this' & E & Hm & Hd).
  exists this'. split; [exact E|]. split; [exact Hm|]. split.
  { rewrite Hm, length_app. f_equal. clear E Hm Hd.
    induction H as [|fn fns Hfn _ IH]; [reflexivity|]. cbn [omap list_omap].
    destruct fn; try discriminate; cbn [registered length]; rewrite IH;
      reflexivity. }
  split.
  { rewrite Hd, length_app, length_map. reflexivity. }
  intros v post. rewrite use_all_app, E. reflexivity.
Qed.

End UseFacts.

(** Two functions and a generator function in between, then something
    that is not a function. *)
Lemma use_registers_in_order_witness :
  exists this' : Application (list nat),
    use_all (fun _ : unit => Return)
      [Function (logger 0); GeneratorFunction tt; Function (logger 1)]
      (mkApplication [] [])
    = (Normal, this') /\
    this_middleware this' = [logger 0; Return; logger 1] /\
    length (deprecated this') = 1%nat /\
    use_all (fun _ : unit => Return)
      ([Function (logger 0); GeneratorFunction tt; Function (logger 1)]
       ++ [NotFunction VNull; Function (logger 2)])
      (mkApplication [] [])
    = (Abrupt (TypeError "middleware must be a function!"), this').
Proof.
  destruct (use_registers_in_order (fun _ : unit => Return)
              [Function (logger 0); GeneratorFunction tt; Function (logger 1)]
              (mkApplication [] [])
              ltac:(repeat constructor))
    as (this' & E & Hm & _ & Hd & Hbad).
  exists this'. split; [exact E|]. split; [exact Hm|]. split; [exact Hd|].
  exact (Hbad VNull [Function (logger 2)]).
Defined.

(** ** The finalizer, continued *)

Section RespondMore.
Variable st : Statuses.
Implicit Types (c : Context).

Lemma length_list_byte_of_string s :
  length (list_byte_of_string s) = String.length s.
Proof.
  induction s as [|a s IH]; [reflexivity|]. simpl. f_equal. exact IH.
Qed.

(** What [respond] can do to a context, branch by branch. *)
Lemma respond_cases c :
  respond st c = (Normal, c) \/
  (may_write c /\
   exists b, selects st c b /\ respond st c = (Normal, perform st c b)).
Proof.
  destruct (ctx_respond c) as [| |[]| | | |] eqn:Er.
  all: try (left; unfold respond; rewrite Er; reflexivity).
  all: destruct (writable c) eqn:Ew;
    [|left; unfold respond; rewrite Er, Ew; reflexivity].
  all: assert (Hm : may_write c) by (split; [congruence | assumption]).
  all: right; split; [assumption|]; apply respond_selects; assumption.
Qed.


(** X13. For a HEAD request whose status is outside the no-body class,
    [respond] ends the response without payload whatever the body is: a
    stream is not piped, a text is not written.  No header but the
    length header changes, and that one only when the headers are not
    sent and it is not set: it then gets the length the response
    reports, if it reports one. *)
Theorem respond_head c :
  may_write c ->
  statuses_empty st (ctx_status c) = false ->
  method c = "HEAD" ->
  exists c' : Context,
    respond st c = (Normal, c') /\
    calls (res c') = calls (res c) ++ [End None] /\
    body c' = body c /\
    (forall k, k <> "Content-Length" ->
       headers (res c') !! k = headers (res c) !! k) /\
    (headersSent (res c) = true \/ is_Some (headers (res c) !! "Content-Length") ->
     headers (res c') = headers (res c)) /\
    (headersSent (res c) = false -> headers (res c) !! "Content-Length" = None ->
     headers (res c') !! "Content-Length" = HNum <$> response_length c).
Proof.
  intros Hm He Hh. exists (perform st c HeadOnly).
  split.
  { rewrite (respond_may_write st c Hm), He, Hh. reflexivity. }
  cbn [perform]. unfold response_has.
  destruct (headersSent (res c)) eqn:Hs; cbn [negb andb].
  { repeat split; auto; intros; discriminate. }
  destruct (headers (res c) !! "Content-Length") as [v|] eqn:Hl.
  { rewrite bool_decide_eq_true_2 by eauto. cbn [negb].
    repeat split; auto; intros; discriminate. }
  rewrite bool_decide_eq_false_2 by (intros [? ?]; discriminate). cbn [negb].
  destruct (response_length c) as [n|] eqn:Hn.
  - split; [reflexivity|]. split; [reflexivity|]. split.
    { intros k Hk. cbn. apply lookup_insert_ne. congruence. }
    split.
    { intros [H|[? H]]; discriminate. }
    intros _ _. cbn. apply lookup_insert_eq.
  - split; [reflexivity|]. split; [reflexivity|]. split; [reflexivity|].
    split; [reflexivity|]. intros _ _. exact Hl.
Qed.

(** X14. For a body that is a stream (status outside the no-body class,
    method not HEAD), [respond] pipes the stream into the transport and
    does not end the response itself: the only call it makes is the
    pipe, and it changes no header. *)
Theorem respond_stream c (src : stream) :
  may_write c ->
  statuses_empty st (ctx_status c) = false ->
  method c <> "HEAD" ->
  body c = BStream src ->
  exists c' : Context,
    respond st c = (Normal, c') /\
    calls (res c') = calls (res c) ++ [Piped src] /\
    (forall payload, End payload ∉ skipn (length (calls (res c))) (calls (res c'))) /\
    headers (res c') = headers (res c) /\
    body c' = BStream src.
Proof.
  intros Hm He Hh Hb. exists (stream_pipe src c).
  assert (E : String.eqb "HEAD" (method c) = false)
    by (apply String.eqb_neq; congruence).
  split; [rewrite (respond_may_write st c Hm), He, E, Hb; reflexivity|].
  split; [reflexivity|]. split.
  { intros payload. cbn [stream_pipe with_call with_res res calls].
    rewrite drop_app_length. rewrite elem_of_cons, elem_of_nil.
    intros [H|[]]. discriminate. }
  split; [reflexivity | exact Hb].
Qed.


(** X16. Whenever [respond] sends a payload and has changed the length
    header, the header holds the number of bytes of the payload. *)
Theorem respond_length_matches_payload c (payload : chunk) :
  calls (res (snd (respond st c))) = calls (res c) ++ [End (Some payload)] ->
  headers (res (snd (respond st c))) !! "Content-Length"
    <> headers (res c) !! "Content-Length" ->
  headers (res (snd (respond st c))) !! "Content-Length"
  = Some (HNum (Z.of_nat (length (chunk_bytes payload)))).
Proof.
  destruct (respond_cases c) as [E|(Hm & b & Hb & E)]; rewrite E; cbn [snd].
  { intros _ H. congruence. }
  assert (Hlen : forall s, byteLength s
                           = Z.of_nat (length (chunk_bytes (ChunkString s)))).
  { intros s. cbn [chunk_bytes]. rewrite length_list_byte_of_string. reflexivity. }
  destruct Hb; cbn [perform].
  - intros Hc. apply app_inv_head in Hc. discriminate.
  - intros Hc. exfalso. revert Hc.
    destruct (negb (headersSent (res c)) && negb (response_has "Content-Length" c));
      [destruct (response_length c)|]; intros Hc; apply app_inv_head in Hc;
      discriminate.
  - intros Hc. apply app_inv_head in Hc. discriminate.
  - destruct (headersSent (res c)); intros Hc Hne;
      [exfalso; apply Hne; reflexivity|].
    cbn in Hc. apply app_inv_head in Hc. inversion Hc; subst payload.
    cbn [res_end set_length set_type_text with_call with_headers with_res res headers].
    rewrite lookup_insert_eq, Hlen. reflexivity.
  - intros _ Hne. exfalso. apply Hne. reflexivity.
  - intros _ Hne. exfalso. apply Hne. reflexivity.
  - intros _ Hne. exfalso. apply Hne. reflexivity.
  - destruct (JSON_stringify v) as [t|];
      [|intros _ Hne; exfalso; apply Hne; reflexivity].
    destruct (headersSent (res c)); intros Hc Hne;
      [exfalso; apply Hne; reflexivity|].
    cbn in Hc. apply app_inv_head in Hc. inversion Hc; subst payload.
    cbn [res_end set_length with_call with_headers with_res res headers].
    rewrite lookup_insert_eq, Hlen. reflexivity.
Qed.

End RespondMore.

(** *** Examples of the finalizer, continued *)

(** HEAD with the body "hello": nothing is written, the length is 5. *)
Lemma respond_head_witness :
  exists c' : Context,
    respond sample_statuses
      (with_method "HEAD" (with_body (BVal (VStr "hello")) sample_context))
    = (Normal, c') /\
    calls (res c') = [End None] /\
    headers (res c') !! "Content-Length" = Some (HNum 5).
Proof.
  destruct (respond_head sample_statuses
              (with_method "HEAD" (with_body (BVal (VStr "hello")) sample_context))
              ltac:(split; [discriminate | reflexivity]) eq_refl eq_refl)
    as (c' & Hr & Hc & _ & _ & _ & Hl).
  exists c'. split; [exact Hr|]. split; [exact Hc|].
  exact (Hl eq_refl eq_refl).
Defined.

Lemma respond_stream_witness :
  exists c' : Context,
    respond sample_statuses (with_body (BStream (Stream 1)) sample_context)
    = (Normal, c') /\
    calls (res c') = [Piped (Stream 1)].
Proof.
  destruct (respond_stream sample_statuses
              (with_body (BStream (Stream 1)) sample_context) (Stream 1)
              ltac:(split; [discriminate | reflexivity]) eq_refl
              ltac:(discriminate) eq_refl)
    as (c' & Hr & Hc & _).
  exists c'. split; assumption.
Defined.


(** The body [[1,2]]: five bytes are written and the length is 5. *)
Lemma respond_length_matches_payload_witness :
  headers (res (snd (respond sample_statuses
                       (with_body (BVal (VArr [VNum 1; VNum 2])) sample_context))))
    !! "Content-Length"
  = Some (HNum 5).
Proof.
  exact (respond_length_matches_payload sample_statuses
           (with_body (BVal (VArr [VNum 1; VNum 2])) sample_context)
           (ChunkString "[1,2]") eq_refl
           ltac:(vm_compute; discriminate)).
Defined.

(** ** The request handler, continued *)

Section HandleRequestMore.
Variable st : Statuses.
Variable ctx_onerror : thrown -> Context -> Context.

(** X17. The status the pipeline leaves is the status of the response: 404
    is what the pipeline starts from, and [respond] does not touch the
    status.  When the pipeline resolves and [respond] completes, the
    handler adds at most one call to those the pipeline made; when the
    pipeline rejects, [respond] is not run and the error handler of the
    context gets the failure. *)
Theorem handleRequest_status_from_pipeline c
    (fnMiddleware : Context -> result * Context) (o : result) (c' : Context) :
  fnMiddleware (on_finished (set_statusCode 404 c)) = (o, c') ->
  (o = Resolved -> fst (respond st c') = Normal ->
   statusCode (res (handleRequest st ctx_onerror c fnMiddleware))
   = statusCode (res c') /\
   exists new,
     calls (res (handleRequest st ctx_onerror c fnMiddleware))
     = calls (res c') ++ new /\ (length new <= 1)%nat) /\
  (forall f, o = Rejected f ->
     handleRequest st ctx_onerror c fnMiddleware
     = ctx_onerror (failure_thrown f) c').
Proof.
  intros E. split.
  - intros -> Hn. unfold handleRequest. rewrite E.
    pose proof (respond_statusCode st c') as Hs.
    destruct (respond_cases st c') as [Er|(Hm & b & Hb & Er)];
      rewrite Er in *; cbn [snd] in *.
    + split; [reflexivity|]. exists []. rewrite app_nil_r. split; [reflexivity|].
      cbn. lia.
    + split; [exact Hs|].
      destruct (perform_one_call st c' b Hb) as (x & Hx & _).
      exists [x]. split; [exact Hx | cbn; lia].
  - intros f ->. unfold handleRequest. rewrite E. reflexivity.
Qed.

End HandleRequestMore.

(** A pipeline that sets status 201 and a body. *)
Lemma handleRequest_status_from_pipeline_witness :
  statusCode
    (res (handleRequest sample_statuses (fun _ x => x) sample_context
            (fun c => (Resolved,
                       set_statusCode 201 (with_body (BVal (VStr "made")) c)))))
  = 201.
Proof.
  destruct (handleRequest_status_from_pipeline sample_statuses (fun _ x => x)
              sample_context
              (fun c => (Resolved,
                         set_statusCode 201 (with_body (BVal (VStr "made")) c)))
              Resolved
              (set_statusCode 201
                 (with_body (BVal (VStr "made"))
                    (on_finished (set_statusCode 404 sample_context))))
              eq_refl) as [H _].
  destruct (H eq_refl eq_refl) as [Hs _]. exact Hs.
Defined.

(** ** The default error handler, continued *)

Lemma indent_lines_short c :
  Ascii.eqb c "010"%char || Ascii.eqb c "013"%char = false ->
  forall s1, (String.length s1 < 2)%nat ->
  indent_lines (String c s1) = String c (indent_lines s1).
Proof.
  intros Hc s1 Hs. cbn [indent_lines]. rewrite Hc.
  destruct s1 as [|c2 [|c3 s3]]; try reflexivity. cbn in Hs. lia.
Qed.

(** Every LF starts a line of its own. *)
Lemma indent_lines_lf (n : nat) : forall a b,
  (String.length a < n)%nat ->
  indent_lines (a +:+ String LF b)
  = indent_lines a +:+ String LF ("  " +:+ indent_lines b).
Proof.
  induction n as [|n IH]; intros a b Hn; [lia|].
  destruct a as [|c a1].
  { rewrite !append_nil. reflexivity. }
  rewrite (append_cons c a1).
  destruct (Ascii.eqb c "010"%char || Ascii.eqb c "013"%char) eqn:Hc.
  { cbn [indent_lines]. rewrite Hc. rewrite IH by (cbn in Hn; lia).
    rewrite ?append_cons, ?append_nil. reflexivity. }
  destruct a1 as [|c2 [|c3 a3]].
  - rewrite append_nil. rewrite (indent_lines_short c Hc "") by (cbn; lia).
    assert (E : indent_lines (String c (String LF b))
                = String c (indent_lines (String LF b))).
    { cbn [indent_lines]. rewrite Hc. destruct b as [|c3 s3]; [reflexivity|].
      change (Ascii.eqb LF "128"%char) with false. rewrite andb_false_r.
      reflexivity. }
    rewrite E.
    change (indent_lines (String LF b)) with (String LF ("  " +:+ indent_lines b)).
    change (indent_lines "") with "".
    rewrite ?append_cons, ?append_nil. reflexivity.
  - rewrite (append_cons c2 ""), append_nil.
    assert (E : indent_lines (String c (String c2 (String LF b)))
                = String c (indent_lines (String c2 (String LF b)))).
    { cbn [indent_lines]. rewrite Hc.
      change (Ascii.eqb LF "168"%char || Ascii.eqb LF "169"%char) with false.
      rewrite andb_false_r. reflexivity. }
    rewrite E. rewrite (indent_lines_short c Hc (String c2 "")) by (cbn; lia).
    pose proof (IH (String c2 "") b ltac:(cbn in *; lia)) as IH2.
    rewrite (append_cons c2 ""), append_nil in IH2. rewrite IH2.
    rewrite ?append_cons, ?append_nil. reflexivity.
  - rewrite (append_cons c2), (append_cons c3).
    destruct (Ascii.eqb c "226"%char && Ascii.eqb c2 "128"%char &&
              (Ascii.eqb c3 "168"%char || Ascii.eqb c3 "169"%char)) eqn:Hu.
    + assert (E : forall t, indent_lines (String c (String c2 (String c3 t)))
                  = String c (String c2 (String c3 ("  " +:+ indent_lines t)))).
      { intros t. cbn [indent_lines]. rewrite Hc, Hu. reflexivity. }
      rewrite !E. rewrite IH by (cbn in *; lia).
      rewrite ?append_cons, ?append_nil. reflexivity.
    + assert (E : forall t, indent_lines (String c (String c2 (String c3 t)))
                  = String c (indent_lines (String c2 (String c3 t)))).
      { intros t. cbn [indent_lines]. rewrite Hc, Hu. reflexivity. }
      rewrite !E.
      pose proof (IH (String c2 (String c3 a3)) b ltac:(cbn in *; lia)) as IH2.
      rewrite (append_cons c2), (append_cons c3) in IH2. rewrite IH2.
      rewrite ?append_cons, ?append_nil. reflexivity.
Qed.

(** A text without line terminator is left as it is. *)
Lemma indent_lines_plain (n : nat) : forall s,
  (String.length s < n)%nat ->
  has_terminator s = false -> indent_lines s = s.
Proof.
  induction n as [|n IH]; intros s Hn H; [lia|].
  destruct s as [|c s1]; [reflexivity|].
  cbn [has_terminator] in H.
  apply orb_false_iff in H. destruct H as [H H3].
  apply orb_false_iff in H. destruct H as [H1 H2].
  cbn [indent_lines]. rewrite H1.
  destruct s1 as [|c2 [|c3 s3]].
  - reflexivity.
  - rewrite IH; [reflexivity | cbn in *; lia | assumption].
  - rewrite H2. rewrite IH; [reflexivity | cbn in *; lia | assumption].
Qed.

Lemma indent_unlines (lines : list string) :
  lines <> [] ->
  Forall (fun l => has_terminator l = false) lines ->
  indent (unlines lines)
  = unlines (map (fun l => "  " +:+ l) lines).
Proof.
  unfold indent, unlines. intros Hne H.
  induction H as [|l lines Hl Hlines IH]; [contradiction|].
  destruct lines as [|l2 lines].
  - cbn [String.concat map].
    rewrite (indent_lines_plain (S (String.length l))) by (try assumption; lia).
    reflexivity.
  - change (String.concat (String LF "") (l :: l2 :: lines))
      with (l +:+ String LF "" +:+ String.concat (String LF "") (l2 :: lines)).
    change (String.concat (String LF "") (map (fun l => "  " +:+ l) (l :: l2 :: lines)))
      with (("  " +:+ l) +:+ String LF "" +:+
            String.concat (String LF "")
              (map (fun l => "  " +:+ l) (l2 :: lines))).
    rewrite <- IH by discriminate.
    rewrite (append_cons LF ""), append_nil.
    rewrite (indent_lines_lf (S (String.length l))) by lia.
    rewrite (indent_lines_plain (S (String.length l))) by (try assumption; lia).
    rewrite !append_assoc, ?append_cons, ?append_nil. reflexivity.
Qed.

(** X18. An error that is reported is reported line by line: when its stack
    is made of lines joined by LF, none of which holds a line terminator
    itself, [onerror] writes an empty line, the stack with two spaces
    before every line, and an empty line. *)
Theorem onerror_indents_stack (silent : value) (e : Error)
    (console lines : list string) :
  err_status e <> VNum 404 -> truthy (err_expose e) = false ->
  truthy silent = false ->
  Forall (fun l => has_terminator l = false) lines ->
  err_stack e = Some (unlines lines) -> unlines lines <> "" ->
  onerror silent (ThrownError e) console
  = (Normal,
     console ++ [""; unlines (map (fun l => "  " +:+ l) lines); ""]).
Proof.
  intros Hs He Hq Hl Hst Hne. unfold onerror.
  assert (E : is_404 (err_status e) = false).
  { destruct (err_status e) as [| | |n| | |]; try reflexivity. cbn.
    destruct (Z.eqb_spec n 404); [congruence | reflexivity]. }
  rewrite E, He, Hq. cbn [orb].
  unfold diagnostic. rewrite Hst.
  destruct (String.eqb_spec (unlines lines) ""); [contradiction|].
  rewrite indent_unlines; [reflexivity | | assumption].
  intros ->. apply Hne. reflexivity.
Qed.


(** A stack of two lines. *)
Lemma onerror_indents_stack_witness :
  onerror VUndefined
    (ThrownError (mkError "Error" "boom"
                    (Some (unlines ["Error: boom"; "    at f (a.js:1:1)"]))
                    VUndefined VUndefined)) []
  = (Normal,
     [""; unlines ["  Error: boom"; "      at f (a.js:1:1)"]; ""]).
Proof.
  exact (onerror_indents_stack VUndefined
           (mkError "Error" "boom"
              (Some (unlines ["Error: boom"; "    at f (a.js:1:1)"]))
              VUndefined VUndefined)
           [] ["Error: boom"; "    at f (a.js:1:1)"]
           ltac:(discriminate) eq_refl eq_refl
           ltac:(repeat constructor) eq_refl
           ltac:(vm_compute; discriminate)).
Defined.
